(** * Payment instruction service: parser, validator chain, scheduler, executor

    A shallow embedding of [services/onboarding/payment-instructions.js]
    and of the handler of [endpoints/onboarding/payment-instructions.js].

    Strings are sequences of 8-bit characters; the embedding is exact on
    ASCII text, where [toUpperCase] only maps [a-z] to [A-Z] and the white
    space removed by [trim] is TAB, LF, VT, FF, CR and SPACE.  Numbers are
    the integer-valued doubles of the host language, represented by the
    integer they denote, with the rounding to 53 significant bits written
    out wherever the source computes one. *)

From Stdlib Require Import ZArith Ascii String Bool Lia List.
Import ListNotations.
Open Scope Z_scope.

(** ** Host-language string primitives *)

Module JS.

Definition jsstring := list ascii.

Definition lit (s : string) : jsstring := list_ascii_of_string s.

Definition code (c : ascii) : N := N_of_ascii c.

Definition char_eqb (a b : ascii) : bool := Ascii.eqb a b.

Fixpoint str_eqb (a b : jsstring) : bool :=
  match a, b with
  | [], [] => true
  | x :: a', y :: b' => char_eqb x y && str_eqb a' b'
  | _, _ => false
  end.

Definition is_white (c : ascii) : bool :=
  ((9 <=? code c) && (code c <=? 13) || (code c =? 32))%N.

Definition upper_char (c : ascii) : ascii :=
  if ((97 <=? code c) && (code c <=? 122))%N
  then ascii_of_N (code c - 32)
  else c.

Definition toUpperCase (s : jsstring) : jsstring := map upper_char s.

Fixpoint dropWhile (p : ascii -> bool) (s : jsstring) : jsstring :=
  match s with
  | [] => []
  | c :: s' => if p c then dropWhile p s' else s
  end.

Definition trimStart (s : jsstring) : jsstring := dropWhile is_white s.

Definition trimEnd (s : jsstring) : jsstring :=
  rev (dropWhile is_white (rev s)).

Definition trim (s : jsstring) : jsstring := trimEnd (trimStart s).

Definition space : ascii := " "%char.

(** [s.split(' ')]: the pieces between single spaces; the empty string
    splits into one empty piece. *)
Fixpoint split_space (s : jsstring) : list jsstring :=
  match s with
  | [] => [[]]
  | c :: s' =>
      if char_eqb c space then [] :: split_space s'
      else match split_space s' with
           | w :: ws => (c :: w) :: ws
           | [] => [[c]]
           end
  end.

Definition nonempty (w : jsstring) : bool :=
  match w with [] => false | _ => true end.

(** [ws.join(' ')] *)
Fixpoint join_space (ws : list jsstring) : jsstring :=
  match ws with
  | [] => []
  | [w] => w
  | w :: ws' => w ++ space :: join_space ws'
  end.

Fixpoint prefixb (pat s : jsstring) : bool :=
  match pat, s with
  | [], _ => true
  | p :: pat', c :: s' => char_eqb p c && prefixb pat' s'
  | _ :: _, [] => false
  end.

(** Offset of the first occurrence of [pat] in [s]. *)
Fixpoint find_first (pat s : jsstring) : option nat :=
  if prefixb pat s then Some O
  else match s with
       | [] => None
       | _ :: s' => option_map S (find_first pat s')
       end.

Definition len (s : jsstring) : Z := Z.of_nat (length s).

(** Clamping of an index argument to [0 .. length]. *)
Definition clamp (s : jsstring) (i : Z) : nat :=
  Z.to_nat (Z.max 0 (Z.min i (len s))).

(** [s.indexOf(pat, from)]: the first occurrence at or after the clamped
    start index, or [-1]. *)
Definition indexOf (s pat : jsstring) (from : Z) : Z :=
  let k := clamp s from in
  match find_first pat (skipn k s) with
  | Some i => Z.of_nat (k + i)
  | None => -1
  end.

(** [s.substring(a, b)]: both indices clamped, swapped when out of order. *)
Definition substring (s : jsstring) (a b : Z) : jsstring :=
  let a' := clamp s a in
  let b' := clamp s b in
  let lo := Nat.min a' b' in
  let hi := Nat.max a' b' in
  firstn (hi - lo) (skipn lo s).

(** [s.substring(a)] *)
Definition substring_from (s : jsstring) (a : Z) : jsstring :=
  skipn (clamp s a) s.

End JS.

Import JS.

(** ** Host-language numbers

    [parseInt], [String(n)] and the arithmetic of the source only ever meet
    integer-valued doubles, so a finite number is the integer it denotes
    ([-0] and [+0] behave alike everywhere in this program and are both
    [Num 0]). *)

Module Num.

Inductive Number :=
| NaN
| Num (z : Z)
| Infinity (negative : bool).

Definition MAX_SAFE_INTEGER : Z := 2 ^ 53 - 1.

(** Round to nearest, ties to even, at 53 significant bits. *)
Definition fround (v : Z) : Z :=
  let a := Z.abs v in
  if a <? 2 ^ 53 then v
  else
    let e := Z.log2 a - 52 in
    let q := a / 2 ^ e in
    let r := a - q * 2 ^ e in
    let half := 2 ^ (e - 1) in
    let q' := if r <? half then q
              else if half <? r then q + 1
              else if Z.even q then q else q + 1 in
    Z.sgn v * (q' * 2 ^ e).

(** The number value of a mathematical integer. *)
Definition to_double (v : Z) : Number :=
  let r := fround v in
  if 2 ^ 1024 <=? Z.abs r then Infinity (v <? 0) else Num r.

Definition is_digit (c : ascii) : bool :=
  ((48 <=? code c) && (code c <=? 57))%N.

Definition digit_val (c : ascii) : Z := Z.of_N (code c - 48).

Definition digit_char (d : Z) : ascii := ascii_of_N (Z.to_N d + 48).

Fixpoint takeWhile (p : ascii -> bool) (s : jsstring) : jsstring :=
  match s with
  | [] => []
  | c :: s' => if p c then c :: takeWhile p s' else []
  end.

Definition digits_value (ds : jsstring) : Z :=
  fold_left (fun acc c => 10 * acc + digit_val c) ds 0.

(** [parseInt(s, 10)]: leading white space, an optional sign, then the
    longest run of decimal digits. *)
Definition parseInt (s : jsstring) : Number :=
  let s1 := trimStart s in
  let negative := match s1 with
                  | c :: _ => char_eqb c "-"%char
                  | [] => false
                  end in
  let s2 := match s1 with
            | c :: r => if char_eqb c "-"%char || char_eqb c "+"%char then r else s1
            | [] => []
            end in
  match takeWhile is_digit s2 with
  | [] => NaN
  | ds => to_double (if negative then - digits_value ds else digits_value ds)
  end.

Fixpoint decimal_loop (fuel : nat) (n : Z) (acc : jsstring) : jsstring :=
  match fuel with
  | O => acc
  | S f =>
      let acc' := digit_char (n mod 10) :: acc in
      if n <? 10 then acc' else decimal_loop f (n / 10) acc'
  end.

(** Decimal digits of a non-negative integer. *)
Definition decimal (n : Z) : jsstring :=
  decimal_loop (S (Z.to_nat (Z.log2 n))) n [].

(** The multiple of [10^j] that reads back as the double [z], if there is
    one: the nearer of the two that enclose [z], the even one on a tie. *)
Definition candidate (z : Z) (j : nat) : option Z :=
  let p := 10 ^ Z.of_nat j in
  let lo := (z / p) * p in
  let hi := lo + p in
  match fround lo =? z, fround hi =? z with
  | true, true =>
      if z - lo <? hi - z then Some lo
      else if hi - z <? z - lo then Some hi
      else if Z.even (lo / p) then Some lo else Some hi
  | true, false => Some lo
  | false, true => Some hi
  | false, false => None
  end.

Fixpoint shortest_from (z : Z) (j : nat) : Z :=
  match candidate z j with
  | Some c => c
  | None => match j with
            | O => z
            | S j' => shortest_from z j'
            end
  end.

(** The integer with the fewest significant digits that still denotes the
    double [z > 0]. *)
Definition shortest (z : Z) : Z :=
  shortest_from z (length (decimal z) - 1).

Definition strip_trailing_zeros (ds : jsstring) : jsstring :=
  rev (dropWhile (fun c => char_eqb c "0"%char) (rev ds)).

(** [String(z)] for a double [z > 0]: plain digits below [10^21],
    exponential notation from there on. *)
Definition positive_to_string (z : Z) : jsstring :=
  let ds := decimal (shortest z) in
  let n := length ds in
  if (n <=? 21)%nat then ds
  else match strip_trailing_zeros ds with
       | d :: rest =>
           d :: (match rest with [] => [] | _ => "."%char :: rest end)
             ++ lit "e+" ++ decimal (Z.of_nat n - 1)
       | [] => []
       end.

(** [String(x)] *)
Definition to_string (x : Number) : jsstring :=
  match x with
  | NaN => lit "NaN"
  | Infinity negative => if negative then lit "-Infinity" else lit "Infinity"
  | Num z =>
      if z =? 0 then lit "0"
      else if z <? 0 then "-"%char :: positive_to_string (- z)
      else positive_to_string z
  end.

Definition isNaN (x : Number) : bool :=
  match x with NaN => true | _ => false end.

(** [x <= 0] *)
Definition le_zero (x : Number) : bool :=
  match x with
  | NaN => false
  | Num z => z <=? 0
  | Infinity negative => negative
  end.

(** [b < x] for a finite [b] *)
Definition lt_num (b : Z) (x : Number) : bool :=
  match x with
  | NaN => false
  | Num z => b <? z
  | Infinity negative => negb negative
  end.

(** [x || null] *)
Definition or_null (x : Number) : option Number :=
  match x with
  | NaN => None
  | Num z => if z =? 0 then None else Some x
  | Infinity _ => Some x
  end.

End Num.

Import Num.

(** The host's date facilities, which the repository takes from its
    runtime: the time value of [new Date(s)] ([None] when it is invalid),
    the clock reading of [new Date()], and the UTC midnight of an instant's
    calendar day ([Date.UTC] of its UTC year, month and day). *)
Record Host := mkHost {
  date_value : jsstring -> option Z;
  now : Z;
  utc_midnight : Z -> Z
}.

(** ** Data model *)

Inductive InstructionType := DEBIT | CREDIT.

Inductive StatusCode :=
  AM01 | CU01 | CU02 | AC01 | AC02 | AC03 | AC04 | DT01
| SY01 | SY02 | SY03 | AP00 | AP02.

Inductive Status := successful | pending | failed.

Definition STATUS_CODES (c : StatusCode) : jsstring :=
  match c with
  | AM01 => lit "Amount must be a positive integer"
  | CU01 => lit "Account currency mismatch"
  | CU02 => lit "Unsupported currency. Only NGN, USD, GBP, and GHS are supported"
  | AC01 => lit "Insufficient funds in debit account"
  | AC02 => lit "Debit and credit accounts cannot be the same"
  | AC03 => lit "Account not found"
  | AC04 => lit "Invalid account ID format"
  | DT01 => lit "Invalid date format"
  | SY01 => lit "Missing required keyword"
  | SY02 => lit "Invalid keyword order"
  | SY03 => lit "Malformed instruction: unable to parse keywords"
  | AP00 => lit "Transaction executed successfully"
  | AP02 => lit "Transaction scheduled for future execution"
  end.

Definition SUPPORTED_CURRENCIES : list jsstring :=
  [lit "NGN"; lit "USD"; lit "GBP"; lit "GHS"].

(** An account of the request: [{id, balance, currency}], the balance an
    integer held in a number. *)
Module Account.
Record t := mk {
  id : jsstring;
  balance : Z;
  currency : jsstring
}.
End Account.

(** The draft transfer returned by the parser. *)
Module Draft.
Record t := mk {
  type : InstructionType;
  amount : jsstring;
  currency : jsstring;
  debitAccount : jsstring;
  creditAccount : jsstring;
  executeBy : option jsstring
}.
End Draft.

(** An account entry of the response. *)
Module Snapshot.
Record t := mk {
  id : jsstring;
  balance : Z;
  balance_before : Z;
  currency : jsstring
}.
End Snapshot.

(** The [data] payload of the result, with its [httpStatus]. *)
Module Response.
Record t := mk {
  httpStatus : Z;
  type : option InstructionType;
  amount : option Number;
  currency : option jsstring;
  debit_account : option jsstring;
  credit_account : option jsstring;
  execute_by : option jsstring;
  status : Status;
  status_reason : jsstring;
  status_code : StatusCode;
  accounts : list Snapshot.t
}.
End Response.

(** An error result [{error: true, statusCode, statusReason}]. *)
Record Failure := mkFailure {
  statusCode : StatusCode;
  statusReason : jsstring
}.

(** ** Parser *)

(** The keyword positions computed at the head of both parse functions. *)
Record Positions := mkPositions {
  debitPos : Z;
  fromPos : Z;
  creditPos : Z;
  toPos : Z;
  accountPos1 : Z;
  accountPos2 : Z;
  forPos : Z;
  onPos : Z
}.

Definition debit_positions (upper : jsstring) : Positions :=
  let debitPos := indexOf upper (lit "DEBIT") 0 in
  let fromPos := indexOf upper (lit "FROM") 0 in
  let accountPos1 := indexOf upper (lit "ACCOUNT") fromPos in
  let forPos := indexOf upper (lit "FOR") 0 in
  let creditPos := indexOf upper (lit "CREDIT") forPos in
  let toPos := indexOf upper (lit "TO") creditPos in
  let accountPos2 := indexOf upper (lit "ACCOUNT") toPos in
  let onPos := indexOf upper (lit "ON") accountPos2 in
  mkPositions debitPos fromPos creditPos toPos accountPos1 accountPos2 forPos onPos.

Definition credit_positions (upper : jsstring) : Positions :=
  let creditPos := indexOf upper (lit "CREDIT") 0 in
  let toPos := indexOf upper (lit "TO") 0 in
  let accountPos1 := indexOf upper (lit "ACCOUNT") toPos in
  let forPos := indexOf upper (lit "FOR") 0 in
  let debitPos := indexOf upper (lit "DEBIT") forPos in
  let fromPos := indexOf upper (lit "FROM") debitPos in
  let accountPos2 := indexOf upper (lit "ACCOUNT") fromPos in
  let onPos := indexOf upper (lit "ON") accountPos2 in
  mkPositions debitPos fromPos creditPos toPos accountPos1 accountPos2 forPos onPos.

(** A thrown [Error] carries its message. *)
Definition Thrown := jsstring.

(** [part.split(' ').filter((t) => t.length > 0)] *)
Definition tokens_of (part : jsstring) : list jsstring :=
  filter nonempty (split_space part).

(** Second account: up to [ON] when it was found after the second ACCOUNT,
    otherwise up to the end of the string. *)
Definition second_account (instruction : jsstring) (p : Positions) : jsstring :=
  if onPos p >? accountPos2 p
  then trim (substring instruction (accountPos2 p + 7) (onPos p))
  else trim (substring_from instruction (accountPos2 p + 7)).

Definition date_part (instruction : jsstring) (p : Positions) : option jsstring :=
  if onPos p >? accountPos2 p
  then Some (trim (substring_from instruction (onPos p + 2)))
  else None.

Definition parseDebitInstruction (instruction : jsstring) : Thrown + Draft.t :=
  let upper := toUpperCase instruction in
  let p := debit_positions upper in
  if debitPos p =? -1 then inl (lit "Missing required keyword: DEBIT")
  else if fromPos p =? -1 then inl (lit "Missing required keyword: FROM")
  else if accountPos1 p =? -1 then inl (lit "Missing required keyword: ACCOUNT after FROM")
  else if forPos p =? -1 then inl (lit "Missing required keyword: FOR")
  else if creditPos p =? -1 then inl (lit "Missing required keyword: CREDIT")
  else if toPos p =? -1 then inl (lit "Missing required keyword: TO")
  else if accountPos2 p =? -1 then inl (lit "Missing required keyword: ACCOUNT after TO")
  else if negb ((debitPos p <? fromPos p) && (fromPos p <? accountPos1 p)
                && (accountPos1 p <? forPos p) && (forPos p <? creditPos p)
                && (creditPos p <? toPos p) && (toPos p <? accountPos2 p))
  then inl (STATUS_CODES SY02)
  else
    let amountCurrencyPart := trim (substring instruction (debitPos p + 5) (fromPos p)) in
    match tokens_of amountCurrencyPart with
    | [amount; currency] =>
        let debitAccount := trim (substring instruction (accountPos1 p + 7) (forPos p)) in
        let creditAccount := second_account instruction p in
        inr (Draft.mk DEBIT amount (toUpperCase currency) debitAccount creditAccount
                      (date_part instruction p))
    | _ => inl (lit "Invalid format: expected amount and currency after DEBIT")
    end.

Definition parseCreditInstruction (instruction : jsstring) : Thrown + Draft.t :=
  let upper := toUpperCase instruction in
  let p := credit_positions upper in
  if creditPos p =? -1 then inl (lit "Missing required keyword: CREDIT")
  else if toPos p =? -1 then inl (lit "Missing required keyword: TO")
  else if accountPos1 p =? -1 then inl (lit "Missing required keyword: ACCOUNT after TO")
  else if forPos p =? -1 then inl (lit "Missing required keyword: FOR")
  else if debitPos p =? -1 then inl (lit "Missing required keyword: DEBIT")
  else if fromPos p =? -1 then inl (lit "Missing required keyword: FROM")
  else if accountPos2 p =? -1 then inl (lit "Missing required keyword: ACCOUNT after FROM")
  else if negb ((creditPos p <? toPos p) && (toPos p <? accountPos1 p)
                && (accountPos1 p <? forPos p) && (forPos p <? debitPos p)
                && (debitPos p <? fromPos p) && (fromPos p <? accountPos2 p))
  then inl (STATUS_CODES SY02)
  else
    let amountCurrencyPart := trim (substring instruction (creditPos p + 6) (toPos p)) in
    match tokens_of amountCurrencyPart with
    | [amount; currency] =>
        let creditAccount := trim (substring instruction (accountPos1 p + 7) (forPos p)) in
        let debitAccount := second_account instruction p in
        inr (Draft.mk CREDIT amount (toUpperCase currency) debitAccount creditAccount
                      (date_part instruction p))
    | _ => inl (lit "Invalid format: expected amount and currency after CREDIT")
    end.

(** The words of [instruction.trim().split(' ').filter(nonempty)]. *)
Definition words (instruction : jsstring) : list jsstring :=
  tokens_of (trim instruction).

Definition normalize (instruction : jsstring) : jsstring :=
  join_space (words instruction).

(** The [catch] clause: every thrown error becomes an SY03 failure that
    carries the error's message ([error.message || STATUS_CODES.SY03]). *)
Definition catch_SY03 (r : Thrown + Draft.t) : Failure + Draft.t :=
  match r with
  | inl message =>
      inl (mkFailure SY03 (if nonempty message then message else STATUS_CODES SY03))
  | inr d => inr d
  end.

Definition parseInstruction (instruction : jsstring) : Failure + Draft.t :=
  if negb (nonempty instruction) then inl (mkFailure SY03 (STATUS_CODES SY03))
  else
    let normalized := normalize instruction in
    let upper := toUpperCase normalized in
    if indexOf upper (lit "DEBIT") 0 =? 0
    then catch_SY03 (parseDebitInstruction normalized)
    else if indexOf upper (lit "CREDIT") 0 =? 0
    then catch_SY03 (parseCreditInstruction normalized)
    else inl (mkFailure SY01 (lit "Missing required keyword: DEBIT or CREDIT")).

(** ** Validator chain *)

Definition contains (s pat : jsstring) : bool :=
  negb (indexOf s pat 0 =? -1).

Definition includes (l : list jsstring) (s : jsstring) : bool :=
  existsb (str_eqb s) l.

Definition valid_id_char (c : ascii) : bool :=
  ((97 <=? code c) && (code c <=? 122)
   || (65 <=? code c) && (code c <=? 90)
   || (48 <=? code c) && (code c <=? 57)
   || char_eqb c "-"%char || char_eqb c "."%char || char_eqb c "@"%char)%N.

Definition isValidAccountId (id : jsstring) : bool :=
  nonempty id && forallb valid_id_char id.

(** [accounts.find((acc) => acc.id === id)] *)
Definition find_account (accounts : list Account.t) (id : jsstring) : option Account.t :=
  find (fun acc => str_eqb (Account.id acc) id) accounts.

Section WithHost.

Variable host : Host.

(** [validateDate]: the time value of the date on success. *)
Definition validateDate (dateStr : jsstring) : Failure + Z :=
  let bad_format := mkFailure DT01 (lit "Invalid date format. Expected YYYY-MM-DD") in
  if negb (nonempty dateStr) || negb (length dateStr =? 10)%nat then inl bad_format
  else if negb (char_eqb (nth 4 dateStr space) "-"%char)
          || negb (char_eqb (nth 7 dateStr space) "-"%char) then inl bad_format
  else
    let year := substring dateStr 0 4 in
    let month := substring dateStr 5 7 in
    let day := substring dateStr 8 10 in
    if negb (forallb is_digit year) then inl bad_format
    else if negb (forallb is_digit month) then inl bad_format
    else if negb (forallb is_digit day) then inl bad_format
    else match date_value host (dateStr ++ lit "T00:00:00.000Z") with
         | None => inl (mkFailure DT01 (lit "Invalid date"))
         | Some date => inr date
         end.

(** A value is truthy when it is neither [null] nor the empty string. *)
Definition truthy (v : option jsstring) : bool :=
  match v with
  | Some s => nonempty s
  | None => false
  end.

Definition validateInstruction (parsed : Draft.t) (accounts : list Account.t)
  : Failure + unit :=
  if negb (nonempty (Draft.amount parsed))
     || contains (Draft.amount parsed) (lit ".")
     || contains (Draft.amount parsed) (lit "-")
  then inl (mkFailure AM01 (STATUS_CODES AM01))
  else
    let amountNum := parseInt (Draft.amount parsed) in
    if isNaN amountNum || le_zero amountNum
       || negb (str_eqb (Draft.amount parsed) (to_string amountNum))
    then inl (mkFailure AM01 (STATUS_CODES AM01))
    else if negb (includes SUPPORTED_CURRENCIES (Draft.currency parsed))
    then inl (mkFailure CU02 (STATUS_CODES CU02))
    else if negb (isValidAccountId (Draft.debitAccount parsed))
    then inl (mkFailure AC04 (lit "Invalid account ID format for debit account"))
    else if negb (isValidAccountId (Draft.creditAccount parsed))
    then inl (mkFailure AC04 (lit "Invalid account ID format for credit account"))
    else if str_eqb (Draft.debitAccount parsed) (Draft.creditAccount parsed)
    then inl (mkFailure AC02 (STATUS_CODES AC02))
    else
      match find_account accounts (Draft.debitAccount parsed),
            find_account accounts (Draft.creditAccount parsed) with
      | None, _ =>
          inl (mkFailure AC03 (lit "Account not found: " ++ Draft.debitAccount parsed))
      | Some _, None =>
          inl (mkFailure AC03 (lit "Account not found: " ++ Draft.creditAccount parsed))
      | Some debitAcc, Some creditAcc =>
          if negb (str_eqb (toUpperCase (Account.currency debitAcc)) (Draft.currency parsed))
          then inl (mkFailure CU01 (STATUS_CODES CU01))
          else if negb (str_eqb (toUpperCase (Account.currency creditAcc))
                                (Draft.currency parsed))
          then inl (mkFailure CU01 (STATUS_CODES CU01))
          else if lt_num (Account.balance debitAcc) amountNum
          then inl (mkFailure AC01
                 (lit "Insufficient funds in account " ++ Draft.debitAccount parsed
                  ++ lit ": has " ++ to_string (Num (Account.balance debitAcc))
                  ++ lit " " ++ Draft.currency parsed
                  ++ lit ", needs " ++ to_string amountNum
                  ++ lit " " ++ Draft.currency parsed))
          else if truthy (Draft.executeBy parsed)
          then match Draft.executeBy parsed with
               | Some dateStr =>
                   match validateDate dateStr with
                   | inl dateValidation => inl dateValidation
                   | inr _ => inr tt
                   end
               | None => inr tt
               end
          else inr tt
      end.

(** ** Scheduler decision *)

Definition shouldExecuteImmediately (executeBy : option jsstring) : bool :=
  if negb (truthy executeBy) then true
  else match executeBy with
       | None => true
       | Some dateStr =>
           match validateDate dateStr with
           | inl _ => false
           | inr targetDate =>
               let nowDateOnly := utc_midnight host (now host) in
               let targetDateOnly := utc_midnight host targetDate in
               targetDateOnly <=? nowDateOnly
           end
       end.

(** ** Executor *)

(** Assignment to the [balance] property of the object that
    [accounts.find] returned: the first account with that id. *)
Fixpoint set_balance (accounts : list Account.t) (id : jsstring) (b : Z)
  : list Account.t :=
  match accounts with
  | [] => []
  | acc :: rest =>
      if str_eqb (Account.id acc) id
      then Account.mk (Account.id acc) b (Account.currency acc) :: rest
      else acc :: set_balance rest id b
  end.

Record Executed := mkExecuted {
  debitAcc : Snapshot.t;
  creditAcc : Snapshot.t
}.

(** [executeTransaction] returns its result together with the account
    objects as it leaves them.  [debitAcc] and [creditAcc] are references
    into [accounts] (to one object when both ids are the same), so each read
    after an assignment looks the account up in the store as it then is.
    [None] stands for the [TypeError] of reading [balance] from a missing
    account, and for an amount that is not a finite number, whose balances
    would leave the integers. *)
Definition executeTransaction (parsed : Draft.t) (accounts : list Account.t)
  : option (Executed * list Account.t) :=
  match parseInt (Draft.amount parsed) with
  | Num amountNum =>
      match find_account accounts (Draft.debitAccount parsed),
            find_account accounts (Draft.creditAccount parsed) with
      | Some debitAcc0, Some creditAcc0 =>
          let debitBalanceBefore := Account.balance debitAcc0 in
          let creditBalanceBefore := Account.balance creditAcc0 in
          let accounts1 :=
            set_balance accounts (Draft.debitAccount parsed)
                        (fround (Account.balance debitAcc0 - amountNum)) in
          match find_account accounts1 (Draft.creditAccount parsed) with
          | Some creditAcc1 =>
              let accounts2 :=
                set_balance accounts1 (Draft.creditAccount parsed)
                            (fround (Account.balance creditAcc1 + amountNum)) in
              match find_account accounts2 (Draft.debitAccount parsed),
                    find_account accounts2 (Draft.creditAccount parsed) with
              | Some debitAcc2, Some creditAcc2 =>
                  Some (mkExecuted
                          (Snapshot.mk (Account.id debitAcc2) (Account.balance debitAcc2)
                             debitBalanceBefore (toUpperCase (Account.currency debitAcc2)))
                          (Snapshot.mk (Account.id creditAcc2) (Account.balance creditAcc2)
                             creditBalanceBefore (toUpperCase (Account.currency creditAcc2))),
                        accounts2)
              | _, _ => None
              end
          | None => None
          end
      | _, _ => None
      end
  | _ => None
  end.

(** ** Response assembly and the service *)

Definition involved (parsed : Draft.t) (acc : Account.t) : bool :=
  str_eqb (Account.id acc) (Draft.debitAccount parsed)
  || str_eqb (Account.id acc) (Draft.creditAccount parsed).

(** Entries pushed for a failed or pending transfer. *)
Definition untouched_accounts (parsed : Draft.t) (accounts : list Account.t)
  : list Snapshot.t :=
  map (fun acc => Snapshot.mk (Account.id acc) (Account.balance acc) (Account.balance acc)
                    (toUpperCase (Account.currency acc)))
      (filter (involved parsed) accounts).

(** Entries pushed after an executed transfer. *)
Definition executed_accounts (parsed : Draft.t) (result : Executed)
  (accounts : list Account.t) : list Snapshot.t :=
  map (fun acc => if str_eqb (Account.id acc) (Draft.debitAccount parsed)
                  then debitAcc result else creditAcc result)
      (filter (involved parsed) accounts).

(** The service returns its response together with the caller's account
    objects as the call leaves them; [None] is a rejected promise. *)
Definition paymentInstructionsService (accounts : list Account.t) (instruction : jsstring)
  : option (Response.t * list Account.t) :=
  match parseInstruction instruction with
  | inl parsed =>
      Some (Response.mk 400 None None None None None None failed
              (statusReason parsed) (statusCode parsed) [], accounts)
  | inr parsed =>
      match validateInstruction parsed accounts with
      | inl validation =>
          Some (Response.mk 400 (Some (Draft.type parsed))
                  (or_null (parseInt (Draft.amount parsed)))
                  (Some (Draft.currency parsed))
                  (Some (Draft.debitAccount parsed))
                  (Some (Draft.creditAccount parsed))
                  (Draft.executeBy parsed)
                  failed (statusReason validation) (statusCode validation)
                  (untouched_accounts parsed accounts), accounts)
      | inr _ =>
          if negb (shouldExecuteImmediately (Draft.executeBy parsed))
          then
            Some (Response.mk 200 (Some (Draft.type parsed))
                    (Some (parseInt (Draft.amount parsed)))
                    (Some (Draft.currency parsed))
                    (Some (Draft.debitAccount parsed))
                    (Some (Draft.creditAccount parsed))
                    (Draft.executeBy parsed)
                    pending (STATUS_CODES AP02) AP02
                    (untouched_accounts parsed accounts), accounts)
          else
            match executeTransaction parsed accounts with
            | None => None
            | Some (result, accounts') =>
                Some (Response.mk 200 (Some (Draft.type parsed))
                        (Some (parseInt (Draft.amount parsed)))
                        (Some (Draft.currency parsed))
                        (Some (Draft.debitAccount parsed))
                        (Some (Draft.creditAccount parsed))
                        (Draft.executeBy parsed)
                        successful (STATUS_CODES AP00) AP00
                        (executed_accounts parsed result accounts'), accounts')
            end
      end
  end.

End WithHost.

(** ** Endpoint *)

(** The request body [{accounts, instruction}]. *)
Module Payload.
Record t := mk {
  accounts : list Account.t;
  instruction : jsstring
}.
End Payload.

(** What the handler returns: [{status, data}]. *)
Module Reply.
Record t := mk {
  status : Z;
  data : Response.t
}.
End Reply.

(** [x || y] for a number [x] held as an integer. *)
Definition or_else (x y : Z) : Z := if x =? 0 then y else x.

(** The handler of [POST /payment-instructions], given the framework's
    [http_statuses.HTTP_200_OK]: it hands the request body to the service
    and answers with the service's [httpStatus], or with the framework's
    status when that is falsy, and the service's data.  Like the service it
    returns together with the account objects as it leaves them.  The hook
    [onResponseEnd] only writes a log entry. *)
Definition handler (host : Host) (HTTP_200_OK : Z) (body : Payload.t)
  : option (Reply.t * list Account.t) :=
  match paymentInstructionsService host (Payload.accounts body)
                                   (Payload.instruction body) with
  | None => None
  | Some (response, accounts') =>
      Some (Reply.mk (or_else (Response.httpStatus response) HTTP_200_OK) response,
            accounts')
  end.

(** ** A reference host

    The host on which the repository runs the service (Node.js), for
    running it on concrete requests: dates of the form
    [YYYY-MM-DDT00:00:00.000Z] are read on the proleptic Gregorian
    calendar, with months 01 to 12 and days 01 to 31; a day beyond the
    length of its month counts on into the next month, so that
    [2025-02-30] is read as 2 March 2025; other months and days are
    invalid.  The clock stands at 2025-11-10T12:00:00Z. *)

Definition msPerDay : Z := 86400000.

Definition days_from_civil (y m d : Z) : Z :=
  let y' := if m <=? 2 then y - 1 else y in
  let era := y' / 400 in
  let yoe := y' - era * 400 in
  let doy := (153 * (if m >? 2 then m - 3 else m + 9) + 2) / 5 + d - 1 in
  let doe := yoe * 365 + yoe / 4 - yoe / 100 + doy in
  era * 146097 + doe - 719468.

Definition is_leap (y : Z) : bool :=
  ((y mod 4 =? 0) && negb (y mod 100 =? 0)) || (y mod 400 =? 0).

Definition days_in_month (y m : Z) : Z :=
  if m =? 2 then (if is_leap y then 29 else 28)
  else if (m =? 4) || (m =? 6) || (m =? 9) || (m =? 11) then 30 else 31.

Definition reference_date_value (s : jsstring) : option Z :=
  if (length s =? 24)%nat && forallb is_digit (substring s 0 4)
     && forallb is_digit (substring s 5 7) && forallb is_digit (substring s 8 10)
     && str_eqb (substring_from s 10) (lit "T00:00:00.000Z")
  then
    let y := digits_value (substring s 0 4) in
    let m := digits_value (substring s 5 7) in
    let d := digits_value (substring s 8 10) in
    if (1 <=? m) && (m <=? 12) && (1 <=? d) && (d <=? 31)
    then Some (days_from_civil y m d * msPerDay)
    else None
  else None.

Definition reference_host : Host :=
  mkHost reference_date_value
         (days_from_civil 2025 11 10 * msPerDay + 43200000)
         (fun t => (t / msPerDay) * msPerDay).


(** ** Vocabulary of the statements *)

(** No SPACE character: what every keyword is, and every word of a
    normalized instruction. *)
Definition spaceless (s : jsstring) : bool :=
  forallb (fun c => negb (char_eqb c space)) s.

(** A constituent of an instruction: not empty and free of white space. *)
Definition clean (s : jsstring) : bool :=
  nonempty s && forallb (fun c => negb (is_white c)) s.

(** Offset at which word [i] starts in [join_space toks]. *)
Fixpoint tok_start (toks : list jsstring) (i : nat) {struct i} : nat :=
  match i, toks with
  | S i', t :: r => (length t + 1 + tok_start r i')%nat
  | _, _ => O
  end.

(** First occurrence of [pat] inside one of the words, as an offset into
    [join_space toks]. *)
Fixpoint find_tok (pat : jsstring) (toks : list jsstring) : option nat :=
  match toks with
  | [] => None
  | t :: r =>
      match find_first pat t with
      | Some o => Some o
      | None => option_map (fun i => (length t + 1 + i)%nat) (find_tok pat r)
      end
  end.

(** [pat] occurs in [s] at offset [p]. *)
Definition occurs_at (pat s : jsstring) (p : nat) : Prop :=
  prefixb pat (skipn p s) = true /\ (p <= length s)%nat.

(** [r] is what a search for the first occurrence of [pat] in [s] at or
    after offset [from] returns. *)
Definition first_occurrence (pat s : jsstring) (from : nat) (r : Z) : Prop :=
  (r = -1 /\ forall q, (from <= q)%nat -> ~ occurs_at pat s q)
  \/ (exists p, r = Z.of_nat p /\ (from <= p)%nat /\ occurs_at pat s p
                /\ forall q, (from <= q < p)%nat -> ~ occurs_at pat s q).

(** Text of the ASCII range, on which [toUpperCase] and [trim] are those
    of the host language. *)
Definition ascii_text (s : jsstring) : bool :=
  forallb (fun c => (code c <? 128)%N) s.

(** No white space at either end. *)
Definition head_ok (l : jsstring) : bool :=
  match l with
  | [] => true
  | c :: _ => negb (is_white c)
  end.

Definition tight (t : jsstring) : bool := head_ok t && head_ok (rev t).

(** [s], read without regard to letter case, contains the keyword [kw]. *)
Definition mentions (s kw : jsstring) : bool :=
  match find_first kw (toUpperCase s) with
  | Some _ => true
  | None => false
  end.

(** The spellings of the keywords of one instruction. *)
Record Keywords := mkKeywords {
  kDEBIT : jsstring;
  kFROM : jsstring;
  kCREDIT : jsstring;
  kTO : jsstring;
  kACCOUNT1 : jsstring;
  kACCOUNT2 : jsstring;
  kFOR : jsstring;
  kON : jsstring
}.

(** Keywords are matched without regard to letter case. *)
Definition well_spelled (k : Keywords) : Prop :=
  toUpperCase (kDEBIT k) = lit "DEBIT"
  /\ toUpperCase (kFROM k) = lit "FROM"
  /\ toUpperCase (kCREDIT k) = lit "CREDIT"
  /\ toUpperCase (kTO k) = lit "TO"
  /\ toUpperCase (kACCOUNT1 k) = lit "ACCOUNT"
  /\ toUpperCase (kACCOUNT2 k) = lit "ACCOUNT"
  /\ toUpperCase (kFOR k) = lit "FOR"
  /\ toUpperCase (kON k) = lit "ON".

Definition UPPERCASE : Keywords :=
  mkKeywords (lit "DEBIT") (lit "FROM") (lit "CREDIT") (lit "TO")
             (lit "ACCOUNT") (lit "ACCOUNT") (lit "FOR") (lit "ON").

(** How an instruction ends after its second account. *)
Inductive Ending :=
| NoOn
| OnOnly
| OnDate (date : jsstring).

Definition ending_words (k : Keywords) (e : Ending) : list jsstring :=
  match e with
  | NoOn => []
  | OnOnly => [kON k]
  | OnDate date => [kON k; date]
  end.

Definition ending_date (e : Ending) : option jsstring :=
  match e with
  | NoOn => None
  | OnOnly => Some []
  | OnDate date => Some date
  end.

Definition ending_ok (e : Ending) : bool :=
  match e with
  | OnDate date => clean date
  | _ => true
  end.

(** The words of
    [DEBIT <amount> <currency> FROM ACCOUNT <id> FOR CREDIT TO ACCOUNT <id> [ON <date>]]. *)
Definition debit_form (k : Keywords) (amount currency debit credit : jsstring)
  (e : Ending) : list jsstring :=
  [kDEBIT k; amount; currency; kFROM k; kACCOUNT1 k; debit;
   kFOR k; kCREDIT k; kTO k; kACCOUNT2 k; credit] ++ ending_words k e.

(** The words of
    [CREDIT <amount> <currency> TO ACCOUNT <id> FOR DEBIT FROM ACCOUNT <id> [ON <date>]]. *)
Definition credit_form (k : Keywords) (amount currency debit credit : jsstring)
  (e : Ending) : list jsstring :=
  [kCREDIT k; amount; currency; kTO k; kACCOUNT1 k; credit;
   kFOR k; kDEBIT k; kFROM k; kACCOUNT2 k; debit] ++ ending_words k e.

(** Canonical decimal notation of a strictly positive integer: digits
    only, not empty, no leading zero. *)
Definition canonicalb (raw : jsstring) : bool :=
  match raw with
  | [] => false
  | c :: _ => negb (char_eqb c "0"%char) && forallb is_digit raw
  end.

(** The amount rule of the validator chain: no [.] and no [-], parses as
    an integer, strictly positive, and prints back as the raw string. *)
Definition amount_well_formed (raw : jsstring) : bool :=
  nonempty raw && negb (contains raw (lit ".")) && negb (contains raw (lit "-"))
  && (let n := parseInt raw in
      negb (isNaN n) && negb (le_zero n) && str_eqb raw (to_string n)).

(** The conditions under which the positional scan of an instruction of
    the given form binds every keyword to the keyword's own word. *)
Definition keyword_free (form : InstructionType) (a c d e : jsstring) : bool :=
  match form with
  | DEBIT =>
      negb (mentions a (lit "FROM")) && negb (mentions a (lit "FOR"))
      && negb (mentions c (lit "FROM")) && negb (mentions c (lit "FOR"))
      && negb (mentions d (lit "FOR")) && negb (mentions e (lit "ON"))
  | CREDIT =>
      negb (mentions a (lit "TO")) && negb (mentions a (lit "FOR"))
      && negb (mentions c (lit "TO")) && negb (mentions c (lit "FOR"))
      && negb (mentions e (lit "FOR")) && negb (mentions d (lit "ON"))
  end.

Definition form_words (form : InstructionType) (k : Keywords)
  (a c d e : jsstring) (ending : Ending) : list jsstring :=
  match form with
  | DEBIT => debit_form k a c d e ending
  | CREDIT => credit_form k a c d e ending
  end.


(** *** The validator chain as an ordered table of rules *)

Definition is_some {A} (o : option A) : bool :=
  match o with Some _ => true | None => false end.

Section Rules.

Variable host : Host.
Variable parsed : Draft.t.
Variable accounts : list Account.t.

Definition debit_lookup : option Account.t :=
  find_account accounts (Draft.debitAccount parsed).

Definition credit_lookup : option Account.t :=
  find_account accounts (Draft.creditAccount parsed).

(** A resolved account holds the currency of the transfer. *)
Definition currency_matches (acc : option Account.t) : bool :=
  match acc with
  | Some a => str_eqb (toUpperCase (Account.currency a)) (Draft.currency parsed)
  | None => true
  end.

(** The debit account's balance is at least the amount. *)
Definition sufficient_funds : bool :=
  match debit_lookup with
  | Some a => negb (lt_num (Account.balance a) (parseInt (Draft.amount parsed)))
  | None => true
  end.

(** A date that was supplied (neither absent nor empty) is one that
    [validateDate] accepts. *)
Definition date_well_formed : bool :=
  match Draft.executeBy parsed with
  | Some date =>
      if nonempty date
      then match validateDate host date with inl _ => false | inr _ => true end
      else true
  | None => true
  end.

(** The rules in the order of the chain as the code evaluates them, each
    with the code of its failure and whether it holds; the date rule is
    the answer of [validateDate]. *)
Definition rule_chain : list (StatusCode * bool) :=
  [ (AM01, amount_well_formed (Draft.amount parsed));
    (CU02, includes SUPPORTED_CURRENCIES (Draft.currency parsed));
    (AC04, isValidAccountId (Draft.debitAccount parsed));
    (AC04, isValidAccountId (Draft.creditAccount parsed));
    (AC02, negb (str_eqb (Draft.debitAccount parsed) (Draft.creditAccount parsed)));
    (AC03, is_some debit_lookup);
    (AC03, is_some credit_lookup);
    (CU01, currency_matches debit_lookup);
    (CU01, currency_matches credit_lookup);
    (AC01, sufficient_funds);
    (DT01, date_well_formed) ].

End Rules.

(** The code of the first rule of a chain that does not hold. *)
Fixpoint first_failing (chain : list (StatusCode * bool)) : option StatusCode :=
  match chain with
  | [] => None
  | (code, holds) :: rest => if holds then first_failing rest else Some code
  end.

(** The error code of a validation result, [None] for success. *)
Definition outcome_code (r : Failure + unit) : option StatusCode :=
  match r with
  | inl f => Some (statusCode f)
  | inr _ => None
  end.

(** *** Balances *)

Definition total (accounts : list Account.t) : Z :=
  fold_right (fun a s => Account.balance a + s) 0 accounts.

(** The balance of the account that [find] resolves the id to. *)
Definition balance_of (accounts : list Account.t) (id : jsstring) : option Z :=
  option_map Account.balance (find_account accounts id).

(** An integer on which double arithmetic is exact. *)
Definition safe (z : Z) : Prop := Z.abs z <= 2 ^ 53.

Definition acct (i : string) (b : Z) (c : string) : Account.t :=
  Account.mk (lit i) b (lit c).

(** *** The scheduler's branches *)

(** The branch of [shouldExecuteImmediately] that answers "deferred"
    because the date does not validate. *)
Definition invalid_date_branch (host : Host) (executeBy : option jsstring) : bool :=
  truthy executeBy
  && match executeBy with
     | Some dateStr =>
         match validateDate host dateStr with inl _ => true | inr _ => false end
     | None => false
     end.


(** *** Responses *)

Definition reported_amount (res : option (Response.t * list Account.t))
  : option (option Number) :=
  option_map (fun p => Response.amount (fst p)) res.



(** *** Keyword searches *)












(** ** Vocabulary of the further properties *)

(** *** Letter case *)

(** A draft with its texts in upper case. *)
Definition upper_draft (d : Draft.t) : Draft.t :=
  Draft.mk (Draft.type d) (toUpperCase (Draft.amount d)) (toUpperCase (Draft.currency d))
    (toUpperCase (Draft.debitAccount d)) (toUpperCase (Draft.creditAccount d))
    (option_map toUpperCase (Draft.executeBy d)).

(** A parse result with the texts of its draft in upper case. *)
Definition upper_result {E} (r : E + Draft.t) : E + Draft.t :=
  match r with
  | inl f => inl f
  | inr d => inr (upper_draft d)
  end.

(** *** Parts of a text *)

(** [x] is a part of [s] that lies between the offsets [lo] and [hi]. *)
Definition within (x s : jsstring) (lo hi : nat) : Prop :=
  exists pre post,
    s = pre ++ x ++ post /\ (lo <= length pre)%nat /\ (length pre + length x <= hi)%nat.

(** No occurrence of [pat] in [s] lies between the offsets [lo] and [hi]. *)
Definition absent_between (pat s : jsstring) (lo hi : nat) : Prop :=
  forall q, (lo <= q)%nat -> (q + length pat <= hi)%nat ->
            prefixb pat (skipn q s) = false.

(** *** The ways a call ends *)

(** The accounts as a successful transfer of [amountNum] from [debitAcc0]
    to [creditAcc0] leaves them. *)
Definition transferred (parsed : Draft.t) (accounts : list Account.t)
  (amountNum : Z) (debitAcc0 creditAcc0 : Account.t) : list Account.t :=
  set_balance
    (set_balance accounts (Draft.debitAccount parsed)
                 (fround (Account.balance debitAcc0 - amountNum)))
    (Draft.creditAccount parsed)
    (fround (Account.balance creditAcc0 + amountNum)).

(** The entry of an account whose balance went from that of [before] to
    [after]. *)
Definition entry (before : Account.t) (after : Z) : Snapshot.t :=
  Snapshot.mk (Account.id before) after (Account.balance before)
              (toUpperCase (Account.currency before)).

(** The response that echoes a draft. *)
Definition echo (httpStatus : Z) (parsed : Draft.t) (amount : option Number)
  (status : Status) (reason : jsstring) (code : StatusCode)
  (accounts : list Snapshot.t) : Response.t :=
  Response.mk httpStatus (Some (Draft.type parsed)) amount
    (Some (Draft.currency parsed)) (Some (Draft.debitAccount parsed))
    (Some (Draft.creditAccount parsed)) (Draft.executeBy parsed)
    status reason code accounts.

(** The four ways a call of the service ends. *)
Inductive Served (host : Host) (accounts : list Account.t) (instruction : jsstring)
  : Response.t -> list Account.t -> Prop :=
| served_unparsed f :
    parseInstruction instruction = inl f ->
    Served host accounts instruction
      (Response.mk 400 None None None None None None failed
         (statusReason f) (statusCode f) [])
      accounts
| served_invalid parsed f :
    parseInstruction instruction = inr parsed ->
    validateInstruction host parsed accounts = inl f ->
    Served host accounts instruction
      (echo 400 parsed (or_null (parseInt (Draft.amount parsed))) failed
         (statusReason f) (statusCode f) (untouched_accounts parsed accounts))
      accounts
| served_pending parsed :
    parseInstruction instruction = inr parsed ->
    validateInstruction host parsed accounts = inr tt ->
    shouldExecuteImmediately host (Draft.executeBy parsed) = false ->
    Served host accounts instruction
      (echo 200 parsed (Some (parseInt (Draft.amount parsed))) pending
         (STATUS_CODES AP02) AP02 (untouched_accounts parsed accounts))
      accounts
| served_executed parsed amountNum debitAcc0 creditAcc0 :
    parseInstruction instruction = inr parsed ->
    validateInstruction host parsed accounts = inr tt ->
    shouldExecuteImmediately host (Draft.executeBy parsed) = true ->
    parseInt (Draft.amount parsed) = Num amountNum ->
    0 < amountNum ->
    find_account accounts (Draft.debitAccount parsed) = Some debitAcc0 ->
    find_account accounts (Draft.creditAccount parsed) = Some creditAcc0 ->
    amountNum <= Account.balance debitAcc0 ->
    Draft.debitAccount parsed <> Draft.creditAccount parsed ->
    Served host accounts instruction
      (echo 200 parsed (Some (Num amountNum)) successful (STATUS_CODES AP00) AP00
         (executed_accounts parsed
            (mkExecuted
               (entry debitAcc0 (fround (Account.balance debitAcc0 - amountNum)))
               (entry creditAcc0 (fround (Account.balance creditAcc0 + amountNum))))
            (transferred parsed accounts amountNum debitAcc0 creditAcc0)))
      (transferred parsed accounts amountNum debitAcc0 creditAcc0).

(** The codes a failed response can carry. *)
Definition failure_codes : list StatusCode :=
  [SY01; SY03; AM01; CU02; AC04; AC02; AC03; CU01; AC01; DT01].

(** The entry that reports an account of the request: its balance before
    the call, and the balance held under its id after the call. *)
Definition report (accounts' : list Account.t) (acc : Account.t) : Snapshot.t :=
  entry acc (match balance_of accounts' (Account.id acc) with
             | Some b => b
             | None => Account.balance acc
             end).

(** *** Variations of a request *)

(** An account with its currency code in upper case. *)
Definition upper_currency (acc : Account.t) : Account.t :=
  Account.mk (Account.id acc) (Account.balance acc) (toUpperCase (Account.currency acc)).

(** The draft of the transfer back: the same amount, currency and date,
    the two accounts exchanged. *)
Definition reversed (form : InstructionType) (p : Draft.t) : Draft.t :=
  Draft.mk form (Draft.amount p) (Draft.currency p)
           (Draft.creditAccount p) (Draft.debitAccount p) (Draft.executeBy p).

(** A result of the service with a function applied to the accounts it
    leaves. *)
Definition leaving (f : list Account.t -> list Account.t)
  (res : option (Response.t * list Account.t)) : option (Response.t * list Account.t) :=
  option_map (fun p => (fst p, f (snd p))) res.

(** *** Dates and the clock *)

(** The shape [dddd-dd-dd]. *)
Definition date_shaped (s : jsstring) : bool :=
  match s with
  | [y1; y2; y3; y4; h1; m1; m2; h2; d1; d2] =>
      forallb is_digit [y1; y2; y3; y4; m1; m2; d1; d2]
      && char_eqb h1 "-"%char && char_eqb h2 "-"%char
  | _ => false
  end.

(** The host with its clock set to another instant. *)
Definition at_clock (host : Host) (instant : Z) : Host :=
  mkHost (date_value host) instant (utc_midnight host).

(** *** The date rule as specified *)

(** Following the specification (rule 8): exactly ten characters, [-] at
    positions 4 and 7, three all-digit segments, and a real calendar date
    (day 30 in February is none). *)
Definition real_calendar_date (s : jsstring) : bool :=
  date_shaped s
  && (let y := digits_value (substring s 0 4) in
      let m := digits_value (substring s 5 7) in
      let d := digits_value (substring s 8 10) in
      (1 <=? m) && (m <=? 12) && (1 <=? d) && (d <=? days_in_month y m)).

(** Following the specification: a date that was supplied (neither absent
    nor empty) is a real calendar date. *)
Definition date_as_specified (parsed : Draft.t) : bool :=
  match Draft.executeBy parsed with
  | Some date => if nonempty date then real_calendar_date date else true
  | None => true
  end.

(** Following the specification: the rules of [rule_chain], with rule 8
    as the specification words it in place of what [validateDate]
    answers. *)
Definition specified_chain (parsed : Draft.t) (accounts : list Account.t)
  : list (StatusCode * bool) :=
  [ (AM01, amount_well_formed (Draft.amount parsed));
    (CU02, includes SUPPORTED_CURRENCIES (Draft.currency parsed));
    (AC04, isValidAccountId (Draft.debitAccount parsed));
    (AC04, isValidAccountId (Draft.creditAccount parsed));
    (AC02, negb (str_eqb (Draft.debitAccount parsed) (Draft.creditAccount parsed)));
    (AC03, is_some (debit_lookup parsed accounts));
    (AC03, is_some (credit_lookup parsed accounts));
    (CU01, currency_matches parsed (debit_lookup parsed accounts));
    (CU01, currency_matches parsed (credit_lookup parsed accounts));
    (AC01, sufficient_funds parsed accounts);
    (DT01, date_as_specified parsed) ].

(** ** Proof tactics *)

Ltac use_absent :=
  repeat match goal with
  | H : find_first ?p ?x = None |- context [find_first ?q ?x] =>
      change (find_first q x) with (find_first p x); rewrite H
  end.

Ltac word_side U :=
  first [ reflexivity
        | unfold U; simpl; lia
        | unfold U; simpl; use_absent; reflexivity ].

Ltac app_norm :=
  repeat first [rewrite <- app_assoc | rewrite <- app_comm_cons | progress cbn [app]].

Ltac len_solve :=
  repeat first [rewrite length_app | progress cbn [length app]]; lia.

Ltac strong_induction n Hn IH :=
  generalize Hn; pattern n; apply Z_lt_induction; [|exact Hn];
  clear n Hn; intros n IH Hn.

(** ** Facts about the string primitives *)

Module JSFacts.

Lemma char_eqb_refl c : char_eqb c c = true.
Proof. apply Ascii.eqb_refl. Qed.

Lemma char_eqb_eq a b : char_eqb a b = true <-> a = b.
Proof. apply Ascii.eqb_eq. Qed.

Lemma str_eqb_eq a : forall b, str_eqb a b = true <-> a = b.
Proof.
  induction a as [|x a IH]; intros [|y b]; simpl; split; intro H;
    try reflexivity; try discriminate.
  - apply andb_true_iff in H. destruct H as [Hc Hs].
    apply char_eqb_eq in Hc. apply IH in Hs. congruence.
  - inversion H; subst. rewrite char_eqb_refl. simpl. now apply IH.
Qed.

Lemma str_eqb_refl a : str_eqb a a = true.
Proof. now apply str_eqb_eq. Qed.

Lemma str_eqb_neq a b : str_eqb a b = false <-> a <> b.
Proof.
  split; intro H.
  - intro E. apply str_eqb_eq in E. congruence.
  - destruct (str_eqb a b) eqn:E; [|reflexivity].
    apply str_eqb_eq in E. contradiction.
Qed.

Lemma length_toUpperCase s : length (toUpperCase s) = length s.
Proof. apply length_map. Qed.

Lemma toUpperCase_app a b :
  toUpperCase (a ++ b) = toUpperCase a ++ toUpperCase b.
Proof. apply map_app. Qed.

Lemma upper_char_space c : char_eqb (upper_char c) space = char_eqb c space.
Proof.
  destruct c as [[] [] [] [] [] [] [] []]; reflexivity.
Qed.

Lemma upper_char_white c : is_white (upper_char c) = is_white c.
Proof.
  destruct c as [[] [] [] [] [] [] [] []]; reflexivity.
Qed.

Lemma upper_char_idem c : upper_char (upper_char c) = upper_char c.
Proof.
  destruct c as [[] [] [] [] [] [] [] []]; reflexivity.
Qed.

Lemma toUpperCase_idem s : toUpperCase (toUpperCase s) = toUpperCase s.
Proof.
  unfold toUpperCase. rewrite map_map. apply map_ext. apply upper_char_idem.
Qed.

Lemma spaceless_toUpperCase s : spaceless (toUpperCase s) = spaceless s.
Proof.
  unfold spaceless, toUpperCase. induction s as [|c s IH]; simpl; [reflexivity|].
  now rewrite upper_char_space, IH.
Qed.

Lemma toUpperCase_join ws :
  toUpperCase (join_space ws) = join_space (map toUpperCase ws).
Proof.
  induction ws as [|w ws IH]; [reflexivity|].
  destruct ws as [|w' ws]; [reflexivity|].
  change (join_space (w :: w' :: ws)) with (w ++ space :: join_space (w' :: ws)).
  rewrite toUpperCase_app.
  change (toUpperCase (space :: join_space (w' :: ws)))
    with (space :: toUpperCase (join_space (w' :: ws))).
  rewrite IH. reflexivity.
Qed.

(** *** Searching *)

Lemma prefixb_app pat r : prefixb pat (pat ++ r) = true.
Proof.
  induction pat as [|p pat IH]; simpl; [reflexivity|].
  now rewrite char_eqb_refl, IH.
Qed.

Lemma prefixb_app_l pat s x : prefixb pat s = true -> prefixb pat (s ++ x) = true.
Proof.
  revert s. induction pat as [|p pat IH]; intros [|c s]; simpl; intro H;
    try reflexivity; try discriminate.
  apply andb_true_iff in H. destruct H as [H1 H2].
  now rewrite H1, IH.
Qed.

Lemma prefixb_app_space pat : forall t r,
  spaceless pat = true ->
  prefixb pat (t ++ space :: r) = prefixb pat t.
Proof.
  induction pat as [|p pat IH]; intros t r Hs; [destruct t; reflexivity|].
  simpl in Hs. apply andb_true_iff in Hs. destruct Hs as [Hp Hs].
  destruct t as [|c t]; simpl.
  - apply negb_true_iff in Hp. now rewrite Hp.
  - now rewrite IH.
Qed.

Lemma find_first_cons pat c s :
  find_first pat (c :: s) =
  if prefixb pat (c :: s) then Some O else option_map S (find_first pat s).
Proof. reflexivity. Qed.

Lemma find_first_nil pat : nonempty pat = true -> find_first pat [] = None.
Proof. destruct pat; [discriminate|reflexivity]. Qed.

Lemma find_first_app_space pat : forall t r,
  spaceless pat = true -> nonempty pat = true ->
  find_first pat (t ++ space :: r) =
  match find_first pat t with
  | Some o => Some o
  | None => option_map (fun i => (length t + 1 + i)%nat) (find_first pat r)
  end.
Proof.
  intros t r Hs Hn. induction t as [|c t IH].
  - rewrite find_first_nil by assumption. simpl app.
    rewrite find_first_cons.
    replace (prefixb pat (space :: r)) with (prefixb pat ([] ++ space :: r)) by reflexivity.
    rewrite prefixb_app_space by assumption.
    destruct pat; [discriminate|]. simpl.
    destruct (find_first (a :: pat) r); reflexivity.
  - change ((c :: t) ++ space :: r) with (c :: (t ++ space :: r)).
    rewrite !find_first_cons.
    change (c :: (t ++ space :: r)) with ((c :: t) ++ space :: r).
    rewrite prefixb_app_space by assumption.
    destruct (prefixb pat (c :: t)); [reflexivity|].
    rewrite IH. destruct (find_first pat t); [reflexivity|].
    simpl. destruct (find_first pat r); reflexivity.
Qed.

Lemma find_first_join pat toks :
  spaceless pat = true -> nonempty pat = true ->
  find_first pat (join_space toks) = find_tok pat toks.
Proof.
  intros Hs Hn. induction toks as [|t r IH].
  - now apply find_first_nil.
  - destruct r as [|t' r].
    + simpl. destruct (find_first pat t); reflexivity.
    + change (join_space (t :: t' :: r)) with (t ++ space :: join_space (t' :: r)).
      rewrite find_first_app_space by assumption. rewrite IH. reflexivity.
Qed.

Lemma find_first_sound pat : forall s i,
  find_first pat s = Some i ->
  prefixb pat (skipn i s) = true /\ (i <= length s)%nat
  /\ forall q, (q < i)%nat -> prefixb pat (skipn q s) = false.
Proof.
  induction s as [|c s IH]; intros i H.
  - simpl in H. destruct (prefixb pat []) eqn:E; [|discriminate].
    inversion H; subst. simpl. split; [exact E|]. split; [lia|]. intros q Hq. lia.
  - rewrite find_first_cons in H. destruct (prefixb pat (c :: s)) eqn:E.
    + inversion H; subst. split; [exact E|]. split; [simpl; lia|]. intros q Hq. lia.
    + destruct (find_first pat s) as [j|] eqn:F; [|discriminate].
      simpl in H. inversion H; subst.
      destruct (IH j eq_refl) as (A & B & C).
      split; [exact A|]. split; [simpl; lia|].
      intros [|q] Hq; [exact E|]. simpl. apply C. lia.
Qed.

Lemma find_first_none pat : forall s,
  find_first pat s = None ->
  forall q, prefixb pat (skipn q s) = false.
Proof.
  induction s as [|c s IH]; intros H q.
  - simpl in H. destruct (prefixb pat []) eqn:E; [discriminate|].
    destruct q; exact E.
  - rewrite find_first_cons in H. destruct (prefixb pat (c :: s)) eqn:E; [discriminate|].
    destruct (find_first pat s) eqn:F; [discriminate|].
    destruct q as [|q]; [exact E|]. simpl. now apply IH.
Qed.

Lemma clamp_of_nat s k : (k <= length s)%nat -> clamp s (Z.of_nat k) = k.
Proof. unfold clamp, len. intro H. lia. Qed.

Lemma clamp_le s i : (clamp s i <= length s)%nat.
Proof. unfold clamp, len. lia. Qed.

Lemma indexOf_at s pat k :
  (k <= length s)%nat ->
  indexOf s pat (Z.of_nat k) =
  match find_first pat (skipn k s) with
  | Some i => Z.of_nat (k + i)
  | None => -1
  end.
Proof. intro H. unfold indexOf. now rewrite clamp_of_nat. Qed.

Lemma skipn_app_space (t r : jsstring) k :
  skipn (length t + 1 + k) (t ++ space :: r) = skipn k r.
Proof.
  induction t as [|c t IH]; [reflexivity|]. simpl. exact IH.
Qed.

Lemma length_join_cons t t' r :
  length (join_space (t :: t' :: r)) = (length t + 1 + length (join_space (t' :: r)))%nat.
Proof.
  change (join_space (t :: t' :: r)) with (t ++ space :: join_space (t' :: r)).
  rewrite length_app. simpl. lia.
Qed.

Lemma tok_start_le : forall toks i,
  (i < length toks)%nat -> (tok_start toks i <= length (join_space toks))%nat.
Proof.
  induction toks as [|t r IH]; intros i Hi; [simpl in Hi; lia|].
  destruct i as [|i]; [simpl; lia|].
  destruct r as [|t' r]; [simpl in Hi; lia|].
  rewrite length_join_cons.
  change (tok_start (t :: t' :: r) (S i))
    with (length t + 1 + tok_start (t' :: r) i)%nat.
  assert (tok_start (t' :: r) i <= length (join_space (t' :: r)))%nat
    by (apply IH; simpl in *; lia).
  lia.
Qed.

Lemma skipn_join : forall toks i,
  (i < length toks)%nat ->
  skipn (tok_start toks i) (join_space toks) = join_space (skipn i toks).
Proof.
  induction toks as [|t r IH]; intros i Hi; [simpl in Hi; lia|].
  destruct i as [|i]; [reflexivity|].
  destruct r as [|t' r]; [simpl in Hi; lia|].
  change (join_space (t :: t' :: r)) with (t ++ space :: join_space (t' :: r)).
  change (tok_start (t :: t' :: r) (S i))
    with (length t + 1 + tok_start (t' :: r) i)%nat.
  rewrite skipn_app_space.
  rewrite IH by (simpl in *; lia). reflexivity.
Qed.

(** Searching a normalized string from the start of one of its words:
    the result is decided word by word. *)
Lemma indexOf_join toks pat i :
  spaceless pat = true -> nonempty pat = true -> (i < length toks)%nat ->
  indexOf (join_space toks) pat (Z.of_nat (tok_start toks i)) =
  match find_tok pat (skipn i toks) with
  | Some o => Z.of_nat (tok_start toks i + o)
  | None => -1
  end.
Proof.
  intros Hs Hn Hi.
  rewrite indexOf_at by now apply tok_start_le.
  rewrite skipn_join by assumption.
  now rewrite find_first_join.
Qed.

(** [indexOf] returns the first occurrence at or after its start index. *)
Lemma indexOf_first_occurrence s pat from :
  first_occurrence pat s (clamp s from) (indexOf s pat from).
Proof.
  unfold indexOf. set (k := clamp s from).
  assert (Hk : (k <= length s)%nat) by apply clamp_le.
  destruct (find_first pat (skipn k s)) as [i|] eqn:F.
  - right. exists (k + i)%nat.
    destruct (find_first_sound _ _ _ F) as (A & B & C).
    rewrite length_skipn in B.
    split; [reflexivity|]. split; [lia|]. split.
    + split; [|lia]. rewrite skipn_skipn in A.
      now replace (k + i)%nat with (i + k)%nat by lia.
    + intros q Hq [O _].
      specialize (C (q - k)%nat). rewrite skipn_skipn in C.
      replace (q - k + k)%nat with q in C by lia.
      rewrite C in O by lia. discriminate.
  - left. split; [reflexivity|]. intros q Hq [O _].
    pose proof (find_first_none _ _ F (q - k)%nat) as C.
    rewrite skipn_skipn in C.
    replace (q - k + k)%nat with q in C by lia.
    rewrite C in O. discriminate.
Qed.

(** *** Slicing *)

Lemma substring_mid s pre mid post a b :
  s = pre ++ mid ++ post ->
  a = Z.of_nat (length pre) ->
  b = Z.of_nat (length pre + length mid) ->
  substring s a b = mid.
Proof.
  intros -> -> ->. unfold substring.
  rewrite !clamp_of_nat by (rewrite !length_app; lia).
  rewrite Nat.min_l, Nat.max_r by lia.
  replace (length pre + length mid - length pre)%nat with (length mid) by lia.
  rewrite skipn_app, Nat.sub_diag, skipn_all. simpl.
  rewrite firstn_app, Nat.sub_diag, firstn_all. simpl.
  now rewrite app_nil_r.
Qed.

Lemma substring_from_suffix s pre post a :
  s = pre ++ post -> a = Z.of_nat (length pre) -> substring_from s a = post.
Proof.
  intros -> ->. unfold substring_from.
  rewrite clamp_of_nat by (rewrite length_app; lia).
  rewrite skipn_app, Nat.sub_diag, skipn_all. reflexivity.
Qed.

(** *** Trimming *)

Lemma dropWhile_app_all p w r :
  forallb p w = true -> dropWhile p (w ++ r) = dropWhile p r.
Proof.
  induction w as [|c w IH]; simpl; intro H; [reflexivity|].
  apply andb_true_iff in H. destruct H as [H1 H2]. rewrite H1. now apply IH.
Qed.

Lemma dropWhile_none p l :
  forallb (fun c => negb (p c)) l = true -> dropWhile p l = l.
Proof.
  destruct l as [|c l]; simpl; intro H; [reflexivity|].
  apply andb_true_iff in H. destruct H as [H1 _].
  apply negb_true_iff in H1. now rewrite H1.
Qed.

Lemma forallb_rev {A} (p : A -> bool) l : forallb p (rev l) = forallb p l.
Proof.
  induction l as [|c l IH]; simpl; [reflexivity|].
  rewrite forallb_app, IH. simpl. rewrite andb_true_r. apply andb_comm.
Qed.

(** Trimming removes a padding of white space around a text without any. *)
Lemma trim_pad w1 t w2 :
  forallb is_white w1 = true -> forallb is_white w2 = true ->
  forallb (fun c => negb (is_white c)) t = true ->
  trim (w1 ++ t ++ w2) = t.
Proof.
  intros H1 H2 Ht. unfold trim, trimStart, trimEnd.
  rewrite dropWhile_app_all by assumption.
  destruct t as [|c t].
  - simpl. replace w2 with (w2 ++ []) by apply app_nil_r.
    rewrite dropWhile_app_all by assumption. reflexivity.
  - assert (Hc : is_white c = false).
    { simpl in Ht. apply andb_true_iff in Ht. destruct Ht as [Hc _].
      now apply negb_true_iff in Hc. }
    change ((c :: t) ++ w2) with (c :: (t ++ w2)).
    simpl dropWhile. rewrite Hc.
    change (c :: t ++ w2) with ((c :: t) ++ w2).
    rewrite rev_app_distr.
    rewrite dropWhile_app_all by now rewrite forallb_rev.
    rewrite dropWhile_none by now rewrite forallb_rev.
    apply rev_involutive.
Qed.

Lemma clean_nowhite t :
  clean t = true -> forallb (fun c => negb (is_white c)) t = true.
Proof. unfold clean. intro H. apply andb_true_iff in H. tauto. Qed.

Lemma clean_nonempty t : clean t = true -> nonempty t = true.
Proof. unfold clean. intro H. apply andb_true_iff in H. tauto. Qed.

Lemma white_space : is_white space = true.
Proof. reflexivity. Qed.

Lemma clean_spaceless t : clean t = true -> spaceless t = true.
Proof.
  intro H. apply clean_nowhite in H. unfold spaceless.
  rewrite forallb_forall in *. intros c Hc. specialize (H c Hc).
  destruct (char_eqb c space) eqn:E; [|reflexivity].
  apply char_eqb_eq in E. subst c. discriminate.
Qed.

Lemma clean_toUpperCase t : clean (toUpperCase t) = clean t.
Proof.
  unfold clean. f_equal.
  - destruct t; reflexivity.
  - unfold toUpperCase. induction t as [|c t IH]; simpl; [reflexivity|].
    now rewrite upper_char_white, IH.
Qed.

(** *** Splitting *)

Lemma split_space_spaceless t : spaceless t = true -> split_space t = [t].
Proof.
  induction t as [|c t IH]; simpl; intro H; [reflexivity|].
  apply andb_true_iff in H. destruct H as [H1 H2].
  apply negb_true_iff in H1. rewrite H1. now rewrite IH.
Qed.

Lemma split_space_app t r :
  spaceless t = true -> split_space (t ++ space :: r) = t :: split_space r.
Proof.
  induction t as [|c t IH]; simpl; intro H.
  - reflexivity.
  - apply andb_true_iff in H. destruct H as [H1 H2].
    apply negb_true_iff in H1. rewrite H1. now rewrite IH.
Qed.

Lemma tokens_of_pair a c :
  clean a = true -> clean c = true -> tokens_of (a ++ space :: c) = [a; c].
Proof.
  intros Ha Hc. unfold tokens_of.
  rewrite split_space_app by now apply clean_spaceless.
  rewrite split_space_spaceless by now apply clean_spaceless.
  simpl. now rewrite (clean_nonempty _ Ha), (clean_nonempty _ Hc).
Qed.

Lemma head_ok_app a x : nonempty a = true -> head_ok (a ++ x) = head_ok a.
Proof. destruct a; [discriminate|reflexivity]. Qed.

Lemma clean_head_ok t : clean t = true -> head_ok t = true.
Proof.
  intro H. apply clean_nowhite in H. destruct t as [|c t]; [reflexivity|].
  simpl in *. apply andb_true_iff in H. tauto.
Qed.

Lemma clean_rev t : clean t = true -> clean (rev t) = true.
Proof.
  unfold clean. intro H. apply andb_true_iff in H. destruct H as [H1 H2].
  rewrite forallb_rev, H2.
  destruct t as [|c t]; [discriminate|]. simpl.
  destruct (rev t); reflexivity.
Qed.

Lemma clean_tight t : clean t = true -> tight t = true.
Proof.
  intro H. unfold tight.
  rewrite (clean_head_ok _ H), (clean_head_ok _ (clean_rev _ H)). reflexivity.
Qed.

Lemma tight_pair a c :
  clean a = true -> clean c = true -> tight (a ++ space :: c) = true.
Proof.
  intros Ha Hc. unfold tight.
  rewrite head_ok_app by now apply clean_nonempty.
  rewrite (clean_head_ok _ Ha).
  rewrite rev_app_distr. simpl rev. rewrite <- app_assoc.
  rewrite head_ok_app by (apply clean_nonempty; now apply clean_rev).
  now rewrite (clean_head_ok _ (clean_rev _ Hc)).
Qed.

Lemma head_ok_dropWhile t : head_ok t = true -> dropWhile is_white t = t.
Proof.
  destruct t as [|c t]; [reflexivity|]. simpl. intro H.
  apply negb_true_iff in H. now rewrite H.
Qed.

(** Trimming removes a padding of white space around a text that has
    none at its ends. *)
Lemma trim_tight w1 t w2 :
  forallb is_white w1 = true -> forallb is_white w2 = true ->
  tight t = true ->
  trim (w1 ++ t ++ w2) = t.
Proof.
  intros H1 H2 Ht. unfold tight in Ht. apply andb_true_iff in Ht.
  destruct Ht as [Hh Hl]. unfold trim, trimStart, trimEnd.
  rewrite dropWhile_app_all by assumption.
  destruct t as [|c t].
  - simpl. replace w2 with (w2 ++ []) by apply app_nil_r.
    rewrite dropWhile_app_all by assumption. reflexivity.
  - rewrite (head_ok_dropWhile ((c :: t) ++ w2)) by now rewrite head_ok_app.
    rewrite rev_app_distr.
    rewrite dropWhile_app_all by now rewrite forallb_rev.
    rewrite (head_ok_dropWhile (rev (c :: t))) by assumption.
    apply rev_involutive.
Qed.

Lemma mentions_false s kw :
  mentions s kw = false -> find_first kw (toUpperCase s) = None.
Proof. unfold mentions. destruct (find_first kw (toUpperCase s)); [discriminate|reflexivity]. Qed.

End JSFacts.

Import JSFacts.

(** ** The parser on the words of a well-formed instruction *)

Lemma tok_start_add : forall U i j,
  (i <= length U)%nat ->
  tok_start U (i + j) = (tok_start U i + tok_start (skipn i U) j)%nat.
Proof.
  induction U as [|t r IH]; intros i j Hi.
  - simpl in Hi. assert (i = 0%nat) by lia. subst. reflexivity.
  - destruct i as [|i]; [reflexivity|].
    simpl. rewrite IH by (simpl in Hi; lia). lia.
Qed.

Lemma indexOf_word U pat i j k :
  spaceless pat = true -> nonempty pat = true -> (i < length U)%nat ->
  k = (i + j)%nat ->
  find_tok pat (skipn i U) = Some (tok_start (skipn i U) j) ->
  indexOf (join_space U) pat (Z.of_nat (tok_start U i)) = Z.of_nat (tok_start U k).
Proof.
  intros Hs Hn Hi -> F. rewrite indexOf_join by assumption.
  rewrite F. rewrite tok_start_add by lia. reflexivity.
Qed.

Lemma indexOf_word0 U pat j :
  spaceless pat = true -> nonempty pat = true -> (0 < length U)%nat ->
  find_tok pat U = Some (tok_start U j) ->
  indexOf (join_space U) pat 0 = Z.of_nat (tok_start U j).
Proof.
  intros Hs Hn Hi F.
  exact (indexOf_word U pat 0 j j Hs Hn Hi eq_refl F).
Qed.

Lemma indexOf_noword U pat i :
  spaceless pat = true -> nonempty pat = true -> (i < length U)%nat ->
  find_tok pat (skipn i U) = None ->
  indexOf (join_space U) pat (Z.of_nat (tok_start U i)) = -1.
Proof.
  intros Hs Hn Hi F. rewrite indexOf_join by assumption. now rewrite F.
Qed.

Lemma debit_positions_words (A C D E : jsstring) (tail : list jsstring) :
  find_first (lit "FROM") A = None -> find_first (lit "FOR") A = None ->
  find_first (lit "FROM") C = None -> find_first (lit "FOR") C = None ->
  find_first (lit "FOR") D = None -> find_first (lit "ON") E = None ->
  match tail with [] => True | t :: _ => t = lit "ON" end ->
  let U := [lit "DEBIT"; A; C; lit "FROM"; lit "ACCOUNT"; D;
            lit "FOR"; lit "CREDIT"; lit "TO"; lit "ACCOUNT"; E] ++ tail in
  debit_positions (join_space U) =
  mkPositions 0 (Z.of_nat (tok_start U 3)) (Z.of_nat (tok_start U 7))
    (Z.of_nat (tok_start U 8)) (Z.of_nat (tok_start U 4))
    (Z.of_nat (tok_start U 9)) (Z.of_nat (tok_start U 6))
    (match tail with [] => -1 | _ => Z.of_nat (tok_start U 11) end).
Proof.
  intros Ha1 Ha2 Hc1 Hc2 Hd He Ht U. unfold debit_positions.
  rewrite (indexOf_word0 U (lit "DEBIT") 0) by word_side U.
  rewrite (indexOf_word0 U (lit "FROM") 3) by word_side U.
  rewrite (indexOf_word0 U (lit "FOR") 6) by word_side U.
  rewrite (indexOf_word U (lit "ACCOUNT") 3 1 4) by word_side U.
  rewrite (indexOf_word U (lit "CREDIT") 6 1 7) by word_side U.
  rewrite (indexOf_word U (lit "TO") 7 1 8) by word_side U.
  rewrite (indexOf_word U (lit "ACCOUNT") 8 1 9) by word_side U.
  f_equal.
  destruct tail as [|t tail].
  - apply indexOf_noword; word_side U.
  - subst t. apply (indexOf_word U (lit "ON") 9 2 11); word_side U.
Qed.

Lemma credit_positions_words (A C D E : jsstring) (tail : list jsstring) :
  find_first (lit "TO") A = None -> find_first (lit "FOR") A = None ->
  find_first (lit "TO") C = None -> find_first (lit "FOR") C = None ->
  find_first (lit "FOR") E = None -> find_first (lit "ON") D = None ->
  match tail with [] => True | t :: _ => t = lit "ON" end ->
  let U := [lit "CREDIT"; A; C; lit "TO"; lit "ACCOUNT"; E;
            lit "FOR"; lit "DEBIT"; lit "FROM"; lit "ACCOUNT"; D] ++ tail in
  credit_positions (join_space U) =
  mkPositions (Z.of_nat (tok_start U 7)) (Z.of_nat (tok_start U 8)) 0
    (Z.of_nat (tok_start U 3)) (Z.of_nat (tok_start U 4))
    (Z.of_nat (tok_start U 9)) (Z.of_nat (tok_start U 6))
    (match tail with [] => -1 | _ => Z.of_nat (tok_start U 11) end).
Proof.
  intros Ha1 Ha2 Hc1 Hc2 He Hd Ht U. unfold credit_positions.
  rewrite (indexOf_word0 U (lit "CREDIT") 0) by word_side U.
  rewrite (indexOf_word0 U (lit "TO") 3) by word_side U.
  rewrite (indexOf_word0 U (lit "FOR") 6) by word_side U.
  rewrite (indexOf_word U (lit "ACCOUNT") 3 1 4) by word_side U.
  rewrite (indexOf_word U (lit "DEBIT") 6 1 7) by word_side U.
  rewrite (indexOf_word U (lit "FROM") 7 1 8) by word_side U.
  rewrite (indexOf_word U (lit "ACCOUNT") 8 1 9) by word_side U.
  f_equal.
  destruct tail as [|t tail].
  - apply indexOf_noword; word_side U.
  - subst t. apply (indexOf_word U (lit "ON") 9 2 11); word_side U.
Qed.

Lemma tok_start_upper : forall toks i,
  tok_start (map toUpperCase toks) i = tok_start toks i.
Proof.
  induction toks as [|t r IH]; intros [|i]; try reflexivity.
  simpl. now rewrite length_toUpperCase, IH.
Qed.

Lemma parseDebit_grammar k a c d e ending :
  well_spelled k ->
  clean a = true -> clean c = true -> clean d = true -> clean e = true ->
  ending_ok ending = true ->
  mentions a (lit "FROM") = false -> mentions a (lit "FOR") = false ->
  mentions c (lit "FROM") = false -> mentions c (lit "FOR") = false ->
  mentions d (lit "FOR") = false -> mentions e (lit "ON") = false ->
  parseDebitInstruction (join_space (debit_form k a c d e ending)) =
  inr (Draft.mk DEBIT a (toUpperCase c) d e (ending_date ending)).
Proof.
  intros (kD & kF & kC & kT & kA1 & kA2 & kFor & kOn) Ca Cc Cd Ce Cend
         Ha1 Ha2 Hc1 Hc2 Hd He.
  apply mentions_false in Ha1, Ha2, Hc1, Hc2, Hd, He.
  unfold parseDebitInstruction.
  rewrite toUpperCase_join.
  set (toks := debit_form k a c d e ending).
  assert (EU : map toUpperCase toks =
               [lit "DEBIT"; toUpperCase a; toUpperCase c; lit "FROM"; lit "ACCOUNT";
                toUpperCase d; lit "FOR"; lit "CREDIT"; lit "TO"; lit "ACCOUNT";
                toUpperCase e] ++ map toUpperCase (ending_words k ending)).
  { unfold toks, debit_form. rewrite map_app. simpl map.
    now rewrite kD, kF, kC, kT, kA1, kA2, kFor. }
  rewrite EU, debit_positions_words; try assumption;
    [|destruct ending; simpl; auto].
  rewrite <- EU. rewrite !tok_start_upper.
  cbn [debitPos fromPos creditPos toPos accountPos1 accountPos2 forPos onPos].
  assert (LD : length (kDEBIT k) = 5%nat)
    by (rewrite <- (length_toUpperCase (kDEBIT k)), kD; reflexivity).
  assert (LF : length (kFROM k) = 4%nat)
    by (rewrite <- (length_toUpperCase (kFROM k)), kF; reflexivity).
  assert (LC : length (kCREDIT k) = 6%nat)
    by (rewrite <- (length_toUpperCase (kCREDIT k)), kC; reflexivity).
  assert (LT : length (kTO k) = 2%nat)
    by (rewrite <- (length_toUpperCase (kTO k)), kT; reflexivity).
  assert (LA1 : length (kACCOUNT1 k) = 7%nat)
    by (rewrite <- (length_toUpperCase (kACCOUNT1 k)), kA1; reflexivity).
  assert (LA2 : length (kACCOUNT2 k) = 7%nat)
    by (rewrite <- (length_toUpperCase (kACCOUNT2 k)), kA2; reflexivity).
  assert (LFor : length (kFOR k) = 3%nat)
    by (rewrite <- (length_toUpperCase (kFOR k)), kFor; reflexivity).
  assert (LOn : length (kON k) = 2%nat)
    by (rewrite <- (length_toUpperCase (kON k)), kOn; reflexivity).
  assert (S3 : tok_start toks 3 = (length a + length c + 8)%nat)
    by (unfold toks; simpl; lia).
  assert (S4 : tok_start toks 4 = (tok_start toks 3 + 5)%nat)
    by (unfold toks; simpl; lia).
  assert (S6 : tok_start toks 6 = (tok_start toks 4 + 9 + length d)%nat)
    by (unfold toks; simpl; lia).
  assert (S7 : tok_start toks 7 = (tok_start toks 6 + 4)%nat)
    by (unfold toks; simpl; lia).
  assert (S8 : tok_start toks 8 = (tok_start toks 7 + 7)%nat)
    by (unfold toks; simpl; lia).
  assert (S9 : tok_start toks 9 = (tok_start toks 8 + 3)%nat)
    by (unfold toks; simpl; lia).
  assert (S11 : tok_start toks 11 = (tok_start toks 9 + 9 + length e)%nat)
    by (unfold toks; simpl; lia).
  rewrite !(proj2 (Z.eqb_neq _ (-1))) by lia.
  rewrite !(proj2 (Z.ltb_lt _ _)) by lia.
  cbn [andb negb].
  set (N := join_space toks).
  assert (EN : N = kDEBIT k ++ space :: a ++ space :: c ++ space :: kFROM k ++ space ::
                   kACCOUNT1 k ++ space :: d ++ space :: kFOR k ++ space ::
                   kCREDIT k ++ space :: kTO k ++ space :: kACCOUNT2 k ++ space ::
                   join_space (e :: ending_words k ending)) by reflexivity.
  assert (P1 : trim (substring N (0 + 5) (Z.of_nat (tok_start toks 3))) = a ++ space :: c).
  { rewrite (substring_mid N (kDEBIT k) ([space] ++ (a ++ space :: c) ++ [space])
               (kFROM k ++ space :: kACCOUNT1 k ++ space :: d ++ space :: kFOR k ++ space ::
                kCREDIT k ++ space :: kTO k ++ space :: kACCOUNT2 k ++ space ::
                join_space (e :: ending_words k ending))).
    - apply trim_tight; try reflexivity. now apply tight_pair.
    - rewrite EN. app_norm. reflexivity.
    - rewrite LD. reflexivity.
    - rewrite S3, LD. len_solve. }
  rewrite P1, tokens_of_pair by assumption.
  assert (P2 : trim (substring N (Z.of_nat (tok_start toks 4) + 7)
                       (Z.of_nat (tok_start toks 6))) = d).
  { rewrite (substring_mid N
               (kDEBIT k ++ space :: a ++ space :: c ++ space :: kFROM k ++ space ::
                kACCOUNT1 k)
               ([space] ++ d ++ [space])
               (kFOR k ++ space :: kCREDIT k ++ space :: kTO k ++ space ::
                kACCOUNT2 k ++ space :: join_space (e :: ending_words k ending))).
    - apply trim_tight; try reflexivity. now apply clean_tight.
    - rewrite EN. app_norm. reflexivity.
    - rewrite S4, S3. len_solve.
    - rewrite S6, S4, S3. len_solve. }
  rewrite P2.
  unfold second_account, date_part.
  cbn [debitPos fromPos creditPos toPos accountPos1 accountPos2 forPos onPos].
  set (head := kDEBIT k ++ space :: a ++ space :: c ++ space :: kFROM k ++ space ::
               kACCOUNT1 k ++ space :: d ++ space :: kFOR k ++ space ::
               kCREDIT k ++ space :: kTO k ++ space :: kACCOUNT2 k).
  assert (Lhead : Z.of_nat (length head) = Z.of_nat (tok_start toks 9) + 7).
  { unfold head. rewrite S9, S8, S7, S6, S4, S3. len_solve. }
  destruct ending as [| |date]; cbn [ending_words ending_date map] in *;
    cbn [join_space] in EN.
  - replace (-1 >? Z.of_nat (tok_start toks 9)) with false
      by (symmetry; rewrite Z.gtb_ltb; apply Z.ltb_ge; lia).
    rewrite (substring_from_suffix N head ([space] ++ e ++ [])).
    + rewrite trim_tight; try reflexivity. now apply clean_tight.
    + rewrite EN. unfold head. app_norm. rewrite ?app_nil_r. reflexivity.
    + now rewrite Lhead.
  - replace (Z.of_nat (tok_start toks 11) >? Z.of_nat (tok_start toks 9)) with true
      by (symmetry; rewrite Z.gtb_ltb; apply Z.ltb_lt; lia).
    rewrite (substring_mid N head ([space] ++ e ++ [space]) (kON k)).
    + rewrite (substring_from_suffix N N []).
      * rewrite trim_tight; try reflexivity. now apply clean_tight.
      * now rewrite app_nil_r.
      * rewrite EN, S11, S9, S8, S7, S6, S4, S3. len_solve.
    + rewrite EN. unfold head. app_norm. rewrite ?app_nil_r. reflexivity.
    + now rewrite Lhead.
    + rewrite S11. len_solve.
  - replace (Z.of_nat (tok_start toks 11) >? Z.of_nat (tok_start toks 9)) with true
      by (symmetry; rewrite Z.gtb_ltb; apply Z.ltb_lt; lia).
    rewrite (substring_mid N head ([space] ++ e ++ [space]) (kON k ++ space :: date)).
    + rewrite (substring_from_suffix N (head ++ space :: e ++ space :: kON k)
                 ([space] ++ date ++ [])).
      * rewrite !trim_tight; try reflexivity; now apply clean_tight.
      * rewrite EN. unfold head. app_norm. rewrite ?app_nil_r. reflexivity.
      * rewrite S11. len_solve.
    + rewrite EN. unfold head. app_norm. rewrite ?app_nil_r. reflexivity.
    + now rewrite Lhead.
    + rewrite S11. len_solve.
Qed.

Lemma parseCredit_grammar k a c d e ending :
  well_spelled k ->
  clean a = true -> clean c = true -> clean d = true -> clean e = true ->
  ending_ok ending = true ->
  mentions a (lit "TO") = false -> mentions a (lit "FOR") = false ->
  mentions c (lit "TO") = false -> mentions c (lit "FOR") = false ->
  mentions e (lit "FOR") = false -> mentions d (lit "ON") = false ->
  parseCreditInstruction (join_space (credit_form k a c d e ending)) =
  inr (Draft.mk CREDIT a (toUpperCase c) d e (ending_date ending)).
Proof.
  intros (kD & kF & kC & kT & kA1 & kA2 & kFor & kOn) Ca Cc Cd Ce Cend
         Ha1 Ha2 Hc1 Hc2 He Hd.
  apply mentions_false in Ha1, Ha2, Hc1, Hc2, He, Hd.
  unfold parseCreditInstruction.
  rewrite toUpperCase_join.
  set (toks := credit_form k a c d e ending).
  assert (EU : map toUpperCase toks =
               [lit "CREDIT"; toUpperCase a; toUpperCase c; lit "TO"; lit "ACCOUNT";
                toUpperCase e; lit "FOR"; lit "DEBIT"; lit "FROM"; lit "ACCOUNT";
                toUpperCase d] ++ map toUpperCase (ending_words k ending)).
  { unfold toks, credit_form. rewrite map_app. simpl map.
    now rewrite kD, kF, kC, kT, kA1, kA2, kFor. }
  rewrite EU, credit_positions_words; try assumption;
    [|destruct ending; simpl; auto].
  rewrite <- EU. rewrite !tok_start_upper.
  cbn [debitPos fromPos creditPos toPos accountPos1 accountPos2 forPos onPos].
  assert (LD : length (kDEBIT k) = 5%nat)
    by (rewrite <- (length_toUpperCase (kDEBIT k)), kD; reflexivity).
  assert (LF : length (kFROM k) = 4%nat)
    by (rewrite <- (length_toUpperCase (kFROM k)), kF; reflexivity).
  assert (LC : length (kCREDIT k) = 6%nat)
    by (rewrite <- (length_toUpperCase (kCREDIT k)), kC; reflexivity).
  assert (LT : length (kTO k) = 2%nat)
    by (rewrite <- (length_toUpperCase (kTO k)), kT; reflexivity).
  assert (LA1 : length (kACCOUNT1 k) = 7%nat)
    by (rewrite <- (length_toUpperCase (kACCOUNT1 k)), kA1; reflexivity).
  assert (LA2 : length (kACCOUNT2 k) = 7%nat)
    by (rewrite <- (length_toUpperCase (kACCOUNT2 k)), kA2; reflexivity).
  assert (LFor : length (kFOR k) = 3%nat)
    by (rewrite <- (length_toUpperCase (kFOR k)), kFor; reflexivity).
  assert (LOn : length (kON k) = 2%nat)
    by (rewrite <- (length_toUpperCase (kON k)), kOn; reflexivity).
  assert (S3 : tok_start toks 3 = (length a + length c + 9)%nat)
    by (unfold toks; simpl; lia).
  assert (S4 : tok_start toks 4 = (tok_start toks 3 + 3)%nat)
    by (unfold toks; simpl; lia).
  assert (S6 : tok_start toks 6 = (tok_start toks 4 + 9 + length e)%nat)
    by (unfold toks; simpl; lia).
  assert (S7 : tok_start toks 7 = (tok_start toks 6 + 4)%nat)
    by (unfold toks; simpl; lia).
  assert (S8 : tok_start toks 8 = (tok_start toks 7 + 6)%nat)
    by (unfold toks; simpl; lia).
  assert (S9 : tok_start toks 9 = (tok_start toks 8 + 5)%nat)
    by (unfold toks; simpl; lia).
  assert (S11 : tok_start toks 11 = (tok_start toks 9 + 9 + length d)%nat)
    by (unfold toks; simpl; lia).
  rewrite !(proj2 (Z.eqb_neq _ (-1))) by lia.
  rewrite !(proj2 (Z.ltb_lt _ _)) by lia.
  cbn [andb negb].
  set (N := join_space toks).
  assert (EN : N = kCREDIT k ++ space :: a ++ space :: c ++ space :: kTO k ++ space ::
                   kACCOUNT1 k ++ space :: e ++ space :: kFOR k ++ space ::
                   kDEBIT k ++ space :: kFROM k ++ space :: kACCOUNT2 k ++ space ::
                   join_space (d :: ending_words k ending)) by reflexivity.
  assert (P1 : trim (substring N (0 + 6) (Z.of_nat (tok_start toks 3))) = a ++ space :: c).
  { rewrite (substring_mid N (kCREDIT k) ([space] ++ (a ++ space :: c) ++ [space])
               (kTO k ++ space :: kACCOUNT1 k ++ space :: e ++ space :: kFOR k ++ space ::
                kDEBIT k ++ space :: kFROM k ++ space :: kACCOUNT2 k ++ space ::
                join_space (d :: ending_words k ending))).
    - apply trim_tight; try reflexivity. now apply tight_pair.
    - rewrite EN. app_norm. reflexivity.
    - rewrite LC. reflexivity.
    - rewrite S3, LC. len_solve. }
  rewrite P1, tokens_of_pair by assumption.
  assert (P2 : trim (substring N (Z.of_nat (tok_start toks 4) + 7)
                       (Z.of_nat (tok_start toks 6))) = e).
  { rewrite (substring_mid N
               (kCREDIT k ++ space :: a ++ space :: c ++ space :: kTO k ++ space ::
                kACCOUNT1 k)
               ([space] ++ e ++ [space])
               (kFOR k ++ space :: kDEBIT k ++ space :: kFROM k ++ space ::
                kACCOUNT2 k ++ space :: join_space (d :: ending_words k ending))).
    - apply trim_tight; try reflexivity. now apply clean_tight.
    - rewrite EN. app_norm. reflexivity.
    - rewrite S4, S3. len_solve.
    - rewrite S6, S4, S3. len_solve. }
  rewrite P2.
  unfold second_account, date_part.
  cbn [debitPos fromPos creditPos toPos accountPos1 accountPos2 forPos onPos].
  set (head := kCREDIT k ++ space :: a ++ space :: c ++ space :: kTO k ++ space ::
               kACCOUNT1 k ++ space :: e ++ space :: kFOR k ++ space ::
               kDEBIT k ++ space :: kFROM k ++ space :: kACCOUNT2 k).
  assert (Lhead : Z.of_nat (length head) = Z.of_nat (tok_start toks 9) + 7).
  { unfold head. rewrite S9, S8, S7, S6, S4, S3. len_solve. }
  destruct ending as [| |date]; cbn [ending_words ending_date map] in *;
    cbn [join_space] in EN.
  - replace (-1 >? Z.of_nat (tok_start toks 9)) with false
      by (symmetry; rewrite Z.gtb_ltb; apply Z.ltb_ge; lia).
    rewrite (substring_from_suffix N head ([space] ++ d ++ [])).
    + rewrite trim_tight; try reflexivity. now apply clean_tight.
    + rewrite EN. unfold head. app_norm. rewrite ?app_nil_r. reflexivity.
    + now rewrite Lhead.
  - replace (Z.of_nat (tok_start toks 11) >? Z.of_nat (tok_start toks 9)) with true
      by (symmetry; rewrite Z.gtb_ltb; apply Z.ltb_lt; lia).
    rewrite (substring_mid N head ([space] ++ d ++ [space]) (kON k)).
    + rewrite (substring_from_suffix N N []).
      * rewrite trim_tight; try reflexivity. now apply clean_tight.
      * now rewrite app_nil_r.
      * rewrite EN, S11, S9, S8, S7, S6, S4, S3. len_solve.
    + rewrite EN. unfold head. app_norm. rewrite ?app_nil_r. reflexivity.
    + now rewrite Lhead.
    + rewrite S11. len_solve.
  - replace (Z.of_nat (tok_start toks 11) >? Z.of_nat (tok_start toks 9)) with true
      by (symmetry; rewrite Z.gtb_ltb; apply Z.ltb_lt; lia).
    rewrite (substring_mid N head ([space] ++ d ++ [space]) (kON k ++ space :: date)).
    + rewrite (substring_from_suffix N (head ++ space :: d ++ space :: kON k)
                 ([space] ++ date ++ [])).
      * rewrite !trim_tight; try reflexivity; now apply clean_tight.
      * rewrite EN. unfold head. app_norm. rewrite ?app_nil_r. reflexivity.
      * rewrite S11. len_solve.
    + rewrite EN. unfold head. app_norm. rewrite ?app_nil_r. reflexivity.
    + now rewrite Lhead.
    + rewrite S11. len_solve.
Qed.

Lemma indexOf_zero_prefix s pat :
  prefixb pat s = true -> indexOf s pat 0 = 0.
Proof.
  intro H. unfold indexOf.
  replace (clamp s 0) with 0%nat by (unfold clamp, len; lia).
  simpl skipn. destruct s; simpl in *; now rewrite H.
Qed.

Lemma indexOf_zero_noprefix s pat :
  prefixb pat s = false -> (indexOf s pat 0 =? 0) = false.
Proof.
  intro H. unfold indexOf.
  replace (clamp s 0) with 0%nat by (unfold clamp, len; lia).
  simpl skipn. apply Z.eqb_neq. destruct s as [|c s].
  - simpl. rewrite H. discriminate.
  - rewrite find_first_cons, H.
    destruct (find_first pat s); simpl; lia.
Qed.

Lemma words_nonempty instruction toks :
  words instruction = toks -> toks <> [] -> nonempty instruction = true.
Proof.
  intros H Hn. destruct instruction; [|reflexivity].
  exfalso. apply Hn. rewrite <- H. reflexivity.
Qed.

Lemma parseInstruction_grammar form k a c d e ending instruction :
  well_spelled k ->
  clean a = true -> clean c = true -> clean d = true -> clean e = true ->
  ending_ok ending = true ->
  keyword_free form a c d e = true ->
  words instruction = form_words form k a c d e ending ->
  parseInstruction instruction =
  inr (Draft.mk form a (toUpperCase c) d e (ending_date ending)).
Proof.
  intros Hk Ca Cc Cd Ce Cend Hfree Hw.
  unfold parseInstruction.
  rewrite (words_nonempty _ _ Hw) by (destruct form; discriminate).
  cbn [negb]. unfold normalize. rewrite Hw.
  pose proof Hk as (kD & kF & kC & kT & kA1 & kA2 & kFor & kOn).
  destruct form; cbn [keyword_free form_words] in *;
    repeat (apply andb_true_iff in Hfree; destruct Hfree as [Hfree ?]);
    repeat match goal with H : negb _ = true |- _ => apply negb_true_iff in H end.
  - rewrite indexOf_zero_prefix.
    + rewrite Z.eqb_refl, parseDebit_grammar by assumption. reflexivity.
    + rewrite toUpperCase_join. unfold debit_form. rewrite map_app.
      cbn [map app]. rewrite kD. reflexivity.
  - rewrite indexOf_zero_noprefix.
    + rewrite indexOf_zero_prefix.
      * rewrite Z.eqb_refl, parseCredit_grammar by assumption. reflexivity.
      * rewrite toUpperCase_join. unfold credit_form. rewrite map_app.
        cbn [map app]. rewrite kC. reflexivity.
    + rewrite toUpperCase_join. unfold credit_form. rewrite map_app.
      cbn [map app]. rewrite kC. reflexivity.
Qed.

(** ** Facts about numbers and their decimal notation *)

Module NumFacts.

Lemma decimal_loop_acc : forall f n acc,
  decimal_loop f n acc = decimal_loop f n [] ++ acc.
Proof.
  induction f as [|f IH]; intros n acc; [reflexivity|].
  simpl. destruct (n <? 10); [reflexivity|].
  rewrite IH, (IH _ [digit_char (n mod 10)]), <- app_assoc. reflexivity.
Qed.

Lemma decimal_loop_fuel : forall f n,
  (1 <= f)%nat -> 0 <= n < 2 ^ Z.of_nat f ->
  decimal_loop (S f) n [] = decimal_loop f n [].
Proof.
  induction f as [|f IH]; intros n Hf Hn; [lia|].
  change (decimal_loop (S (S f)) n [])
    with (if n <? 10 then [digit_char (n mod 10)]
          else decimal_loop (S f) (n / 10) [digit_char (n mod 10)]).
  change (decimal_loop (S f) n [])
    with (if n <? 10 then [digit_char (n mod 10)]
          else decimal_loop f (n / 10) [digit_char (n mod 10)]).
  destruct (Z.ltb_spec n 10) as [Hlt|Hge]; [reflexivity|].
  rewrite decimal_loop_acc, (decimal_loop_acc f).
  f_equal.
  assert (Hpow : 2 ^ Z.of_nat (S f) = 2 * 2 ^ Z.of_nat f).
  { rewrite Nat2Z.inj_succ, Z.pow_succ_r by lia. reflexivity. }
  assert (Hf1 : (1 <= f)%nat).
  { destruct f as [|f']; [|lia]. simpl in Hn. lia. }
  apply IH; [exact Hf1|].
  split; [apply Z.div_pos; lia|].
  apply Z.div_lt_upper_bound; lia.
Qed.

Lemma decimal_fuel : forall k f n,
  (1 <= f)%nat -> 0 <= n < 2 ^ Z.of_nat f ->
  decimal_loop (k + f) n [] = decimal_loop f n [].
Proof.
  induction k as [|k IH]; intros f n Hf Hn; [reflexivity|].
  change (S k + f)%nat with (S (k + f)).
  rewrite decimal_loop_fuel; [now apply IH | lia |].
  split; [lia|]. destruct Hn as [_ Hn].
  eapply Z.lt_le_trans; [exact Hn|].
  apply Z.pow_le_mono_r; lia.
Qed.

Lemma log2_fuel n :
  0 <= n -> 0 <= n < 2 ^ Z.of_nat (S (Z.to_nat (Z.log2 n))).
Proof.
  intro Hn. split; [exact Hn|].
  rewrite Nat2Z.inj_succ, Z2Nat.id by apply Z.log2_nonneg.
  destruct (Z.eq_dec n 0) as [->|Hz]; [reflexivity|].
  apply Z.log2_spec. lia.
Qed.

Lemma decimal_enough f n :
  (1 <= f)%nat -> 0 <= n < 2 ^ Z.of_nat f -> decimal_loop f n [] = decimal n.
Proof.
  intros Hf Hn. unfold decimal.
  set (f0 := S (Z.to_nat (Z.log2 n))).
  assert (H0 : 0 <= n < 2 ^ Z.of_nat f0) by (apply log2_fuel; lia).
  destruct (Nat.le_ge_cases f0 f) as [Hle|Hge].
  - replace f with ((f - f0) + f0)%nat by lia.
    apply decimal_fuel; [unfold f0; lia | exact H0].
  - replace f0 with ((f0 - f) + f)%nat at 1 by lia.
    symmetry. apply decimal_fuel; assumption.
Qed.

Lemma decimal_small n : 0 <= n < 10 -> decimal n = [digit_char n].
Proof.
  intro Hn. unfold decimal. simpl decimal_loop.
  destruct (Z.ltb_spec n 10); [|lia].
  now rewrite Z.mod_small.
Qed.

Lemma decimal_step n :
  10 <= n -> decimal n = decimal (n / 10) ++ [digit_char (n mod 10)].
Proof.
  intro Hn. unfold decimal at 1.
  set (f0 := Z.to_nat (Z.log2 n)).
  change (decimal_loop (S f0) n [])
    with (if n <? 10 then [digit_char (n mod 10)]
          else decimal_loop f0 (n / 10) [digit_char (n mod 10)]).
  destruct (Z.ltb_spec n 10); [lia|].
  rewrite decimal_loop_acc. f_equal.
  assert (Hlog : 3 <= Z.log2 n).
  { apply Z.log2_le_pow2; [lia|]. simpl. lia. }
  apply decimal_enough.
  - unfold f0. lia.
  - split; [apply Z.div_pos; lia|].
    unfold f0. rewrite Z2Nat.id by lia.
    apply Z.div_lt_upper_bound; [lia|].
    pose proof (Z.log2_spec n ltac:(lia)) as [_ Hup].
    rewrite Z.pow_succ_r in Hup by lia. lia.
Qed.

Lemma digit_val_char d : 0 <= d <= 9 -> digit_val (digit_char d) = d.
Proof.
  intro H.
  assert (E : d = 0 \/ d = 1 \/ d = 2 \/ d = 3 \/ d = 4 \/ d = 5 \/ d = 6
              \/ d = 7 \/ d = 8 \/ d = 9) by lia.
  repeat (destruct E as [->|E]; [reflexivity|]). subst. reflexivity.
Qed.

Lemma is_digit_char d : 0 <= d <= 9 -> is_digit (digit_char d) = true.
Proof.
  intro H.
  assert (E : d = 0 \/ d = 1 \/ d = 2 \/ d = 3 \/ d = 4 \/ d = 5 \/ d = 6
              \/ d = 7 \/ d = 8 \/ d = 9) by lia.
  repeat (destruct E as [->|E]; [reflexivity|]). subst. reflexivity.
Qed.

Lemma digit_char_zero d :
  0 <= d <= 9 -> char_eqb (digit_char d) "0"%char = (d =? 0).
Proof.
  intro H.
  assert (E : d = 0 \/ d = 1 \/ d = 2 \/ d = 3 \/ d = 4 \/ d = 5 \/ d = 6
              \/ d = 7 \/ d = 8 \/ d = 9) by lia.
  repeat (destruct E as [->|E]; [reflexivity|]). subst. reflexivity.
Qed.

Lemma digit_char_val c : is_digit c = true -> digit_char (digit_val c) = c.
Proof.
  destruct c as [[] [] [] [] [] [] [] []]; intro H;
    first [discriminate H | reflexivity].
Qed.

Lemma digit_val_range c : is_digit c = true -> 0 <= digit_val c <= 9.
Proof.
  destruct c as [[] [] [] [] [] [] [] []]; intro H;
    first [discriminate H | vm_compute; split; discriminate].
Qed.

Lemma digit_val_zero c :
  is_digit c = true -> (digit_val c =? 0) = char_eqb c "0"%char.
Proof.
  destruct c as [[] [] [] [] [] [] [] []]; intro H;
    first [discriminate H | reflexivity].
Qed.

Lemma digit_not_white c : is_digit c = true -> is_white c = false.
Proof.
  destruct c as [[] [] [] [] [] [] [] []]; intro H;
    first [discriminate H | reflexivity].
Qed.

Lemma digit_not_sign c :
  is_digit c = true -> char_eqb c "-"%char || char_eqb c "+"%char = false.
Proof.
  destruct c as [[] [] [] [] [] [] [] []]; intro H;
    first [discriminate H | reflexivity].
Qed.

Lemma digits_value_snoc xs c :
  digits_value (xs ++ [c]) = 10 * digits_value xs + digit_val c.
Proof. unfold digits_value. now rewrite fold_left_app. Qed.

Lemma digits_value_nonneg ds :
  forallb is_digit ds = true -> 0 <= digits_value ds.
Proof.
  induction ds as [|c xs IH] using rev_ind; intro H; [unfold digits_value; simpl; lia|].
  rewrite forallb_app in H. apply andb_true_iff in H. destruct H as [H1 H2].
  simpl in H2. rewrite andb_true_r in H2.
  rewrite digits_value_snoc. pose proof (digit_val_range _ H2). specialize (IH H1). lia.
Qed.

Lemma digits_value_decimal : forall n, 0 <= n -> digits_value (decimal n) = n.
Proof.
  intros n Hn. strong_induction n Hn IH.
  destruct (Z.lt_ge_cases n 10) as [Hs|Hl].
  - rewrite decimal_small by lia. unfold digits_value. simpl.
    apply digit_val_char. lia.
  - assert (Hq : 0 <= n / 10 < n)
      by (split; [apply Z.div_pos; lia | apply Z.div_lt; lia]).
    rewrite decimal_step by lia. rewrite digits_value_snoc.
    rewrite IH by lia.
    rewrite digit_val_char by (pose proof (Z.mod_pos_bound n 10); lia).
    pose proof (Z.div_mod n 10). lia.
Qed.

Lemma decimal_digits : forall n, 0 <= n -> forallb is_digit (decimal n) = true.
Proof.
  intros n Hn. strong_induction n Hn IH.
  destruct (Z.lt_ge_cases n 10) as [Hs|Hl].
  - rewrite decimal_small by lia. simpl. rewrite is_digit_char by lia. reflexivity.
  - assert (Hq : 0 <= n / 10 < n)
      by (split; [apply Z.div_pos; lia | apply Z.div_lt; lia]).
    rewrite decimal_step by lia. rewrite forallb_app, IH by lia.
    simpl. rewrite is_digit_char by (pose proof (Z.mod_pos_bound n 10); lia).
    reflexivity.
Qed.

Lemma decimal_head : forall n, 0 < n ->
  exists c r, decimal n = c :: r /\ char_eqb c "0"%char = false.
Proof.
  intros n Hn. assert (H0 : 0 <= n) by lia. revert Hn.
  strong_induction n H0 IH. intro Hn.
  destruct (Z.lt_ge_cases n 10) as [Hs|Hl].
  - rewrite decimal_small by lia. exists (digit_char n), [].
    split; [reflexivity|]. rewrite digit_char_zero by lia. apply Z.eqb_neq. lia.
  - assert (Hq : 0 < n / 10 < n)
      by (split; [apply Z.div_str_pos; lia | apply Z.div_lt; lia]).
    destruct (IH (n / 10)) as (c & r & E & Hc); try lia.
    rewrite decimal_step by lia. rewrite E.
    exists c, (r ++ [digit_char (n mod 10)]). split; [reflexivity|exact Hc].
Qed.

Lemma canonical_decimal n : 0 < n -> canonicalb (decimal n) = true.
Proof.
  intro Hn. destruct (decimal_head n Hn) as (c & r & E & Hc).
  pose proof (decimal_digits n ltac:(lia)) as Hd. rewrite E in *.
  unfold canonicalb. now rewrite Hc, Hd.
Qed.

Lemma canonical_digits ds : canonicalb ds = true -> forallb is_digit ds = true.
Proof.
  destruct ds as [|c r]; [discriminate|]. unfold canonicalb. intro H.
  apply andb_true_iff in H. tauto.
Qed.

Lemma canonical_snoc x xs c :
  canonicalb ((x :: xs) ++ [c]) = canonicalb (x :: xs) && is_digit c.
Proof.
  unfold canonicalb. cbn [app]. 
  change (x :: xs ++ [c]) with ((x :: xs) ++ [c]).
  rewrite forallb_app. simpl. rewrite andb_true_r. now rewrite andb_assoc.
Qed.

Lemma decimal_digits_value ds :
  canonicalb ds = true -> decimal (digits_value ds) = ds /\ 0 < digits_value ds.
Proof.
  induction ds as [|c xs IH] using rev_ind; intro H; [discriminate|].
  destruct xs as [|x xs].
  - unfold canonicalb in H. simpl in H. rewrite andb_true_r in H.
    apply andb_true_iff in H. destruct H as [Hz Hd].
    apply negb_true_iff in Hz.
    pose proof (digit_val_range _ Hd) as Hr.
    pose proof (digit_val_zero _ Hd) as Hv. rewrite Hz in Hv.
    apply Z.eqb_neq in Hv.
    unfold digits_value. simpl.
    rewrite decimal_small by lia. rewrite digit_char_val by assumption.
    split; [reflexivity|lia].
  - rewrite canonical_snoc in H. apply andb_true_iff in H. destruct H as [Hx Hc].
    destruct (IH Hx) as [E Hpos].
    pose proof (digit_val_range _ Hc) as Hr.
    rewrite digits_value_snoc.
    split; [|lia].
    rewrite decimal_step by lia.
    replace ((10 * digits_value (x :: xs) + digit_val c) / 10)
      with (digits_value (x :: xs)).
    2:{ symmetry. rewrite Z.mul_comm, Z.div_add_l by lia.
        rewrite Z.div_small by lia. lia. }
    replace ((10 * digits_value (x :: xs) + digit_val c) mod 10)
      with (digit_val c).
    2:{ symmetry. rewrite Z.add_comm, Z.mul_comm, Z.mod_add by lia.
        apply Z.mod_small. lia. }
    now rewrite E, digit_char_val.
Qed.

Lemma length_decimal : forall k n,
  (1 <= k)%nat -> 0 <= n < 10 ^ Z.of_nat k -> (length (decimal n) <= k)%nat.
Proof.
  induction k as [|k IH]; intros n Hk Hn; [lia|].
  destruct (Z.lt_ge_cases n 10) as [Hs|Hl].
  - rewrite decimal_small by lia. simpl. lia.
  - rewrite decimal_step by lia. rewrite length_app. simpl.
    rewrite Nat2Z.inj_succ, Z.pow_succ_r in Hn by lia.
    assert (Hk1 : (1 <= k)%nat).
    { destruct k; [simpl in Hn; lia | lia]. }
    assert (length (decimal (n / 10)) <= k)%nat.
    { apply IH; [exact Hk1|]. split; [apply Z.div_pos; lia|].
      apply Z.div_lt_upper_bound; lia. }
    lia.
Qed.

(** *** Rounding and the shortest decimal form *)

Lemma fround_small v : Z.abs v < 2 ^ 53 -> fround v = v.
Proof.
  intro H. unfold fround. destruct (Z.ltb_spec (Z.abs v) (2 ^ 53)); [reflexivity|lia].
Qed.

Lemma fround_large a : 2 ^ 53 <= a -> 2 ^ 53 <= fround a.
Proof.
  intro H. unfold fround.
  assert (Ha : Z.abs a = a) by lia. rewrite Ha.
  destruct (Z.ltb_spec a (2 ^ 53)) as [Hlt|_]; [lia|].
  assert (Hlog : 53 <= Z.log2 a) by (apply Z.log2_le_pow2; lia).
  set (e := Z.log2 a - 52).
  assert (He : 1 <= e) by (unfold e; lia).
  assert (Hq : 2 ^ 52 <= a / 2 ^ e).
  { apply Z.div_le_lower_bound; [apply Z.pow_pos_nonneg; lia|].
    rewrite <- Z.pow_add_r by lia.
    replace (e + 52) with (Z.log2 a) by (unfold e; lia).
    apply Z.log2_spec. lia. }
  assert (Hs : Z.sgn a = 1) by (apply Z.sgn_pos; lia). rewrite Hs.
  assert (Hp : 2 <= 2 ^ e).
  { change 2 with (2 ^ 1) at 1. apply Z.pow_le_mono_r; lia. }
  set (q := a / 2 ^ e) in *.
  assert (Hq' : forall q', q <= q' -> 2 ^ 53 <= 1 * (q' * 2 ^ e)).
  { intros q' Hle. change (2 ^ 53) with (2 ^ 52 * 2). nia. }
  destruct (a - q * 2 ^ e <? 2 ^ (e - 1)); [apply Hq'; lia|].
  destruct (2 ^ (e - 1) <? a - q * 2 ^ e); [apply Hq'; lia|].
  destruct (Z.even q); apply Hq'; lia.
Qed.

Lemma candidate_small z j :
  0 < z < 2 ^ 53 -> candidate z j = Some z \/ candidate z j = None.
Proof.
  intro Hz. unfold candidate.
  set (p := 10 ^ Z.of_nat j).
  assert (Hp : 0 < p) by (apply Z.pow_pos_nonneg; lia).
  set (lo := z / p * p).
  assert (Hlo : 0 <= lo <= z).
  { unfold lo. split.
    - apply Z.mul_nonneg_nonneg; [apply Z.div_pos|]; lia.
    - rewrite Z.mul_comm. apply Z.mul_div_le. lia. }
  assert (Hhi : z < lo + p).
  { unfold lo. pose proof (Z.div_mod z p ltac:(lia)).
    pose proof (Z.mod_pos_bound z p Hp). lia. }
  rewrite (fround_small lo) by lia.
  assert (Hf : (fround (lo + p) =? z) = false).
  { apply Z.eqb_neq. destruct (Z.lt_ge_cases (lo + p) (2 ^ 53)) as [Hs|Hl].
    - rewrite fround_small by lia. lia.
    - pose proof (fround_large _ Hl). lia. }
  rewrite Hf. destruct (Z.eqb_spec lo z) as [->|]; [now left|now right].
Qed.

Lemma shortest_from_small z : 0 < z < 2 ^ 53 -> forall j, shortest_from z j = z.
Proof.
  intros Hz j. induction j as [|j IH]; simpl.
  - destruct (candidate_small z 0 Hz) as [E|E]; rewrite E; reflexivity.
  - destruct (candidate_small z (S j) Hz) as [E|E]; rewrite E; auto.
Qed.

Lemma shortest_small z : 0 < z < 2 ^ 53 -> shortest z = z.
Proof. intro Hz. apply shortest_from_small. exact Hz. Qed.

Lemma candidate_pos z j c : 0 < z -> candidate z j = Some c -> 0 < c.
Proof.
  intros Hz. unfold candidate.
  set (p := 10 ^ Z.of_nat j).
  assert (Hp : 0 < p) by (apply Z.pow_pos_nonneg; lia).
  set (lo := z / p * p).
  assert (Hlo : 0 <= lo).
  { unfold lo. apply Z.mul_nonneg_nonneg; [apply Z.div_pos|]; lia. }
  assert (Hlo' : (fround lo =? z) = true -> 0 < lo).
  { intro E. apply Z.eqb_eq in E. destruct (Z.eq_dec lo 0) as [E0|]; [|lia].
    rewrite E0 in E. rewrite fround_small in E by (simpl; lia). lia. }
  destruct (fround lo =? z) eqn:E1; destruct (fround (lo + p) =? z) eqn:E2;
    try discriminate;
    repeat match goal with |- context [if ?b then _ else _] => destruct b end;
    intro H; inversion H; subst; try (apply Hlo'; reflexivity); lia.
Qed.

Lemma shortest_pos z : 0 < z -> 0 < shortest z.
Proof.
  intro Hz. unfold shortest. generalize (length (decimal z) - 1)%nat.
  induction n as [|n IH]; simpl.
  - destruct (candidate z 0) eqn:E; [now apply (candidate_pos z 0)|exact Hz].
  - destruct (candidate z (S n)) eqn:E; [now apply (candidate_pos z (S n))|exact IH].
Qed.

Lemma two53_digits : 2 ^ 53 < 10 ^ Z.of_nat 21.
Proof. reflexivity. Qed.

Lemma positive_to_string_small z :
  0 < z < 2 ^ 53 -> positive_to_string z = decimal z.
Proof.
  intro Hz. unfold positive_to_string. rewrite shortest_small by assumption.
  assert (H : (length (decimal z) <= 21)%nat).
  { apply length_decimal; [lia|]. pose proof two53_digits. lia. }
  apply Nat.leb_le in H. now rewrite H.
Qed.

(** *** [parseInt] and the amount rule *)

Lemma takeWhile_all p s : forallb p s = true -> takeWhile p s = s.
Proof.
  induction s as [|c s IH]; simpl; intro H; [reflexivity|].
  apply andb_true_iff in H. destruct H as [H1 H2]. rewrite H1. now rewrite IH.
Qed.

Lemma to_double_small v : Z.abs v < 2 ^ 53 -> to_double v = Num v.
Proof.
  intro H. unfold to_double. rewrite fround_small by assumption.
  destruct (Z.leb_spec (2 ^ 1024) (Z.abs v)) as [Hle|]; [|reflexivity].
  assert (2 ^ 53 < 2 ^ 1024) by (apply Z.pow_lt_mono_r; lia). lia.
Qed.

Lemma parseInt_digits c ds :
  forallb is_digit (c :: ds) = true ->
  parseInt (c :: ds) = to_double (digits_value (c :: ds)).
Proof.
  intro H. unfold parseInt.
  assert (Hc : is_digit c = true) by (simpl in H; apply andb_true_iff in H; tauto).
  unfold trimStart. cbn [dropWhile]. rewrite (digit_not_white _ Hc).
  rewrite (digit_not_sign _ Hc).
  assert (Hm : char_eqb c "-"%char = false).
  { pose proof (digit_not_sign _ Hc) as Hs. apply orb_false_iff in Hs. tauto. }
  rewrite Hm. rewrite takeWhile_all by assumption. reflexivity.
Qed.

Lemma contains_find s pat :
  contains s pat = match find_first pat s with Some _ => true | None => false end.
Proof.
  unfold contains. change 0 with (Z.of_nat 0).
  rewrite indexOf_at by lia. simpl skipn.
  destruct (find_first pat s); [|reflexivity].
  apply negb_true_iff, Z.eqb_neq. lia.
Qed.

Lemma contains_char_absent c s :
  forallb (fun x => negb (char_eqb c x)) s = true -> contains s [c] = false.
Proof.
  intro H. rewrite contains_find.
  induction s as [|x s IH]; [reflexivity|].
  simpl in H. apply andb_true_iff in H. destruct H as [H1 H2].
  apply negb_true_iff in H1.
  rewrite find_first_cons. simpl prefixb. rewrite H1. simpl.
  specialize (IH H2). destruct (find_first [c] s); [discriminate|reflexivity].
Qed.

Lemma contains_char_present c s : In c s -> contains s [c] = true.
Proof.
  intro H. rewrite contains_find.
  induction s as [|x s IH]; [contradiction|].
  rewrite find_first_cons. simpl prefixb.
  destruct (char_eqb c x) eqn:E; [reflexivity|]. simpl.
  destruct H as [->|H]; [now rewrite char_eqb_refl in E|].
  specialize (IH H). destruct (find_first [c] s); [reflexivity|discriminate].
Qed.

Lemma digit_not_dot x : is_digit x = true -> negb (char_eqb "."%char x) = true.
Proof.
  destruct x as [[] [] [] [] [] [] [] []]; intro H;
    first [discriminate H | reflexivity].
Qed.

Lemma digit_not_minus x : is_digit x = true -> negb (char_eqb "-"%char x) = true.
Proof.
  destruct x as [[] [] [] [] [] [] [] []]; intro H;
    first [discriminate H | reflexivity].
Qed.

Lemma digits_without c s :
  (forall x, is_digit x = true -> negb (char_eqb c x) = true) ->
  forallb is_digit s = true -> contains s [c] = false.
Proof.
  intros Hc H. apply contains_char_absent.
  rewrite forallb_forall in *. intros x Hx. apply Hc. now apply H.
Qed.

(** Canonical decimal notation of a safe positive integer passes the
    amount rule. *)
Lemma amount_canonical_passes raw :
  canonicalb raw = true -> digits_value raw <= MAX_SAFE_INTEGER ->
  amount_well_formed raw = true.
Proof.
  intros Hc Hv. pose proof (canonical_digits _ Hc) as Hd.
  destruct (decimal_digits_value _ Hc) as [E Hpos].
  unfold amount_well_formed.
  destruct raw as [|c r]; [discriminate|]. cbn [nonempty andb].
  change (lit ".") with ["."%char]. change (lit "-") with ["-"%char].
  rewrite (digits_without "."%char) by (auto using digit_not_dot).
  rewrite (digits_without "-"%char) by (auto using digit_not_minus).
  cbn [negb andb]. cbv zeta.
  rewrite parseInt_digits by assumption.
  assert (Hs : 0 < digits_value (c :: r) < 2 ^ 53)
    by (unfold MAX_SAFE_INTEGER in Hv; lia).
  rewrite to_double_small by lia.
  cbn [isNaN le_zero negb andb to_string].
  destruct (Z.leb_spec (digits_value (c :: r)) 0); [lia|]. cbn [negb andb].
  destruct (Z.eqb_spec (digits_value (c :: r)) 0); [lia|].
  destruct (Z.ltb_spec (digits_value (c :: r)) 0); [lia|].
  rewrite positive_to_string_small by assumption.
  rewrite E. apply str_eqb_refl.
Qed.

Lemma strip_trailing_zeros_In ds x :
  In x (strip_trailing_zeros ds) -> In x ds.
Proof.
  unfold strip_trailing_zeros. intro H. apply in_rev in H.
  apply in_rev. revert H. generalize (rev ds). intro l.
  induction l as [|c l IH]; simpl; [tauto|].
  destruct (char_eqb c "0"%char); simpl; intro H; auto.
Qed.

(** Whatever passes the amount rule is canonical decimal notation. *)
Lemma amount_passes_canonical raw :
  amount_well_formed raw = true -> canonicalb raw = true.
Proof.
  unfold amount_well_formed. intro H.
  apply andb_true_iff in H. destruct H as [H Hn]. cbv zeta in Hn.
  apply andb_true_iff in Hn. destruct Hn as [Hn Hraw].
  apply andb_true_iff in Hn. destruct Hn as [Hnan Hle].
  apply andb_true_iff in H. destruct H as [H Hminus].
  apply andb_true_iff in H. destruct H as [Hne Hdotfree].
  apply negb_true_iff in Hnan, Hle, Hminus, Hdotfree.
  apply str_eqb_eq in Hraw.
  destruct (parseInt raw) as [|z|negative] eqn:EP; try discriminate.
  - (* a finite number *)
    cbn [le_zero] in *. apply Z.leb_gt in Hle. rename Hle into Hpos.
    cbn [to_string] in Hraw.
    destruct (Z.eqb_spec z 0); [lia|]. destruct (Z.ltb_spec z 0); [lia|].
    unfold positive_to_string in Hraw.
    pose proof (shortest_pos z Hpos) as Hsp.
    destruct (length (decimal (shortest z)) <=? 21)%nat eqn:Hlen.
    + rewrite Hraw. now apply canonical_decimal.
    + exfalso.
      pose proof (decimal_digits (shortest z) ltac:(lia)) as Hdig.
      destruct (strip_trailing_zeros (decimal (shortest z))) as [|d rest] eqn:Es.
      * subst raw. discriminate.
      * assert (Hd : is_digit d = true).
        { rewrite forallb_forall in Hdig. apply Hdig.
          apply strip_trailing_zeros_In. rewrite Es. now left. }
        destruct rest as [|r0 rest].
        -- (* d e+NN : the number read back is the single digit d *)
           cbn [app] in Hraw.
           assert (EP' : parseInt raw = Num (digit_val d)).
           { rewrite Hraw. unfold parseInt, trimStart. cbn [dropWhile].
             rewrite (digit_not_white _ Hd), (digit_not_sign _ Hd).
             assert (Hm : char_eqb d "-"%char = false).
             { pose proof (digit_not_sign _ Hd) as Hs. apply orb_false_iff in Hs. tauto. }
             rewrite Hm. cbn [lit list_ascii_of_string app takeWhile]. rewrite Hd.
             cbn. unfold digits_value. cbn [fold_left].
             pose proof (digit_val_range _ Hd).
             apply to_double_small. simpl. lia. }
           rewrite EP in EP'. inversion EP'; subst z.
           pose proof (digit_val_range _ Hd).
           rewrite shortest_small in Hlen by (simpl; lia).
           apply Nat.leb_gt in Hlen.
           pose proof (length_decimal 21 (digit_val d) ltac:(lia) ltac:(simpl; lia)).
           lia.
        -- (* d.ddd e+NN contains a dot *)
           assert (Hdot : contains raw ["."%char] = true).
           { apply contains_char_present. rewrite Hraw. right. now left. }
           change (lit ".") with ["."%char] in *. congruence.
  - (* an infinity prints as a word and reads back as NaN *)
    cbn [le_zero] in Hle. subst negative. cbn [to_string] in Hraw.
    rewrite Hraw in EP. discriminate EP.
Qed.

End NumFacts.

Import NumFacts.

(** ** Facts about the validator, the accounts and the service *)

Module ServiceFacts.

Lemma validateDate_code host date f :
  validateDate host date = inl f -> statusCode f = DT01.
Proof.
  unfold validateDate. intro H.
  repeat match type of H with
         | (if ?b then _ else _) = _ => destruct b
         | match ?x with _ => _ end = _ => destruct x
         end; inversion H; reflexivity.
Qed.

(** The nested conditionals of [validateInstruction] compute the first
    failing rule of the chain. *)
Lemma validate_first_failing host parsed accounts :
  outcome_code (validateInstruction host parsed accounts)
  = first_failing (rule_chain host parsed accounts).
Proof.
  unfold validateInstruction, rule_chain, first_failing, amount_well_formed,
    sufficient_funds, date_well_formed, debit_lookup, credit_lookup, currency_matches.
  cbv zeta.
  destruct (nonempty (Draft.amount parsed)); cbn [negb orb andb]; [|reflexivity].
  destruct (contains (Draft.amount parsed) (lit ".")); cbn [negb orb andb]; [reflexivity|].
  destruct (contains (Draft.amount parsed) (lit "-")); cbn [negb orb andb]; [reflexivity|].
  destruct (isNaN (parseInt (Draft.amount parsed))); cbn [negb orb andb]; [reflexivity|].
  destruct (le_zero (parseInt (Draft.amount parsed))); cbn [negb orb andb]; [reflexivity|].
  destruct (str_eqb (Draft.amount parsed) (to_string (parseInt (Draft.amount parsed))));
    cbn [negb orb andb]; [|reflexivity].
  destruct (includes SUPPORTED_CURRENCIES (Draft.currency parsed)); cbn [negb]; [|reflexivity].
  destruct (isValidAccountId (Draft.debitAccount parsed)); cbn [negb]; [|reflexivity].
  destruct (isValidAccountId (Draft.creditAccount parsed)); cbn [negb]; [|reflexivity].
  destruct (str_eqb (Draft.debitAccount parsed) (Draft.creditAccount parsed));
    cbn [negb]; [reflexivity|].
  destruct (find_account accounts (Draft.debitAccount parsed)) as [debitAcc|];
    cbn [is_some]; [|reflexivity].
  destruct (find_account accounts (Draft.creditAccount parsed)) as [creditAcc|];
    cbn [is_some]; [|reflexivity].
  destruct (str_eqb (toUpperCase (Account.currency debitAcc)) (Draft.currency parsed));
    cbn [negb]; [|reflexivity].
  destruct (str_eqb (toUpperCase (Account.currency creditAcc)) (Draft.currency parsed));
    cbn [negb]; [|reflexivity].
  destruct (lt_num (Account.balance debitAcc) (parseInt (Draft.amount parsed)));
    cbn [negb]; [reflexivity|].
  unfold truthy.
  destruct (Draft.executeBy parsed) as [date|]; [|reflexivity].
  destruct (nonempty date); [|reflexivity].
  destruct (validateDate host date) as [f|] eqn:E; [|reflexivity].
  cbn. now rewrite (validateDate_code _ _ _ E).
Qed.

Lemma first_failing_none chain :
  first_failing chain = None -> Forall (fun p => snd p = true) chain.
Proof.
  induction chain as [|[code holds] rest IH]; simpl; intro H; [constructor|].
  destruct holds; [|discriminate]. constructor; [reflexivity|now apply IH].
Qed.

Lemma first_failing_AM01 host parsed accounts :
  first_failing (rule_chain host parsed accounts) = Some AM01 <->
  amount_well_formed (Draft.amount parsed) = false.
Proof.
  unfold rule_chain. cbn [first_failing].
  destruct (amount_well_formed (Draft.amount parsed)); [|tauto].
  split; [|discriminate]. intro H.
  repeat match type of H with
         | (if ?b then _ else _) = _ => destruct b
         end; discriminate.
Qed.

(** An amount that passes the amount rule reads as a finite positive
    number. *)
Lemma amount_well_formed_number raw :
  amount_well_formed raw = true -> exists z, parseInt raw = Num z /\ 0 < z.
Proof.
  unfold amount_well_formed. intro H.
  apply andb_true_iff in H. destruct H as [_ Hn]. cbv zeta in Hn.
  apply andb_true_iff in Hn. destruct Hn as [Hn Hraw].
  apply andb_true_iff in Hn. destruct Hn as [Hnan Hle].
  apply negb_true_iff in Hnan, Hle. apply str_eqb_eq in Hraw.
  destruct (parseInt raw) as [|z|negative] eqn:EP; try discriminate.
  - exists z. split; [reflexivity|]. cbn in Hle. now apply Z.leb_gt.
  - cbn [le_zero] in Hle. subst negative. cbn [to_string] in Hraw.
    rewrite Hraw in EP. discriminate EP.
Qed.

(** What a passed validation establishes. *)
Lemma validated host parsed accounts :
  validateInstruction host parsed accounts = inr tt ->
  (exists z, parseInt (Draft.amount parsed) = Num z /\ 0 < z
     /\ exists debitAcc0 creditAcc0,
          find_account accounts (Draft.debitAccount parsed) = Some debitAcc0
          /\ find_account accounts (Draft.creditAccount parsed) = Some creditAcc0
          /\ z <= Account.balance debitAcc0)
  /\ Draft.debitAccount parsed <> Draft.creditAccount parsed
  /\ date_well_formed host parsed = true.
Proof.
  intro H. pose proof (validate_first_failing host parsed accounts) as C.
  rewrite H in C. simpl outcome_code in C. symmetry in C.
  apply first_failing_none in C. unfold rule_chain in C.
  repeat match goal with
         | Hf : Forall _ (_ :: _) |- _ => inversion Hf; subst; clear Hf
         end.
  cbn [snd] in *.
  match goal with Ha : amount_well_formed _ = true |- _ =>
    destruct (amount_well_formed_number _ Ha) as (z & Hz & Hpos) end.
  unfold debit_lookup, credit_lookup, sufficient_funds, debit_lookup in *.
  destruct (find_account accounts (Draft.debitAccount parsed)) as [dA|]; [|discriminate].
  destruct (find_account accounts (Draft.creditAccount parsed)) as [cA|]; [|discriminate].
  split; [|split].
  - exists z. split; [exact Hz|]. split; [exact Hpos|].
    exists dA, cA. split; [reflexivity|]. split; [reflexivity|].
    rewrite Hz in *. cbn [lt_num] in *.
    match goal with Hl : negb (_ <? _) = true |- _ =>
      apply negb_true_iff, Z.ltb_ge in Hl; exact Hl end.
  - apply str_eqb_neq. now apply negb_true_iff.
  - assumption.
Qed.

(** *** The account store *)

Lemma fround_safe v : safe v -> fround v = v.
Proof.
  unfold safe. intro H.
  destruct (Z.eq_dec (Z.abs v) (2 ^ 53)) as [E|N].
  - destruct (Z.abs_eq_or_opp v) as [Hv|Hv]; rewrite Hv in E.
    + subst v. reflexivity.
    + assert (v = - 2 ^ 53) by lia. subst v. reflexivity.
  - apply fround_small. lia.
Qed.

Lemma find_set_balance_same accounts id b acc :
  find_account accounts id = Some acc ->
  find_account (set_balance accounts id b) id
  = Some (Account.mk (Account.id acc) b (Account.currency acc)).
Proof.
  unfold find_account. induction accounts as [|a rest IH]; simpl; [discriminate|].
  destruct (str_eqb (Account.id a) id) eqn:E; intro H.
  - inversion H; subst. simpl. now rewrite E.
  - simpl. rewrite E. now apply IH.
Qed.

Lemma find_set_balance_other accounts id b id' :
  id <> id' ->
  find_account (set_balance accounts id b) id' = find_account accounts id'.
Proof.
  intro Hne. unfold find_account. induction accounts as [|a rest IH]; simpl; [reflexivity|].
  destruct (str_eqb (Account.id a) id) eqn:E; simpl.
  - apply str_eqb_eq in E.
    assert (E' : str_eqb (Account.id a) id' = false)
      by (apply str_eqb_neq; congruence).
    now rewrite E'.
  - destruct (str_eqb (Account.id a) id'); [reflexivity|exact IH].
Qed.

Lemma total_set_balance accounts id b acc :
  find_account accounts id = Some acc ->
  total (set_balance accounts id b) = total accounts - Account.balance acc + b.
Proof.
  unfold find_account. induction accounts as [|a rest IH]; simpl; [discriminate|].
  destruct (str_eqb (Account.id a) id) eqn:E; intro H.
  - inversion H; subst. simpl. lia.
  - simpl. rewrite IH by assumption. lia.
Qed.

(** What [executeTransaction] does once validation has passed: it returns,
    and leaves the two balances reassigned. *)
Lemma executeTransaction_distinct parsed accounts amountNum debitAcc0 creditAcc0 :
  parseInt (Draft.amount parsed) = Num amountNum ->
  find_account accounts (Draft.debitAccount parsed) = Some debitAcc0 ->
  find_account accounts (Draft.creditAccount parsed) = Some creditAcc0 ->
  Draft.debitAccount parsed <> Draft.creditAccount parsed ->
  exists result,
    executeTransaction parsed accounts =
    Some (result,
          set_balance
            (set_balance accounts (Draft.debitAccount parsed)
                         (fround (Account.balance debitAcc0 - amountNum)))
            (Draft.creditAccount parsed)
            (fround (Account.balance creditAcc0 + amountNum))).
Proof.
  intros Hp Hd Hc Hne. unfold executeTransaction. rewrite Hp, Hd, Hc.
  rewrite find_set_balance_other by assumption. rewrite Hc.
  rewrite (find_set_balance_other _ (Draft.creditAccount parsed)) by congruence.
  rewrite (find_set_balance_same _ _ _ _ Hd).
  erewrite find_set_balance_same
    by (rewrite find_set_balance_other by assumption; exact Hc).
  eexists. reflexivity.
Qed.



Lemma valid_id_char_not_white c : valid_id_char c = true -> is_white c = false.
Proof.
  destruct c as [[] [] [] [] [] [] [] []]; intro H;
    first [discriminate H | reflexivity].
Qed.

(** Account identifiers of the AC04 character set are constituents. *)
Lemma valid_id_clean id : isValidAccountId id = true -> clean id = true.
Proof.
  unfold isValidAccountId, clean. intro H.
  apply andb_true_iff in H. destruct H as [H1 H2]. rewrite H1. cbn [andb].
  rewrite forallb_forall in *. intros c Hc.
  now rewrite (valid_id_char_not_white c (H2 c Hc)).
Qed.

(** Every parse failure carries SY03, except the missing type keyword. *)
Lemma parse_failure_codes instruction f :
  parseInstruction instruction = inl f ->
  statusCode f = SY03
  \/ f = mkFailure SY01 (lit "Missing required keyword: DEBIT or CREDIT").
Proof.
  unfold parseInstruction, catch_SY03. intro H.
  destruct (negb (nonempty instruction)); [inversion H; now left|].
  destruct (indexOf _ (lit "DEBIT") 0 =? 0).
  - destruct (parseDebitInstruction _); inversion H; now left.
  - destruct (indexOf _ (lit "CREDIT") 0 =? 0).
    + destruct (parseCreditInstruction _); inversion H; now left.
    + inversion H. now right.
Qed.

End ServiceFacts.

Import ServiceFacts.

(** ** Further facts *)

(** *** Upper case and the string primitives *)

Module CaseFacts.

Lemma nonempty_toUpperCase s : nonempty (toUpperCase s) = nonempty s.
Proof. destruct s; reflexivity. Qed.

Lemma len_toUpperCase s : len (toUpperCase s) = len s.
Proof. unfold len. now rewrite length_toUpperCase. Qed.

Lemma clamp_toUpperCase s i : clamp (toUpperCase s) i = clamp s i.
Proof. unfold clamp. now rewrite len_toUpperCase. Qed.

Lemma toUpperCase_firstn n s : toUpperCase (firstn n s) = firstn n (toUpperCase s).
Proof. symmetry. apply firstn_map. Qed.

Lemma toUpperCase_skipn n s : toUpperCase (skipn n s) = skipn n (toUpperCase s).
Proof. symmetry. apply skipn_map. Qed.

Lemma substring_toUpperCase s a b :
  substring (toUpperCase s) a b = toUpperCase (substring s a b).
Proof.
  unfold substring. rewrite !clamp_toUpperCase.
  now rewrite toUpperCase_firstn, toUpperCase_skipn.
Qed.

Lemma substring_from_toUpperCase s a :
  substring_from (toUpperCase s) a = toUpperCase (substring_from s a).
Proof.
  unfold substring_from. now rewrite clamp_toUpperCase, toUpperCase_skipn.
Qed.

Lemma dropWhile_toUpperCase s :
  dropWhile is_white (toUpperCase s) = toUpperCase (dropWhile is_white s).
Proof.
  induction s as [|c s IH]; [reflexivity|].
  cbn [toUpperCase map dropWhile]. rewrite upper_char_white.
  destruct (is_white c); [exact IH|reflexivity].
Qed.

Lemma toUpperCase_rev s : toUpperCase (rev s) = rev (toUpperCase s).
Proof. apply map_rev. Qed.

Lemma trim_toUpperCase s : trim (toUpperCase s) = toUpperCase (trim s).
Proof.
  unfold trim, trimEnd, trimStart.
  rewrite dropWhile_toUpperCase, <- toUpperCase_rev, dropWhile_toUpperCase.
  now rewrite toUpperCase_rev.
Qed.

Lemma split_space_toUpperCase s :
  split_space (toUpperCase s) = map toUpperCase (split_space s).
Proof.
  induction s as [|c s IH]; [reflexivity|].
  cbn [toUpperCase map split_space]. rewrite upper_char_space.
  destruct (char_eqb c space).
  - cbn [map]. f_equal. exact IH.
  - change (map upper_char s) with (toUpperCase s). rewrite IH.
    destruct (split_space s); reflexivity.
Qed.

Lemma tokens_of_toUpperCase s :
  tokens_of (toUpperCase s) = map toUpperCase (tokens_of s).
Proof.
  unfold tokens_of. rewrite split_space_toUpperCase.
  induction (split_space s) as [|w ws IH]; [reflexivity|].
  cbn [map filter]. rewrite nonempty_toUpperCase.
  destruct (nonempty w); cbn [map]; now rewrite IH.
Qed.

Lemma words_toUpperCase s : words (toUpperCase s) = map toUpperCase (words s).
Proof. unfold words. now rewrite trim_toUpperCase, tokens_of_toUpperCase. Qed.

Lemma normalize_toUpperCase s : normalize (toUpperCase s) = toUpperCase (normalize s).
Proof. unfold normalize. now rewrite words_toUpperCase, toUpperCase_join. Qed.

Lemma second_account_toUpperCase s p :
  second_account (toUpperCase s) p = toUpperCase (second_account s p).
Proof.
  unfold second_account.
  destruct (onPos p >? accountPos2 p).
  - now rewrite substring_toUpperCase, trim_toUpperCase.
  - now rewrite substring_from_toUpperCase, trim_toUpperCase.
Qed.

Lemma date_part_toUpperCase s p :
  date_part (toUpperCase s) p = option_map toUpperCase (date_part s p).
Proof.
  unfold date_part.
  destruct (onPos p >? accountPos2 p); [|reflexivity].
  cbn [option_map]. now rewrite substring_from_toUpperCase, trim_toUpperCase.
Qed.

Lemma parseDebit_toUpperCase s :
  parseDebitInstruction (toUpperCase s) = upper_result (parseDebitInstruction s).
Proof.
  unfold parseDebitInstruction. cbv zeta. rewrite toUpperCase_idem.
  set (p := debit_positions (toUpperCase s)).
  repeat match goal with
         | |- (if ?b then _ else _) = _ => destruct b; [reflexivity|]
         end.
  rewrite !substring_toUpperCase, !trim_toUpperCase, tokens_of_toUpperCase.
  rewrite second_account_toUpperCase, date_part_toUpperCase.
  match goal with |- context [map toUpperCase ?t] => generalize t end.
  intros [|a [|c [|x l]]]; [reflexivity|reflexivity| |reflexivity].
  cbn [map upper_result]. unfold upper_draft.
  cbn [Draft.type Draft.amount Draft.currency Draft.debitAccount Draft.creditAccount
       Draft.executeBy].
  reflexivity.
Qed.

Lemma parseCredit_toUpperCase s :
  parseCreditInstruction (toUpperCase s) = upper_result (parseCreditInstruction s).
Proof.
  unfold parseCreditInstruction. cbv zeta. rewrite toUpperCase_idem.
  set (p := credit_positions (toUpperCase s)).
  repeat match goal with
         | |- (if ?b then _ else _) = _ => destruct b; [reflexivity|]
         end.
  rewrite !substring_toUpperCase, !trim_toUpperCase, tokens_of_toUpperCase.
  rewrite second_account_toUpperCase, date_part_toUpperCase.
  match goal with |- context [map toUpperCase ?t] => generalize t end.
  intros [|a [|c [|x l]]]; [reflexivity|reflexivity| |reflexivity].
  cbn [map upper_result]. unfold upper_draft.
  cbn [Draft.type Draft.amount Draft.currency Draft.debitAccount Draft.creditAccount
       Draft.executeBy].
  reflexivity.
Qed.

Lemma catch_upper r : catch_SY03 (upper_result r) = upper_result (catch_SY03 r).
Proof. destruct r; reflexivity. Qed.

Lemma parseInstruction_toUpperCase s :
  parseInstruction (toUpperCase s) = upper_result (parseInstruction s).
Proof.
  unfold parseInstruction. cbv zeta.
  rewrite nonempty_toUpperCase, normalize_toUpperCase, toUpperCase_idem.
  destruct (negb (nonempty s)); [reflexivity|].
  destruct (indexOf _ (lit "DEBIT") 0 =? 0).
  - now rewrite parseDebit_toUpperCase, catch_upper.
  - destruct (indexOf _ (lit "CREDIT") 0 =? 0); [|reflexivity].
    now rewrite parseCredit_toUpperCase, catch_upper.
Qed.

End CaseFacts.

Import CaseFacts.

(** *** The words of an instruction *)

Module WordFacts.

(** **** The pieces of a split *)

Lemma split_space_cons s : exists w ws, split_space s = w :: ws.
Proof.
  induction s as [|c s (w & ws & E)]; [now exists [], []|].
  simpl. destruct (char_eqb c space); [now eexists _, _|].
  rewrite E. now eexists _, _.
Qed.

Lemma split_space_spaceless_all s : Forall (fun w => spaceless w = true) (split_space s).
Proof.
  induction s as [|c s IH]; [repeat constructor|].
  simpl. destruct (char_eqb c space) eqn:E; [constructor; [reflexivity|exact IH]|].
  destruct (split_space s) as [|w ws]; [repeat constructor; simpl; now rewrite E|].
  inversion IH; subst. constructor; [|assumption].
  simpl. now rewrite E.
Qed.

Lemma tokens_of_spaceless s : Forall (fun w => spaceless w = true) (tokens_of s).
Proof.
  unfold tokens_of. pose proof (split_space_spaceless_all s) as H.
  induction H as [|w ws Hw _ IH]; [constructor|].
  simpl. destruct (nonempty w); [constructor|]; assumption.
Qed.

Lemma tokens_of_nonempty s : Forall (fun w => nonempty w = true) (tokens_of s).
Proof.
  unfold tokens_of. induction (split_space s) as [|w ws IH]; [constructor|].
  simpl. destruct (nonempty w) eqn:E; [constructor|]; assumption.
Qed.

(** Joining words and splitting the result gives the words back. *)
Lemma tokens_of_join ws :
  Forall (fun w => spaceless w = true) ws ->
  Forall (fun w => nonempty w = true) ws ->
  tokens_of (join_space ws) = ws.
Proof.
  intros Hs Hn. induction ws as [|w ws IH]; [reflexivity|].
  inversion Hs; subst. inversion Hn; subst.
  destruct ws as [|w' ws].
  - unfold tokens_of. cbn [join_space]. rewrite split_space_spaceless by assumption.
    cbn [filter]. now match goal with H : nonempty w = true |- _ => rewrite H end.
  - change (join_space (w :: w' :: ws)) with (w ++ space :: join_space (w' :: ws)).
    unfold tokens_of. rewrite split_space_app by assumption.
    cbn [filter]. match goal with H : nonempty w = true |- _ => rewrite H end.
    f_equal. apply IH; assumption.
Qed.

(** **** Trimmed texts *)

Lemma head_ok_dropWhile_white s : head_ok (dropWhile is_white s) = true.
Proof.
  induction s as [|c s IH]; [reflexivity|].
  simpl. destruct (is_white c) eqn:E; [exact IH|]. simpl. now rewrite E.
Qed.

Lemma dropWhile_snoc p x c :
  p c = false -> dropWhile p (x ++ [c]) = dropWhile p x ++ [c].
Proof.
  intro H. induction x as [|y x IH]; simpl; [now rewrite H|].
  destruct (p y); [exact IH|reflexivity].
Qed.

Lemma tight_trim s : tight (trim s) = true.
Proof.
  unfold tight, trim, trimEnd, trimStart.
  rewrite rev_involutive, head_ok_dropWhile_white, andb_true_r.
  pose proof (head_ok_dropWhile_white s) as H.
  destruct (dropWhile is_white s) as [|c u]; [reflexivity|].
  simpl in H. apply negb_true_iff in H.
  simpl rev. rewrite dropWhile_snoc by assumption.
  rewrite rev_app_distr. simpl. now rewrite H.
Qed.

Lemma trim_of_tight t : tight t = true -> trim t = t.
Proof.
  intro H. pose proof (trim_tight [] t [] eq_refl eq_refl H) as E.
  now rewrite app_nil_r in E.
Qed.

Lemma trim_idem s : trim (trim s) = trim s.
Proof. apply trim_of_tight, tight_trim. Qed.

Lemma trim_white s : forallb is_white s = true -> trim s = [].
Proof.
  intro H. unfold trim, trimStart.
  replace s with (s ++ []) by apply app_nil_r.
  now rewrite dropWhile_app_all.
Qed.

(** **** The ends of a joined word list *)

Lemma split_space_snoc u c :
  char_eqb c space = false ->
  split_space (u ++ [c])
  = removelast (split_space u) ++ [last (split_space u) [] ++ [c]].
Proof.
  intro Hc. induction u as [|x u IH]; [simpl; now rewrite Hc|].
  change ((x :: u) ++ [c]) with (x :: (u ++ [c])).
  cbn [split_space]. rewrite IH.
  destruct (split_space_cons u) as (w & ws & E). rewrite E.
  destruct (char_eqb x space).
  - reflexivity.
  - destruct ws as [|w' ws]; reflexivity.
Qed.

Lemma filter_removelast_last (ps : list jsstring) c :
  filter nonempty (removelast ps ++ [last ps [] ++ [c]])
  = filter nonempty (removelast ps) ++ [last ps [] ++ [c]].
Proof.
  rewrite filter_app. cbn [filter].
  now destruct (last ps []).
Qed.

Lemma join_space_snoc ws w :
  join_space (ws ++ [w]) =
  match ws with [] => w | _ => join_space ws ++ space :: w end.
Proof.
  induction ws as [|x ws IH]; [reflexivity|].
  destruct ws as [|y ws]; [reflexivity|].
  change (join_space ((x :: y :: ws) ++ [w]))
    with (x ++ space :: join_space ((y :: ws) ++ [w])).
  rewrite IH.
  change (join_space (x :: y :: ws)) with (x ++ space :: join_space (y :: ws)).
  now rewrite <- app_assoc.
Qed.

Lemma head_ok_rev_snoc x c : head_ok (rev (x ++ [c])) = negb (is_white c).
Proof. now rewrite rev_app_distr. Qed.

(** Splitting a trimmed text into words and joining them keeps it
    trimmed. *)
Lemma tight_join_tokens t : tight t = true -> tight (join_space (tokens_of t)) = true.
Proof.
  unfold tight. intro H. apply andb_true_iff in H. destruct H as [Hh Hl].
  apply andb_true_iff. split.
  - destruct t as [|c t]; [reflexivity|].
    simpl in Hh. unfold tokens_of. cbn [split_space].
    assert (Hc : char_eqb c space = false).
    { destruct (char_eqb c space) eqn:E; [|reflexivity].
      apply char_eqb_eq in E. subst c. discriminate. }
    rewrite Hc. destruct (split_space_cons t) as (w & ws & E). rewrite E.
    cbn [filter nonempty].
    destruct (filter nonempty ws); exact Hh.
  - destruct (rev t) as [|c u] eqn:R; [|].
    + apply (f_equal (@rev ascii)) in R. rewrite rev_involutive in R. now subst t.
    + apply (f_equal (@rev ascii)) in R. rewrite rev_involutive in R. subst t.
      simpl in Hl. simpl rev.
      assert (Hc : char_eqb c space = false).
      { destruct (char_eqb c space) eqn:E; [|reflexivity].
        apply char_eqb_eq in E. subst c. discriminate. }
      unfold tokens_of. rewrite split_space_snoc by assumption.
      rewrite filter_removelast_last, join_space_snoc.
      destruct (filter nonempty (removelast (split_space (rev u)))).
      * now rewrite head_ok_rev_snoc.
      * match goal with |- context [?a ++ space :: ?b ++ [c]] =>
          replace (a ++ space :: b ++ [c]) with ((a ++ space :: b) ++ [c])
            by now rewrite <- app_assoc end.
        now rewrite head_ok_rev_snoc.
Qed.

(** The words of a normalized instruction are the words of the
    instruction. *)
Lemma words_normalize s : words (normalize s) = words s.
Proof.
  unfold normalize. unfold words at 1.
  rewrite trim_of_tight.
  - apply tokens_of_join; [apply tokens_of_spaceless|apply tokens_of_nonempty].
  - unfold words. apply tight_join_tokens, tight_trim.
Qed.

Lemma normalize_idem s : normalize (normalize s) = normalize s.
Proof. unfold normalize at 1. now rewrite words_normalize. Qed.

Lemma join_space_nonempty ws :
  ws <> [] -> Forall (fun w => nonempty w = true) ws -> nonempty (join_space ws) = true.
Proof.
  intros Hn H. destruct ws as [|w ws]; [contradiction|].
  inversion H; subst. destruct w; [discriminate|].
  destruct ws; reflexivity.
Qed.

Lemma normalize_nonempty s : words s <> [] -> nonempty (normalize s) = true.
Proof. intro H. apply join_space_nonempty; [exact H|apply tokens_of_nonempty]. Qed.

Lemma parseInstruction_normalize s :
  words s <> [] -> parseInstruction (normalize s) = parseInstruction s.
Proof.
  intro H. unfold parseInstruction.
  rewrite normalize_nonempty by assumption.
  rewrite (words_nonempty s _ eq_refl H). cbn [negb].
  now rewrite normalize_idem.
Qed.

Lemma words_white s : forallb is_white s = true -> words s = [].
Proof. intro H. unfold words. now rewrite trim_white. Qed.

End WordFacts.

Import WordFacts.

(** *** Parts of a text and occurrences of a pattern *)

Module SliceFacts.

Lemma prefixb_length pat : forall s, prefixb pat s = true -> (length pat <= length s)%nat.
Proof.
  induction pat as [|p pat IH]; intros s H; [simpl; lia|].
  destruct s as [|c s]; [discriminate|]. simpl in H.
  apply andb_true_iff in H. destruct H as [_ H]. apply IH in H. simpl. lia.
Qed.

Lemma prefixb_split pat : forall s, prefixb pat s = true -> exists r, s = pat ++ r.
Proof.
  induction pat as [|p pat IH]; intros s H; [now exists s|].
  destruct s as [|c s]; [discriminate|]. simpl in H.
  apply andb_true_iff in H. destruct H as [Hc H].
  apply char_eqb_eq in Hc. subst c.
  destruct (IH _ H) as (r & ->). now exists r.
Qed.

Lemma within_weaken x s lo hi lo' hi' :
  within x s lo hi -> (lo' <= lo)%nat -> (hi <= hi')%nat -> within x s lo' hi'.
Proof.
  intros (pre & post & E & A & B) Hl Hh. exists pre, post. repeat split; [exact E|lia|lia].
Qed.

Lemma within_part x y s lo hi :
  within y s lo hi -> (exists a b, y = a ++ x ++ b) -> within x s lo hi.
Proof.
  intros (pre & post & E & A & B) (a & b & Ey). subst y.
  exists (pre ++ a), (b ++ post). split; [|split].
  - rewrite E. now rewrite <- !app_assoc.
  - rewrite length_app. lia.
  - rewrite !length_app in *. lia.
Qed.

Lemma dropWhile_suffix p (s : jsstring) : exists a, s = a ++ dropWhile p s.
Proof.
  induction s as [|c s (a & E)]; [now exists []|].
  simpl. destruct (p c); [|now exists []].
  exists (c :: a). simpl. now rewrite <- E.
Qed.

Lemma trim_part s : exists a b, s = a ++ trim s ++ b.
Proof.
  unfold trim, trimEnd, trimStart.
  destruct (dropWhile_suffix is_white s) as (a & Ea).
  destruct (dropWhile_suffix is_white (rev (dropWhile is_white s))) as (b & Eb).
  exists a, (rev b).
  rewrite <- rev_app_distr, <- Eb, rev_involutive. exact Ea.
Qed.

Lemma within_trim x s lo hi : within x s lo hi -> within (trim x) s lo hi.
Proof. intro H. apply (within_part _ _ _ _ _ H), trim_part. Qed.

Lemma split_space_pieces s : forall w0 ws,
  split_space s = w0 :: ws ->
  (exists b, s = w0 ++ b)
  /\ forall w, In w ws -> exists a b, s = a ++ w ++ b.
Proof.
  induction s as [|c s IH]; intros w0 ws S.
  - simpl in S. inversion S; subst. split; [now exists []|]. intros w [].
  - simpl in S. destruct (split_space_cons s) as (w1 & ws1 & E). rewrite E in S.
    destruct (IH _ _ E) as ((b1 & P1) & P2).
    destruct (char_eqb c space); inversion S; subst w0 ws; clear S.
    + split; [now exists (c :: s)|].
      intros w [<-|H].
      * exists [c], b1. simpl. now rewrite <- P1.
      * destruct (P2 _ H) as (a & b & Ew). exists (c :: a), b. simpl. now rewrite <- Ew.
    + split; [exists b1; simpl; now rewrite <- P1|].
      intros w H. destruct (P2 _ H) as (a & b & Ew).
      exists (c :: a), b. simpl. now rewrite <- Ew.
Qed.

Lemma split_space_part s w : In w (split_space s) -> exists a b, s = a ++ w ++ b.
Proof.
  destruct (split_space_cons s) as (w0 & ws & E). rewrite E.
  destruct (split_space_pieces _ _ _ E) as ((b & P1) & P2).
  intros [<-|H]; [now exists [], b|now apply P2].
Qed.

Lemma tokens_of_part s w : In w (tokens_of s) -> exists a b, s = a ++ w ++ b.
Proof.
  unfold tokens_of. intro H. apply filter_In in H. destruct H as [H _].
  now apply split_space_part.
Qed.

Lemma within_token x s lo hi w : within x s lo hi -> In w (tokens_of x) -> within w s lo hi.
Proof. intros H Hw. apply (within_part _ _ _ _ _ H), tokens_of_part, Hw. Qed.

(** A slice of a text between two clamped offsets. *)
Lemma within_slice s lo hi :
  (lo <= hi)%nat -> (hi <= length s)%nat ->
  within (firstn (hi - lo) (skipn lo s)) s lo hi.
Proof.
  intros H1 H2. exists (firstn lo s), (skipn (hi - lo) (skipn lo s)).
  split; [|split].
  - now rewrite firstn_skipn, firstn_skipn.
  - rewrite length_firstn. lia.
  - rewrite !length_firstn, length_skipn. lia.
Qed.

Lemma within_tail s lo :
  (lo <= length s)%nat -> within (skipn lo s) s lo (length s).
Proof.
  intro H. exists (firstn lo s), []. split; [|split].
  - now rewrite app_nil_r, firstn_skipn.
  - rewrite length_firstn. lia.
  - rewrite length_firstn, length_skipn. lia.
Qed.

(** A part of a text that lies where a pattern does not occur does not
    contain the pattern. *)
Lemma within_absent pat x s lo hi :
  within x s lo hi -> absent_between pat s lo hi -> find_first pat x = None.
Proof.
  intros (pre & post & E & A & B) Habs.
  destruct (find_first pat x) as [q|] eqn:F; [|reflexivity].
  exfalso. destruct (find_first_sound _ _ _ F) as (O & Hq & _).
  pose proof (prefixb_length _ _ O) as L. rewrite length_skipn in L.
  specialize (Habs (length pre + q)%nat).
  rewrite E in Habs.
  rewrite skipn_app in Habs.
  replace (length pre + q - length pre)%nat with q in Habs by lia.
  rewrite skipn_all2 in Habs by lia. cbn [app] in Habs.
  rewrite skipn_app in Habs.
  rewrite prefixb_app_l in Habs by exact O.
  assert (false = true -> False) by discriminate.
  destruct (Nat.le_gt_cases (length pat) (length x - q)) as [Hle|Hgt].
  - apply H. symmetry. apply Habs; lia.
  - lia.
Qed.

Lemma mentions_toUpperCase x kw : mentions (toUpperCase x) kw = mentions x kw.
Proof. unfold mentions. now rewrite toUpperCase_idem. Qed.

Lemma mentions_none x kw :
  find_first kw (toUpperCase x) = None -> mentions x kw = false.
Proof. unfold mentions. now intros ->. Qed.

End SliceFacts.

Import SliceFacts.

(** *** Keyword searches *)

Module ScanFacts.

(** What a search returns: nothing, when the pattern does not occur from
    the start offset on, or the offset of an occurrence before which,
    from the start offset on, the pattern does not occur. *)
Lemma indexOf_cases U pat from :
  nonempty pat = true ->
  (indexOf U pat from = -1 /\ forall hi, absent_between pat U (clamp U from) hi)
  \/ (exists k, indexOf U pat from = Z.of_nat k /\ (clamp U from <= k)%nat
                /\ prefixb pat (skipn k U) = true
                /\ (k + length pat <= length U)%nat
                /\ absent_between pat U (clamp U from) k).
Proof.
  intro Hn.
  assert (Hl : (1 <= length pat)%nat) by (destruct pat; [discriminate|simpl; lia]).
  destruct (indexOf_first_occurrence U pat from) as [[E A]|(k & E & Hk & [O L] & A)].
  - left. split; [exact E|]. intros hi q Hq _.
    destruct (prefixb pat (skipn q U)) eqn:P; [|reflexivity].
    exfalso. apply (A q Hq). split; [exact P|].
    apply prefixb_length in P. rewrite length_skipn in P. lia.
  - right. exists k. split; [exact E|]. split; [exact Hk|]. split; [exact O|].
    split.
    + apply prefixb_length in O. rewrite length_skipn in O. lia.
    + intros q Hq Hq'.
      destruct (prefixb pat (skipn q U)) eqn:P; [|reflexivity].
      exfalso. apply (A q); [lia|]. split; [exact P|].
      apply prefixb_length in P. rewrite length_skipn in P. lia.
Qed.

Lemma clamp_zero U : clamp U 0 = 0%nat.
Proof. unfold clamp, len. lia. Qed.

Lemma clamp_minus_one U : clamp U (-1) = 0%nat.
Proof. unfold clamp, len. lia. Qed.

Lemma substring_slice U lo hi :
  (lo <= hi)%nat -> (hi <= length U)%nat ->
  substring U (Z.of_nat lo) (Z.of_nat hi) = firstn (hi - lo) (skipn lo U).
Proof.
  intros H1 H2. unfold substring. rewrite !clamp_of_nat by lia.
  now rewrite Nat.min_l, Nat.max_r by lia.
Qed.

Lemma substring_within U lo hi :
  (lo <= hi)%nat -> (hi <= length U)%nat ->
  within (substring U (Z.of_nat lo) (Z.of_nat hi)) U lo hi.
Proof.
  intros H1 H2. rewrite substring_slice by assumption. now apply within_slice.
Qed.

Lemma substring_from_within U lo :
  (lo <= length U)%nat -> within (substring_from U (Z.of_nat lo)) U lo (length U).
Proof.
  intro H. unfold substring_from. rewrite clamp_of_nat by lia. now apply within_tail.
Qed.

Lemma absent_weaken pat U lo hi lo' hi' :
  absent_between pat U lo hi -> (lo <= lo')%nat -> (hi' <= hi)%nat ->
  absent_between pat U lo' hi'.
Proof. intros H Hl Hh q Hq Hq'. apply H; lia. Qed.

(** The text between two offsets, trimmed, read without regard to letter
    case, does not mention a pattern that is absent between them. *)
Lemma slice_keyword_free n pat lo hi :
  (lo <= hi)%nat -> (hi <= length n)%nat ->
  absent_between pat (toUpperCase n) lo hi ->
  mentions (trim (substring n (Z.of_nat lo) (Z.of_nat hi))) pat = false.
Proof.
  intros H1 H2 A. apply mentions_none.
  rewrite <- trim_toUpperCase, <- substring_toUpperCase.
  apply (within_absent _ _ (toUpperCase n) lo hi); [|exact A].
  apply within_trim, substring_within; [exact H1|now rewrite length_toUpperCase].
Qed.

Lemma tail_keyword_free n pat lo :
  (lo <= length n)%nat ->
  absent_between pat (toUpperCase n) lo (length n) ->
  mentions (trim (substring_from n (Z.of_nat lo))) pat = false.
Proof.
  intros H A. apply mentions_none.
  rewrite <- trim_toUpperCase, <- substring_from_toUpperCase.
  apply (within_absent _ _ (toUpperCase n) lo (length n)); [|exact A].
  apply within_trim.
  pose proof (substring_from_within (toUpperCase n) lo) as W.
  rewrite length_toUpperCase in W. now apply W.
Qed.

Lemma token_keyword_free n pat lo hi w :
  (lo <= hi)%nat -> (hi <= length n)%nat ->
  absent_between pat (toUpperCase n) lo hi ->
  In w (tokens_of (trim (substring n (Z.of_nat lo) (Z.of_nat hi)))) ->
  mentions w pat = false.
Proof.
  intros H1 H2 A Hw. apply mentions_none.
  apply (within_absent _ _ (toUpperCase n) lo hi); [|exact A].
  apply (within_token (trim (substring (toUpperCase n) (Z.of_nat lo) (Z.of_nat hi)))).
  - apply within_trim, substring_within; [exact H1|now rewrite length_toUpperCase].
  - rewrite substring_toUpperCase, trim_toUpperCase, tokens_of_toUpperCase.
    now apply in_map.
Qed.

(** Two keywords do not overlap. *)
Ltac overlap_free :=
  match goal with
  | O1 : prefixb _ (skipn ?k ?U) = true, O2 : prefixb _ (skipn ?k' ?U) = true |- _ =>
      let r := fresh "r" in let E := fresh "E" in
      destruct (prefixb_split _ _ O1) as (r & E);
      replace k' with ((k' - k) + k)%nat in O2 by lia;
      rewrite <- skipn_skipn, E in O2;
      let j := fresh "j" in
      remember (k' - k)%nat as j;
      do 8 (try (destruct j as [|j]; [cbn in O2; try discriminate O2; try lia|]));
      try lia
  end.

Lemma ACCOUNT_then_FOR U k k' :
  prefixb (lit "ACCOUNT") (skipn k U) = true ->
  prefixb (lit "FOR") (skipn k' U) = true ->
  (k < k')%nat -> (k + 7 <= k')%nat.
Proof.
  intros O1 O2 H.
  destruct (Nat.le_gt_cases (k + 7) k') as [L|G]; [exact L|exfalso].
  overlap_free.
Qed.

Lemma ACCOUNT_then_ON U k k' :
  prefixb (lit "ACCOUNT") (skipn k U) = true ->
  prefixb (lit "ON") (skipn k' U) = true ->
  (k <= k')%nat -> (k + 7 <= k')%nat.
Proof.
  intros O1 O2 H.
  destruct (Nat.le_gt_cases (k + 7) k') as [L|G]; [exact L|exfalso].
  overlap_free.
Qed.

Lemma DEBIT_then_FROM U k k' :
  prefixb (lit "DEBIT") (skipn k U) = true ->
  prefixb (lit "FROM") (skipn k' U) = true ->
  (k < k')%nat -> (k + 5 <= k')%nat.
Proof.
  intros O1 O2 H.
  destruct (Nat.le_gt_cases (k + 5) k') as [L|G]; [exact L|exfalso].
  overlap_free.
Qed.

Lemma CREDIT_then_TO U k k' :
  prefixb (lit "CREDIT") (skipn k U) = true ->
  prefixb (lit "TO") (skipn k' U) = true ->
  (k < k')%nat -> (k + 5 <= k')%nat.
Proof.
  intros O1 O2 H.
  destruct (Nat.le_gt_cases (k + 5) k') as [L|G]; [exact L|exfalso].
  overlap_free.
Qed.

End ScanFacts.

Import ScanFacts.

(** *** What the parse functions extract *)

Module ExtractFacts.

(** Case analysis on one search of a parse function. *)
Ltac scan_cases U pat from k :=
  let E := fresh "E" k in let A := fresh "A" k in
  let L := fresh "L" k in let O := fresh "O" k in let B := fresh "B" k in
  destruct (indexOf_cases U pat from eq_refl)
    as [[E A]|(k & E & L & O & B & A)].

(** The second account and the text after [ON]. *)
Lemma second_account_keyword_free n p ka2 :
  accountPos2 p = Z.of_nat ka2 ->
  onPos p = indexOf (toUpperCase n) (lit "ON") (accountPos2 p) ->
  prefixb (lit "ACCOUNT") (skipn ka2 (toUpperCase n)) = true ->
  (ka2 + 7 <= length n)%nat ->
  mentions (second_account n p) (lit "ON") = false.
Proof.
  intros E2 Eon O2 B2. unfold second_account. rewrite Eon, E2.
  set (U := toUpperCase n) in *.
  assert (C : clamp U (Z.of_nat ka2) = ka2)
    by (apply clamp_of_nat; unfold U; rewrite length_toUpperCase; lia).
  scan_cases U (lit "ON") (Z.of_nat ka2) kon; rewrite C in *.
  - rewrite Ekon.
    replace (-1 >? Z.of_nat ka2) with false by (rewrite Z.gtb_ltb; symmetry; apply Z.ltb_ge; lia).
    replace (Z.of_nat ka2 + 7) with (Z.of_nat (ka2 + 7)) by lia.
    apply tail_keyword_free; [lia|].
    apply (absent_weaken _ _ _ _ _ _ (Akon (length n))); lia.
  - rewrite Ekon.
    pose proof (ACCOUNT_then_ON _ _ _ O2 Okon Lkon) as G.
    replace (Z.of_nat kon >? Z.of_nat ka2) with true by (rewrite Z.gtb_ltb; symmetry; apply Z.ltb_lt; lia).
    replace (Z.of_nat ka2 + 7) with (Z.of_nat (ka2 + 7)) by lia.
    unfold U in Bkon. rewrite length_toUpperCase in Bkon. cbn [length lit list_ascii_of_string] in Bkon.
    apply slice_keyword_free; [lia|lia|].
    apply (absent_weaken _ _ _ _ _ _ Akon); lia.
Qed.

Lemma parseDebit_keyword_free n a c d e date :
  parseDebitInstruction n = inr (Draft.mk DEBIT a c d e date) ->
  keyword_free DEBIT a c d e = true.
Proof.
  unfold parseDebitInstruction. cbv zeta.
  set (U := toUpperCase n).
  set (p := debit_positions U).
  assert (Ep : p = debit_positions U) by reflexivity.
  unfold debit_positions in Ep. cbv zeta in Ep.
  assert (LU : length U = length n) by apply length_toUpperCase.
  destruct (debitPos p =? -1) eqn:T1; [discriminate|].
  destruct (fromPos p =? -1) eqn:T2; [discriminate|].
  destruct (accountPos1 p =? -1) eqn:T3; [discriminate|].
  destruct (forPos p =? -1) eqn:T4; [discriminate|].
  destruct (creditPos p =? -1) eqn:T5; [discriminate|].
  destruct (toPos p =? -1) eqn:T6; [discriminate|].
  destruct (accountPos2 p =? -1) eqn:T7; [discriminate|].
  destruct (negb _) eqn:T8; [discriminate|].
  apply negb_false_iff in T8.
  repeat (apply andb_true_iff in T8; destruct T8 as [T8 ?]).
  repeat match goal with H : (_ <? _) = true |- _ => apply Z.ltb_lt in H end.
  repeat match goal with H : (_ =? _) = false |- _ => apply Z.eqb_neq in H end.
  assert (Edp : debitPos p = indexOf U (lit "DEBIT") 0) by (rewrite Ep; reflexivity).
  assert (Efp : fromPos p = indexOf U (lit "FROM") 0) by (rewrite Ep; reflexivity).
  assert (Ea1 : accountPos1 p = indexOf U (lit "ACCOUNT") (fromPos p))
    by (rewrite Ep; reflexivity).
  assert (Efor : forPos p = indexOf U (lit "FOR") 0) by (rewrite Ep; reflexivity).
  assert (Ea2 : accountPos2 p = indexOf U (lit "ACCOUNT") (toPos p))
    by (rewrite Ep at 1; reflexivity).
  assert (Eon : onPos p = indexOf U (lit "ON") (accountPos2 p))
    by (rewrite Ep at 1; reflexivity).
  clear Ep.
  scan_cases U (lit "DEBIT") 0 kd; [congruence|].
  scan_cases U (lit "FROM") 0 kf; [congruence|].
  scan_cases U (lit "ACCOUNT") (fromPos p) ka1; [congruence|].
  scan_cases U (lit "FOR") 0 kfor; [congruence|].
  scan_cases U (lit "ACCOUNT") (toPos p) ka2; [congruence|].
  rewrite clamp_zero in *.
  rewrite <- Edp in Ekd. rewrite <- Efp in Ekf. rewrite <- Ea1 in Eka1.
  rewrite <- Efor in Ekfor. rewrite <- Ea2 in Eka2.
  cbn [length lit list_ascii_of_string] in Bkd, Bkf, Bka1, Bkfor, Bka2.
  assert (G1 : (kd + 5 <= kf)%nat) by (apply (DEBIT_then_FROM U); [assumption..|lia]).
  assert (G2 : (ka1 + 7 <= kfor)%nat) by (apply (ACCOUNT_then_FOR U); [assumption..|lia]).
  rewrite Ekd, Ekf, Eka1, Ekfor.
  replace (Z.of_nat kd + 5) with (Z.of_nat (kd + 5)) by lia.
  replace (Z.of_nat ka1 + 7) with (Z.of_nat (ka1 + 7)) by lia.
  destruct (tokens_of _) as [|a0 [|c0 [|x l]]] eqn:Tk; try discriminate.
  intro Hr. inversion Hr; subst a c d e date; clear Hr.
  cbn [keyword_free].
  assert (Ha : In a0 (tokens_of (trim (substring n (Z.of_nat (kd + 5)) (Z.of_nat kf)))))
    by (rewrite Tk; now left).
  assert (Hc : In c0 (tokens_of (trim (substring n (Z.of_nat (kd + 5)) (Z.of_nat kf)))))
    by (rewrite Tk; right; now left).
  rewrite !mentions_toUpperCase.
  rewrite (token_keyword_free n (lit "FROM") _ _ a0 G1) by (assumption || lia
    || (apply (absent_weaken _ _ _ _ _ _ Akf); lia)).
  rewrite (token_keyword_free n (lit "FOR") _ _ a0 G1) by (assumption || lia
    || (apply (absent_weaken _ _ _ _ _ _ Akfor); lia)).
  rewrite (token_keyword_free n (lit "FROM") _ _ c0 G1) by (assumption || lia
    || (apply (absent_weaken _ _ _ _ _ _ Akf); lia)).
  rewrite (token_keyword_free n (lit "FOR") _ _ c0 G1) by (assumption || lia
    || (apply (absent_weaken _ _ _ _ _ _ Akfor); lia)).
  rewrite (slice_keyword_free n (lit "FOR") _ _ G2) by (lia
    || (apply (absent_weaken _ _ _ _ _ _ Akfor); lia)).
  rewrite (second_account_keyword_free n p ka2) by (assumption || lia).
  reflexivity.
Qed.

Lemma length_substring_near n k :
  (length (substring n (Z.of_nat (k + 1)) (Z.of_nat k)) <= 1)%nat.
Proof.
  unfold substring. rewrite length_firstn. unfold clamp, len. lia.
Qed.

Lemma length_trim s : (length (trim s) <= length s)%nat.
Proof.
  destruct (trim_part s) as (a & b & E). rewrite E at 2.
  rewrite !length_app. lia.
Qed.

Lemma tokens_of_short x a c l :
  (length x <= 1)%nat -> tokens_of x <> a :: c :: l.
Proof.
  destruct x as [|y [|z x]]; simpl length; intro H; try lia.
  - discriminate.
  - unfold tokens_of. simpl. destruct (char_eqb y space); discriminate.
Qed.

Lemma parseCredit_keyword_free n a c d e date :
  parseCreditInstruction n = inr (Draft.mk CREDIT a c d e date) ->
  keyword_free CREDIT a c d e = true.
Proof.
  unfold parseCreditInstruction. cbv zeta.
  set (U := toUpperCase n).
  set (p := credit_positions U).
  assert (Ep : p = credit_positions U) by reflexivity.
  unfold credit_positions in Ep. cbv zeta in Ep.
  assert (LU : length U = length n) by apply length_toUpperCase.
  destruct (creditPos p =? -1) eqn:T1; [discriminate|].
  destruct (toPos p =? -1) eqn:T2; [discriminate|].
  destruct (accountPos1 p =? -1) eqn:T3; [discriminate|].
  destruct (forPos p =? -1) eqn:T4; [discriminate|].
  destruct (debitPos p =? -1) eqn:T5; [discriminate|].
  destruct (fromPos p =? -1) eqn:T6; [discriminate|].
  destruct (accountPos2 p =? -1) eqn:T7; [discriminate|].
  destruct (negb _) eqn:T8; [discriminate|].
  apply negb_false_iff in T8.
  repeat (apply andb_true_iff in T8; destruct T8 as [T8 ?]).
  repeat match goal with H : (_ <? _) = true |- _ => apply Z.ltb_lt in H end.
  repeat match goal with H : (_ =? _) = false |- _ => apply Z.eqb_neq in H end.
  assert (Ecp : creditPos p = indexOf U (lit "CREDIT") 0) by (rewrite Ep; reflexivity).
  assert (Etp : toPos p = indexOf U (lit "TO") 0) by (rewrite Ep; reflexivity).
  assert (Ea1 : accountPos1 p = indexOf U (lit "ACCOUNT") (toPos p))
    by (rewrite Ep at 1; reflexivity).
  assert (Efor : forPos p = indexOf U (lit "FOR") 0) by (rewrite Ep; reflexivity).
  assert (Ea2 : accountPos2 p = indexOf U (lit "ACCOUNT") (fromPos p))
    by (rewrite Ep at 1; reflexivity).
  assert (Eon : onPos p = indexOf U (lit "ON") (accountPos2 p))
    by (rewrite Ep at 1; reflexivity).
  clear Ep.
  scan_cases U (lit "CREDIT") 0 kc; [congruence|].
  scan_cases U (lit "TO") 0 kt; [congruence|].
  scan_cases U (lit "ACCOUNT") (toPos p) ka1; [congruence|].
  scan_cases U (lit "FOR") 0 kfor; [congruence|].
  scan_cases U (lit "ACCOUNT") (fromPos p) ka2; [congruence|].
  rewrite clamp_zero in *.
  rewrite <- Ecp in Ekc. rewrite <- Etp in Ekt. rewrite <- Ea1 in Eka1.
  rewrite <- Efor in Ekfor. rewrite <- Ea2 in Eka2.
  cbn [length lit list_ascii_of_string] in Bkc, Bkt, Bka1, Bkfor, Bka2.
  assert (G0 : (kc + 5 <= kt)%nat) by (apply (CREDIT_then_TO U); [assumption..|lia]).
  assert (G2 : (ka1 + 7 <= kfor)%nat) by (apply (ACCOUNT_then_FOR U); [assumption..|lia]).
  rewrite Ekc, Ekt, Eka1, Ekfor.
  replace (Z.of_nat kc + 6) with (Z.of_nat (kc + 6)) by lia.
  replace (Z.of_nat ka1 + 7) with (Z.of_nat (ka1 + 7)) by lia.
  destruct (tokens_of _) as [|a0 [|c0 [|x l]]] eqn:Tk; try discriminate.
  intro Hr. inversion Hr; subst a c d e date; clear Hr.
  assert (G1 : (kc + 6 <= kt)%nat).
  { destruct (Nat.eq_dec kt (kc + 5)) as [Q|Q]; [exfalso|lia].
    subst kt. replace (kc + 6)%nat with (kc + 5 + 1)%nat in Tk by lia.
    revert Tk. apply tokens_of_short.
    etransitivity; [apply length_trim|apply length_substring_near]. }
  cbn [keyword_free].
  assert (Ha : In a0 (tokens_of (trim (substring n (Z.of_nat (kc + 6)) (Z.of_nat kt)))))
    by (rewrite Tk; now left).
  assert (Hc : In c0 (tokens_of (trim (substring n (Z.of_nat (kc + 6)) (Z.of_nat kt)))))
    by (rewrite Tk; right; now left).
  rewrite !mentions_toUpperCase.
  rewrite (token_keyword_free n (lit "TO") _ _ a0 G1) by (assumption || lia
    || (apply (absent_weaken _ _ _ _ _ _ Akt); lia)).
  rewrite (token_keyword_free n (lit "FOR") _ _ a0 G1) by (assumption || lia
    || (apply (absent_weaken _ _ _ _ _ _ Akfor); lia)).
  rewrite (token_keyword_free n (lit "TO") _ _ c0 G1) by (assumption || lia
    || (apply (absent_weaken _ _ _ _ _ _ Akt); lia)).
  rewrite (token_keyword_free n (lit "FOR") _ _ c0 G1) by (assumption || lia
    || (apply (absent_weaken _ _ _ _ _ _ Akfor); lia)).
  rewrite (slice_keyword_free n (lit "FOR") _ _ G2) by (lia
    || (apply (absent_weaken _ _ _ _ _ _ Akfor); lia)).
  rewrite (second_account_keyword_free n p ka2) by (assumption || lia).
  reflexivity.
Qed.

(** Whatever draft the parser returns satisfies the conditions on the
    constituents of its form. *)
Lemma parseInstruction_keyword_free instruction form a c d e date :
  parseInstruction instruction = inr (Draft.mk form a c d e date) ->
  keyword_free form a c d e = true.
Proof.
  unfold parseInstruction. cbv zeta.
  destruct (negb (nonempty instruction)); [discriminate|].
  destruct (indexOf _ (lit "DEBIT") 0 =? 0).
  - destruct (parseDebitInstruction (normalize instruction)) as [m|dr] eqn:P;
      [discriminate|].
    cbn [catch_SY03]. intro H. inversion H; subst dr; clear H.
    assert (form = DEBIT).
    { revert P. unfold parseDebitInstruction. cbv zeta.
      repeat match goal with
             | |- (if ?b then _ else _) = _ -> _ => destruct b; [discriminate|]
             end.
      destruct (tokens_of _) as [|a0 [|c0 [|x l]]]; try discriminate.
      intro H. now inversion H. }
    subst form. now apply (parseDebit_keyword_free _ _ _ _ _ _ P).
  - destruct (indexOf _ (lit "CREDIT") 0 =? 0); [|discriminate].
    destruct (parseCreditInstruction (normalize instruction)) as [m|dr] eqn:P;
      [discriminate|].
    cbn [catch_SY03]. intro H. inversion H; subst dr; clear H.
    assert (form = CREDIT).
    { revert P. unfold parseCreditInstruction. cbv zeta.
      repeat match goal with
             | |- (if ?b then _ else _) = _ -> _ => destruct b; [discriminate|]
             end.
      destruct (tokens_of _) as [|a0 [|c0 [|x l]]]; try discriminate.
      intro H. now inversion H. }
    subst form. now apply (parseCredit_keyword_free _ _ _ _ _ _ P).
Qed.

End ExtractFacts.

Import ExtractFacts.

(** *** The ways a call ends, and the account store *)

Module StoreFacts.

Lemma find_account_id accounts id acc :
  find_account accounts id = Some acc -> Account.id acc = id.
Proof.
  unfold find_account. intro H. apply find_some in H. destruct H as [_ H].
  now apply str_eqb_eq.
Qed.

Lemma find_account_In accounts id acc :
  find_account accounts id = Some acc -> In acc accounts.
Proof. unfold find_account. intro H. now apply find_some in H. Qed.

(** What [executeTransaction] returns once validation has passed. *)
Lemma executeTransaction_result parsed accounts amountNum debitAcc0 creditAcc0 :
  parseInt (Draft.amount parsed) = Num amountNum ->
  find_account accounts (Draft.debitAccount parsed) = Some debitAcc0 ->
  find_account accounts (Draft.creditAccount parsed) = Some creditAcc0 ->
  Draft.debitAccount parsed <> Draft.creditAccount parsed ->
  executeTransaction parsed accounts =
  Some (mkExecuted
          (entry debitAcc0 (fround (Account.balance debitAcc0 - amountNum)))
          (entry creditAcc0 (fround (Account.balance creditAcc0 + amountNum))),
        transferred parsed accounts amountNum debitAcc0 creditAcc0).
Proof.
  intros Hp Hd Hc Hne. unfold executeTransaction, transferred. rewrite Hp, Hd, Hc.
  rewrite find_set_balance_other by assumption. rewrite Hc.
  rewrite (find_set_balance_other _ (Draft.creditAccount parsed)) by congruence.
  rewrite (find_set_balance_same _ _ _ _ Hd).
  erewrite find_set_balance_same
    by (rewrite find_set_balance_other by assumption; exact Hc).
  reflexivity.
Qed.

(** Every call of the service returns, in one of four ways. *)
Lemma served host accounts instruction :
  exists r accounts',
    paymentInstructionsService host accounts instruction = Some (r, accounts')
    /\ Served host accounts instruction r accounts'.
Proof.
  unfold paymentInstructionsService.
  destruct (parseInstruction instruction) as [f|parsed] eqn:P.
  { eexists _, _. split; [reflexivity|]. now apply served_unparsed. }
  destruct (validateInstruction host parsed accounts) as [v|[]] eqn:V.
  { eexists _, _. split; [reflexivity|]. now apply served_invalid. }
  destruct (shouldExecuteImmediately host (Draft.executeBy parsed)) eqn:S; cbn [negb].
  2:{ eexists _, _. split; [reflexivity|]. now apply served_pending. }
  destruct (validated _ _ _ V) as ((z & Hz & Hpos & dA & cA & Hd & Hc & Hle) & Hne & _).
  rewrite (executeTransaction_result _ _ _ _ _ Hz Hd Hc Hne).
  eexists _, _. split; [reflexivity|]. rewrite Hz.
  now apply served_executed.
Qed.

Lemma served_inv host accounts instruction r accounts' :
  paymentInstructionsService host accounts instruction = Some (r, accounts') ->
  Served host accounts instruction r accounts'.
Proof.
  intro H. destruct (served host accounts instruction) as (r0 & a0 & E & S).
  rewrite E in H. inversion H; subst. exact S.
Qed.

(** **** Assignments to balances *)

Lemma map_id_set_balance accounts id b :
  map Account.id (set_balance accounts id b) = map Account.id accounts.
Proof.
  induction accounts as [|a rest IH]; [reflexivity|].
  simpl. destruct (str_eqb (Account.id a) id); simpl; [reflexivity|now rewrite IH].
Qed.

Lemma map_currency_set_balance accounts id b :
  map Account.currency (set_balance accounts id b) = map Account.currency accounts.
Proof.
  induction accounts as [|a rest IH]; [reflexivity|].
  simpl. destruct (str_eqb (Account.id a) id); simpl; [reflexivity|now rewrite IH].
Qed.

Lemma nth_error_set_balance accounts id b : forall k acc,
  nth_error accounts k = Some acc -> Account.id acc <> id ->
  nth_error (set_balance accounts id b) k = Some acc.
Proof.
  induction accounts as [|a rest IH]; intros k acc H Hne; [destruct k; discriminate|].
  simpl. destruct (str_eqb (Account.id a) id) eqn:E.
  - destruct k as [|k]; [|exact H].
    simpl in H. inversion H; subst. apply str_eqb_eq in E. contradiction.
  - destruct k as [|k]; [exact H|]. simpl in *. now apply IH.
Qed.

Lemma set_balance_same accounts id acc :
  find_account accounts id = Some acc ->
  set_balance accounts id (Account.balance acc) = accounts.
Proof.
  unfold find_account. induction accounts as [|a rest IH]; [discriminate|].
  simpl. destruct (str_eqb (Account.id a) id) eqn:E; intro H.
  - inversion H; subst. now destruct acc.
  - now rewrite IH.
Qed.

Lemma set_balance_twice accounts id b b' :
  set_balance (set_balance accounts id b) id b' = set_balance accounts id b'.
Proof.
  induction accounts as [|a rest IH]; [reflexivity|].
  simpl. destruct (str_eqb (Account.id a) id) eqn:E; simpl; rewrite E;
    [reflexivity|now rewrite IH].
Qed.

Lemma set_balance_comm accounts id1 id2 b1 b2 :
  id1 <> id2 ->
  set_balance (set_balance accounts id1 b1) id2 b2
  = set_balance (set_balance accounts id2 b2) id1 b1.
Proof.
  intro Hne. induction accounts as [|a rest IH]; [reflexivity|].
  simpl. destruct (str_eqb (Account.id a) id1) eqn:E1;
    destruct (str_eqb (Account.id a) id2) eqn:E2; simpl; rewrite ?E1, ?E2.
  - apply str_eqb_eq in E1, E2. congruence.
  - reflexivity.
  - reflexivity.
  - now rewrite IH.
Qed.

Lemma fround_nonneg v : 0 <= v -> 0 <= fround v.
Proof.
  intro H. unfold fround. cbv zeta.
  destruct (Z.abs v <? 2 ^ 53) eqn:E; [exact H|].
  apply Z.ltb_ge in E.
  assert (0 < v) by lia.
  rewrite Z.sgn_pos by assumption.
  rewrite Z.abs_eq by lia.
  assert (0 <= Z.log2 v - 52).
  { assert (53 <= Z.log2 v); [|lia]. apply Z.log2_le_pow2; lia. }
  assert (0 < 2 ^ (Z.log2 v - 52)) by (apply Z.pow_pos_nonneg; lia).
  assert (0 <= v / 2 ^ (Z.log2 v - 52)) by (apply Z.div_pos; lia).
  repeat match goal with |- context [if ?b then _ else _] => destruct b end; nia.
Qed.

End StoreFacts.

Import StoreFacts.

(** *** Responses *)

Module ResponseFacts.

Lemma first_failing_In chain code :
  first_failing chain = Some code -> In code (map fst chain).
Proof.
  induction chain as [|[c holds] rest IH]; [discriminate|].
  simpl. destruct holds; intro H; [right; now apply IH|left; now inversion H].
Qed.

Lemma validation_failure_codes host parsed accounts f :
  validateInstruction host parsed accounts = inl f ->
  In (statusCode f) [AM01; CU02; AC04; AC02; AC03; CU01; AC01; DT01].
Proof.
  intro H. pose proof (validate_first_failing host parsed accounts) as C.
  rewrite H in C. cbn [outcome_code] in C. symmetry in C.
  apply first_failing_In in C. unfold rule_chain in C. cbn [map fst] in C.
  cbn [In] in *. intuition.
Qed.

Lemma failure_code_listed host accounts instruction r accounts' :
  Served host accounts instruction r accounts' ->
  Response.status r = failed -> In (Response.status_code r) failure_codes.
Proof.
  intros S F. destruct S as [f P|parsed f P V| |]; try discriminate F.
  - cbn [Response.status_code].
    destruct (parse_failure_codes _ _ P) as [E|E]; [rewrite E|rewrite E];
      unfold failure_codes; cbn; tauto.
  - cbn [echo Response.status_code].
    pose proof (validation_failure_codes _ _ _ _ V) as I.
    unfold failure_codes. cbn [In] in *. intuition.
Qed.

(** What a passed validation establishes about currencies. *)
Lemma validated_currency host parsed accounts debitAcc0 creditAcc0 :
  validateInstruction host parsed accounts = inr tt ->
  find_account accounts (Draft.debitAccount parsed) = Some debitAcc0 ->
  find_account accounts (Draft.creditAccount parsed) = Some creditAcc0 ->
  includes SUPPORTED_CURRENCIES (Draft.currency parsed) = true
  /\ toUpperCase (Account.currency debitAcc0) = Draft.currency parsed
  /\ toUpperCase (Account.currency creditAcc0) = Draft.currency parsed.
Proof.
  intros H Hd Hc. pose proof (validate_first_failing host parsed accounts) as C.
  rewrite H in C. simpl outcome_code in C. symmetry in C.
  apply first_failing_none in C. unfold rule_chain in C.
  repeat match goal with
         | Hf : Forall _ (_ :: _) |- _ => inversion Hf; subst; clear Hf
         end.
  cbn [snd] in *. unfold debit_lookup, credit_lookup in *.
  rewrite Hd, Hc in *. cbn [currency_matches] in *.
  split; [match goal with Hx : _ = true |- _ => exact Hx end|].
  split; now apply str_eqb_eq.
Qed.

Lemma validated_amount host parsed accounts :
  validateInstruction host parsed accounts = inr tt ->
  amount_well_formed (Draft.amount parsed) = true.
Proof.
  intro H. pose proof (validate_first_failing host parsed accounts) as C.
  rewrite H in C. simpl outcome_code in C. symmetry in C.
  apply first_failing_none in C. unfold rule_chain in C.
  now inversion C.
Qed.

Lemma amount_well_formed_string raw z :
  amount_well_formed raw = true -> parseInt raw = Num z -> to_string (Num z) = raw.
Proof.
  unfold amount_well_formed. intros H E. rewrite E in H. cbv zeta in H.
  apply andb_true_iff in H. destruct H as [_ H].
  apply andb_true_iff in H. destruct H as [_ H].
  symmetry. now apply str_eqb_eq.
Qed.

(** **** Entries *)

Lemma involved_ids parsed (l : list Account.t) (h : jsstring -> Snapshot.t) :
  map (fun acc => h (Account.id acc)) (filter (involved parsed) l)
  = map h (filter (fun i => str_eqb i (Draft.debitAccount parsed)
                            || str_eqb i (Draft.creditAccount parsed))
                  (map Account.id l)).
Proof.
  induction l as [|a l IH]; [reflexivity|].
  cbn [filter map]. unfold involved at 1.
  destruct (str_eqb (Account.id a) (Draft.debitAccount parsed)
            || str_eqb (Account.id a) (Draft.creditAccount parsed));
    cbn [map]; now rewrite IH.
Qed.

Lemma map_id_transferred parsed accounts z dA cA :
  map Account.id (transferred parsed accounts z dA cA) = map Account.id accounts.
Proof. unfold transferred. now rewrite !map_id_set_balance. Qed.

Lemma find_account_NoDup accounts acc :
  NoDup (map Account.id accounts) -> In acc accounts ->
  find_account accounts (Account.id acc) = Some acc.
Proof.
  unfold find_account. induction accounts as [|a l IH]; intros N I; [destruct I|].
  cbn [map] in N. inversion N as [|? ? Hn N']; subst.
  cbn [find]. destruct I as [<-|I].
  - now rewrite str_eqb_refl.
  - destruct (str_eqb (Account.id a) (Account.id acc)) eqn:E; [|now apply IH].
    exfalso. apply Hn. apply str_eqb_eq in E. rewrite E. now apply in_map.
Qed.

Lemma balance_of_transferred_debit parsed accounts z dA cA :
  find_account accounts (Draft.debitAccount parsed) = Some dA ->
  Draft.debitAccount parsed <> Draft.creditAccount parsed ->
  balance_of (transferred parsed accounts z dA cA) (Draft.debitAccount parsed)
  = Some (fround (Account.balance dA - z)).
Proof.
  intros Hd Hne. unfold balance_of, transferred.
  rewrite find_set_balance_other by congruence.
  now rewrite (find_set_balance_same _ _ _ _ Hd).
Qed.

Lemma balance_of_transferred_credit parsed accounts z dA cA :
  find_account accounts (Draft.creditAccount parsed) = Some cA ->
  Draft.debitAccount parsed <> Draft.creditAccount parsed ->
  balance_of (transferred parsed accounts z dA cA) (Draft.creditAccount parsed)
  = Some (fround (Account.balance cA + z)).
Proof.
  intros Hc Hne. unfold balance_of, transferred.
  erewrite find_set_balance_same; [reflexivity|].
  rewrite find_set_balance_other by assumption. exact Hc.
Qed.

Lemma executed_accounts_ids parsed result accounts' :
  Snapshot.id (debitAcc result) = Draft.debitAccount parsed ->
  Snapshot.id (creditAcc result) = Draft.creditAccount parsed ->
  map Snapshot.id (executed_accounts parsed result accounts')
  = map Account.id (filter (involved parsed) accounts').
Proof.
  intros Hd Hc. unfold executed_accounts. rewrite map_map.
  apply map_ext_in. intros a Ha. apply filter_In in Ha. destruct Ha as [_ Ha].
  unfold involved in Ha.
  destruct (str_eqb (Account.id a) (Draft.debitAccount parsed)) eqn:E.
  - apply str_eqb_eq in E. congruence.
  - cbn [orb] in Ha. apply str_eqb_eq in Ha. congruence.
Qed.

Lemma filter_involved_ids parsed l l' :
  map Account.id l = map Account.id l' ->
  map Account.id (filter (involved parsed) l) = map Account.id (filter (involved parsed) l').
Proof.
  intro H.
  pose proof (involved_ids parsed l (fun i => Snapshot.mk i 0 0 [])) as A.
  pose proof (involved_ids parsed l' (fun i => Snapshot.mk i 0 0 [])) as B.
  rewrite H in A. rewrite <- B in A.
  apply (f_equal (map Snapshot.id)) in A. rewrite !map_map in A. exact A.
Qed.

End ResponseFacts.

Import ResponseFacts.

(** *** Variations of the accounts *)

Module RelevanceFacts.

(** **** Validation and execution read the accounts through [find] *)

Lemma validateInstruction_lookups host parsed accounts1 accounts2 :
  find_account accounts1 (Draft.debitAccount parsed)
  = find_account accounts2 (Draft.debitAccount parsed) ->
  find_account accounts1 (Draft.creditAccount parsed)
  = find_account accounts2 (Draft.creditAccount parsed) ->
  validateInstruction host parsed accounts1 = validateInstruction host parsed accounts2.
Proof. intros Hd Hc. unfold validateInstruction. now rewrite Hd, Hc. Qed.

Lemma involved_upper parsed acc :
  involved parsed (upper_currency acc) = involved parsed acc.
Proof. reflexivity. Qed.

Lemma filter_involved_map parsed (f : Account.t -> Account.t) l :
  (forall a, Account.id (f a) = Account.id a) ->
  filter (involved parsed) (map f l) = map f (filter (involved parsed) l).
Proof.
  intro H. induction l as [|a l IH]; [reflexivity|].
  cbn [map filter].
  assert (E : involved parsed (f a) = involved parsed a)
    by (unfold involved; now rewrite H).
  rewrite E. destruct (involved parsed a); cbn [map]; now rewrite IH.
Qed.

Lemma find_account_map (f : Account.t -> Account.t) l id :
  (forall a, Account.id (f a) = Account.id a) ->
  find_account (map f l) id = option_map f (find_account l id).
Proof.
  intro H. unfold find_account. induction l as [|a l IH]; [reflexivity|].
  cbn [map find]. rewrite H. destruct (str_eqb (Account.id a) id); [reflexivity|exact IH].
Qed.

Lemma set_balance_upper l id b :
  set_balance (map upper_currency l) id b = map upper_currency (set_balance l id b).
Proof.
  induction l as [|a l IH]; [reflexivity|].
  cbn [map set_balance]. cbn [upper_currency Account.id].
  destruct (str_eqb (Account.id a) id); cbn [map]; [reflexivity|now rewrite IH].
Qed.

Lemma validateInstruction_upper host parsed accounts :
  validateInstruction host parsed (map upper_currency accounts)
  = validateInstruction host parsed accounts.
Proof.
  unfold validateInstruction.
  rewrite !(find_account_map upper_currency) by reflexivity.
  destruct (find_account accounts (Draft.debitAccount parsed)) as [dA|];
    destruct (find_account accounts (Draft.creditAccount parsed)) as [cA|];
    cbn [option_map upper_currency Account.currency Account.balance];
    rewrite ?toUpperCase_idem; reflexivity.
Qed.

Lemma untouched_accounts_upper parsed accounts :
  untouched_accounts parsed (map upper_currency accounts)
  = untouched_accounts parsed accounts.
Proof.
  unfold untouched_accounts.
  rewrite (filter_involved_map parsed upper_currency) by reflexivity.
  rewrite map_map. apply map_ext. intro a.
  cbn [upper_currency Account.id Account.balance Account.currency].
  now rewrite toUpperCase_idem.
Qed.

Lemma executed_accounts_upper parsed result accounts :
  executed_accounts parsed result (map upper_currency accounts)
  = executed_accounts parsed result accounts.
Proof.
  unfold executed_accounts.
  rewrite (filter_involved_map parsed upper_currency) by reflexivity.
  rewrite map_map. reflexivity.
Qed.

Lemma executeTransaction_upper parsed accounts :
  executeTransaction parsed (map upper_currency accounts)
  = option_map (fun p => (fst p, map upper_currency (snd p)))
               (executeTransaction parsed accounts).
Proof.
  unfold executeTransaction.
  destruct (parseInt (Draft.amount parsed)) as [|z|]; try reflexivity.
  rewrite !(find_account_map upper_currency) by reflexivity.
  destruct (find_account accounts (Draft.debitAccount parsed)) as [dA|]; [|reflexivity].
  destruct (find_account accounts (Draft.creditAccount parsed)) as [cA|]; [|reflexivity].
  cbn [option_map upper_currency Account.balance].
  rewrite set_balance_upper, (find_account_map upper_currency) by reflexivity.
  destruct (find_account (set_balance accounts _ _) (Draft.creditAccount parsed))
    as [cA1|]; [|reflexivity].
  cbn [option_map upper_currency Account.balance].
  rewrite set_balance_upper, !(find_account_map upper_currency) by reflexivity.
  destruct (find_account _ (Draft.debitAccount parsed)) as [dA2|]; [|reflexivity].
  destruct (find_account _ (Draft.creditAccount parsed)) as [cA2|]; [|reflexivity].
  cbn [option_map upper_currency Account.id Account.balance Account.currency fst snd].
  now rewrite !toUpperCase_idem.
Qed.

(** **** Accounts that the instruction does not name *)

Lemma find_account_filter parsed l id :
  id = Draft.debitAccount parsed \/ id = Draft.creditAccount parsed ->
  find_account (filter (involved parsed) l) id = find_account l id.
Proof.
  intro H. unfold find_account. induction l as [|a l IH]; [reflexivity|].
  cbn [filter find]. destruct (involved parsed a) eqn:I.
  - cbn [find]. destruct (str_eqb (Account.id a) id); [reflexivity|exact IH].
  - destruct (str_eqb (Account.id a) id) eqn:E; [|exact IH].
    exfalso. apply str_eqb_eq in E. unfold involved in I.
    apply orb_false_iff in I. destruct I as [I1 I2].
    apply str_eqb_neq in I1, I2. destruct H; congruence.
Qed.

Lemma set_balance_filter parsed l id b :
  id = Draft.debitAccount parsed \/ id = Draft.creditAccount parsed ->
  set_balance (filter (involved parsed) l) id b
  = filter (involved parsed) (set_balance l id b).
Proof.
  intro H. induction l as [|a l IH]; [reflexivity|].
  cbn [filter set_balance].
  destruct (str_eqb (Account.id a) id) eqn:E.
  - assert (I : involved parsed a = true).
    { unfold involved. apply str_eqb_eq in E. apply orb_true_iff.
      destruct H as [H|H]; [left|right]; apply str_eqb_eq; congruence. }
    rewrite I. cbn [set_balance filter]. rewrite E.
    unfold involved in *. cbn [Account.id]. now rewrite I.
  - cbn [filter]. destruct (involved parsed a); [|exact IH].
    cbn [set_balance]. now rewrite E, IH.
Qed.

Lemma filter_involved_idem parsed l :
  filter (involved parsed) (filter (involved parsed) l) = filter (involved parsed) l.
Proof.
  induction l as [|a l IH]; [reflexivity|].
  cbn [filter]. destruct (involved parsed a) eqn:E; [|exact IH].
  cbn [filter]. now rewrite E, IH.
Qed.

Lemma executeTransaction_filter parsed accounts :
  executeTransaction parsed (filter (involved parsed) accounts)
  = option_map (fun p => (fst p, filter (involved parsed) (snd p)))
               (executeTransaction parsed accounts).
Proof.
  unfold executeTransaction.
  destruct (parseInt (Draft.amount parsed)) as [|z|]; try reflexivity.
  rewrite !find_account_filter by tauto.
  destruct (find_account accounts (Draft.debitAccount parsed)) as [dA|]; [|reflexivity].
  destruct (find_account accounts (Draft.creditAccount parsed)) as [cA|]; [|reflexivity].
  rewrite set_balance_filter, find_account_filter by tauto.
  destruct (find_account (set_balance accounts _ _) (Draft.creditAccount parsed))
    as [cA1|]; [|reflexivity].
  rewrite set_balance_filter, !find_account_filter by tauto.
  destruct (find_account _ (Draft.debitAccount parsed)) as [dA2|]; [|reflexivity].
  destruct (find_account _ (Draft.creditAccount parsed)) as [cA2|]; reflexivity.
Qed.

(** **** Passing validation *)

Lemma first_failing_all chain :
  Forall (fun p => snd p = true) chain -> first_failing chain = None.
Proof.
  induction 1 as [|[code holds] rest H _ IH]; [reflexivity|].
  cbn [snd] in H. subst holds. exact IH.
Qed.

Lemma validate_passes host parsed accounts :
  Forall (fun p => snd p = true) (rule_chain host parsed accounts) ->
  validateInstruction host parsed accounts = inr tt.
Proof.
  intro H. apply first_failing_all in H.
  rewrite <- validate_first_failing in H.
  destruct (validateInstruction host parsed accounts) as [f|[]]; [discriminate|reflexivity].
Qed.

Lemma validated_rules host parsed accounts :
  validateInstruction host parsed accounts = inr tt ->
  Forall (fun p => snd p = true) (rule_chain host parsed accounts).
Proof.
  intro H. apply first_failing_none. rewrite <- validate_first_failing. now rewrite H.
Qed.

End RelevanceFacts.

Import RelevanceFacts.

(** *** The clock, and accounts that share an id *)

Module ClockFacts.

(** A rejected date: one of the checks of [validateDate] fails. *)
Ltac date_case :=
  cbn [negb orb andb];
  try (split; [discriminate
              |let H := fresh in
               intros [H _]; cbn [andb] in H; rewrite ?andb_false_r in H;
               cbn [andb] in H; discriminate H]).

Lemma validateDate_at_clock host instant dateStr :
  validateDate (at_clock host instant) dateStr = validateDate host dateStr.
Proof. reflexivity. Qed.

Lemma validateInstruction_at_clock host instant parsed accounts :
  validateInstruction (at_clock host instant) parsed accounts
  = validateInstruction host parsed accounts.
Proof. reflexivity. Qed.

(** An assignment to a balance reaches the first account of the id only. *)
Lemma set_balance_shadowed id bal : forall l j k a b,
  (j < k)%nat -> nth_error l j = Some a -> nth_error l k = Some b ->
  Account.id a = Account.id b ->
  nth_error (set_balance l id bal) k = Some b.
Proof.
  induction l as [|x l IH]; intros j k a b Hjk Hj Hk Hid; [destruct j; discriminate|].
  destruct k as [|k]; [lia|]. cbn [set_balance].
  destruct (str_eqb (Account.id x) id) eqn:E; [exact Hk|].
  cbn [nth_error] in *. destruct j as [|j].
  - cbn [nth_error] in Hj. inversion Hj; subst x.
    apply nth_error_set_balance; [exact Hk|].
    apply str_eqb_neq in E. congruence.
  - apply (IH j k a b); [lia|exact Hj|exact Hk|exact Hid].
Qed.

Lemma nth_error_set_balance_id id bal l j a :
  nth_error l j = Some a ->
  exists a', nth_error (set_balance l id bal) j = Some a' /\ Account.id a' = Account.id a.
Proof.
  intro H. pose proof (map_id_set_balance l id bal) as M.
  apply (f_equal (fun m => nth_error m j)) in M.
  rewrite !nth_error_map, H in M. cbn [option_map] in M.
  destruct (nth_error (set_balance l id bal) j) as [a'|]; [|discriminate].
  exists a'. split; [reflexivity|]. now inversion M.
Qed.

End ClockFacts.

Import ClockFacts.

(** *** Keyword searches and the keyword before *)

Module BoundFacts.














End BoundFacts.

Import BoundFacts.

(** ** The claims *)

(** C1 (the code departs from the claim).  A keyword of the fixed sequence
    that cannot be found is reported with code SY03, not SY01, and keywords
    that are all found but out of order are reported with code SY03, not
    SY02: both errors are thrown, and the [catch] clause of
    [parseInstruction] gives every thrown error the code SY03, keeping only
    its message.  Here FROM is missing in the first instruction, and in the
    second every keyword is found while ACCOUNT (after FROM) lies behind
    FOR. *)
Theorem keyword_failures_reported_as_SY03 :
  parseInstruction (lit "DEBIT 100 USD TO ACCOUNT b")
  = inl (mkFailure SY03 (lit "Missing required keyword: FROM"))
  /\ parseInstruction (lit "DEBIT 100 USD FOR CREDIT TO ACCOUNT b FROM ACCOUNT a")
     = inl (mkFailure SY03 (STATUS_CODES SY02)).
Proof. split; vm_compute; reflexivity. Qed.

(** C2, as stated, fails where double arithmetic rounds: crediting 1 to a
    balance of 2^53 leaves the balance at 2^53, and the sum of the balances
    drops by 1. *)
Lemma conservation_counterexample :
  exists r accounts',
    paymentInstructionsService reference_host
      [acct "a" 1 "USD"; acct "b" 9007199254740992 "USD"]
      (lit "DEBIT 1 USD FROM ACCOUNT a FOR CREDIT TO ACCOUNT b")
    = Some (r, accounts')
    /\ Response.status r = successful
    /\ Response.amount r = Some (Num 1)
    /\ balance_of [acct "a" 1 "USD"; acct "b" 9007199254740992 "USD"] (lit "b")
       = Some 9007199254740992
    /\ balance_of accounts' (lit "b") <> Some (9007199254740992 + 1)
    /\ total accounts' <> total [acct "a" 1 "USD"; acct "b" 9007199254740992 "USD"].
Proof.
  eexists _, _. split; [vm_compute; reflexivity|].
  repeat split; try reflexivity; vm_compute; discriminate.
Qed.

(** C2 (amended).  Every call returns a response.  When its status is
    failed or pending, the accounts are left as they were.  When it is
    successful, the response carries a positive amount, and, provided the
    debit balance and the credited balance are integers that doubles hold
    exactly (magnitude at most 2^53), the debit account's balance has
    decreased by exactly the amount, the credit account's balance has
    increased by exactly the amount, and the sum of all balances is
    unchanged. *)
Theorem conservation host accounts instruction :
  exists r accounts',
    paymentInstructionsService host accounts instruction = Some (r, accounts')
    /\ (Response.status r <> successful -> accounts' = accounts)
    /\ (Response.status r = successful ->
        exists amt d c bd bc,
          Response.amount r = Some (Num amt) /\ 0 < amt
          /\ Response.debit_account r = Some d /\ Response.credit_account r = Some c
          /\ balance_of accounts d = Some bd /\ balance_of accounts c = Some bc
          /\ (safe bd -> safe (bc + amt) ->
              balance_of accounts' d = Some (bd - amt)
              /\ balance_of accounts' c = Some (bc + amt)
              /\ total accounts' = total accounts)).
Proof.
  unfold paymentInstructionsService.
  destruct (parseInstruction instruction) as [f|parsed].
  { eexists _, _. split; [reflexivity|]. split; [reflexivity|]. discriminate. }
  destruct (validateInstruction host parsed accounts) as [v|[]] eqn:V.
  { eexists _, _. split; [reflexivity|]. split; [reflexivity|]. discriminate. }
  destruct (shouldExecuteImmediately host (Draft.executeBy parsed)); cbn [negb].
  2:{ eexists _, _. split; [reflexivity|]. split; [reflexivity|]. discriminate. }
  destruct (validated _ _ _ V) as ((z & Hz & Hpos & dA & cA & Hd & Hc & Hle) & Hne & _).
  destruct (executeTransaction_distinct _ _ _ _ _ Hz Hd Hc Hne) as (result & E).
  rewrite E. eexists _, _. split; [reflexivity|].
  cbn [Response.status Response.amount Response.debit_account Response.credit_account].
  split; [intro N; now contradiction N|]. intros _.
  exists z, (Draft.debitAccount parsed), (Draft.creditAccount parsed),
    (Account.balance dA), (Account.balance cA).
  rewrite Hz. unfold balance_of. rewrite Hd, Hc. cbn [option_map].
  repeat (split; [reflexivity || assumption|]).
  intros Sd Sc.
  assert (Sd' : safe (Account.balance dA - z)) by (unfold safe in *; lia).
  rewrite (fround_safe _ Sd'), (fround_safe _ Sc).
  assert (Hc1 : find_account
                  (set_balance accounts (Draft.debitAccount parsed) (Account.balance dA - z))
                  (Draft.creditAccount parsed) = Some cA)
    by (rewrite find_set_balance_other by assumption; exact Hc).
  split; [|split].
  - rewrite find_set_balance_other by congruence.
    now rewrite (find_set_balance_same _ _ _ _ Hd).
  - now rewrite (find_set_balance_same _ _ _ _ Hc1).
  - rewrite (total_set_balance _ _ _ _ Hc1), (total_set_balance _ _ _ _ Hd). lia.
Qed.

Lemma conservation_witness :
  exists r accounts',
    paymentInstructionsService reference_host
      [acct "N90394" 1000 "USD"; acct "N9122" 500 "USD"]
      (lit "DEBIT 500 USD FROM ACCOUNT N90394 FOR CREDIT TO ACCOUNT N9122")
    = Some (r, accounts')
    /\ Response.status r = successful
    /\ balance_of accounts' (lit "N90394") = Some 500
    /\ balance_of accounts' (lit "N9122") = Some 1000
    /\ total accounts' = 1500.
Proof.
  destruct (conservation reference_host
              [acct "N90394" 1000 "USD"; acct "N9122" 500 "USD"]
              (lit "DEBIT 500 USD FROM ACCOUNT N90394 FOR CREDIT TO ACCOUNT N9122"))
    as (r & accounts' & Hs & _ & Hok).
  exists r, accounts'. split; [exact Hs|].
  vm_compute in Hs. inversion Hs; subst r accounts'; clear Hs.
  split; [reflexivity|].
  destruct (Hok eq_refl) as (amt & d & c & bd & bc & Ha & _ & Hd & Hc & Hbd & Hbc & H).
  inversion Ha; subst amt. inversion Hd; subst d. inversion Hc; subst c.
  vm_compute in Hbd, Hbc. inversion Hbd; subst bd. inversion Hbc; subst bc.
  destruct H as (H1 & H2 & H3); [unfold safe; simpl; lia | unfold safe; simpl; lia |].
  split; [exact H1|]. split; [exact H2|]. rewrite H3. reflexivity.
Defined.

(** C3 (the code departs from the claim).  Validation returns the code of
    the first failing rule of the chain AM01, CU02, AC04 (debit, then
    credit), AC02, AC03 (debit, then credit), CU01 (debit, then credit),
    AC01, DT01 (only for a date that was supplied), and success when no
    rule fails, where the date rule is what [validateDate] answers; the
    ten rules before it are those of the specification.  The date rule is
    not: [validateDate] leaves the calendar to the host's [Date], which
    reads a day from 29 to 31 beyond the length of its month as a day of
    the next month.  The date [2025-02-30] is no calendar date, so the
    first failing rule of the specified chain is DT01; the code reads it as
    2 March 2025, validation passes, and the transfer is executed. *)
Theorem impossible_date_passes_validation :
  let instruction :=
    lit "DEBIT 100 USD FROM ACCOUNT a FOR CREDIT TO ACCOUNT b ON 2025-02-30" in
  let accounts := [acct "a" 500 "USD"; acct "b" 200 "USD"] in
  let parsed :=
    Draft.mk DEBIT (lit "100") (lit "USD") (lit "a") (lit "b") (Some (lit "2025-02-30")) in
  (forall host draft accts,
      outcome_code (validateInstruction host draft accts)
      = first_failing (rule_chain host draft accts))
  /\ (forall host draft accts,
      firstn 10 (rule_chain host draft accts) = firstn 10 (specified_chain draft accts))
  /\ parseInstruction instruction = inr parsed
  /\ real_calendar_date (lit "2025-02-30") = false
  /\ first_failing (specified_chain parsed accounts) = Some DT01
  /\ validateDate reference_host (lit "2025-02-30")
     = inr (days_from_civil 2025 3 2 * msPerDay)
  /\ validateInstruction reference_host parsed accounts = inr tt
  /\ option_map (fun p => (Response.status (fst p), Response.status_code (fst p),
                           Response.execute_by (fst p), map Account.balance (snd p)))
       (paymentInstructionsService reference_host accounts instruction)
     = Some (successful, AP00, Some (lit "2025-02-30"), [400; 300]).
Proof.
  cbv zeta. split; [exact validate_first_failing|].
  split; [reflexivity|].
  repeat split; vm_compute; reflexivity.
Qed.

(** C4, as stated, fails for an identifier that contains a keyword: the
    credit account [jon] is cut at its [on], which is taken for the ON
    keyword; and the currency is returned in upper case, not as written. *)
Lemma grammar_counterexample :
  words (lit "DEBIT 100 USD FROM ACCOUNT a FOR CREDIT TO ACCOUNT jon")
  = debit_form UPPERCASE (lit "100") (lit "USD") (lit "a") (lit "jon") NoOn
  /\ isValidAccountId (lit "a") = true /\ isValidAccountId (lit "jon") = true
  /\ parseInstruction (lit "DEBIT 100 USD FROM ACCOUNT a FOR CREDIT TO ACCOUNT jon")
     = inr (Draft.mk DEBIT (lit "100") (lit "USD") (lit "a") (lit "j") (Some []))
  /\ parseInstruction (lit "DEBIT 100 USD FROM ACCOUNT a FOR CREDIT TO ACCOUNT jon")
     <> inr (Draft.mk DEBIT (lit "100") (lit "USD") (lit "a") (lit "jon") None)
  /\ parseInstruction (lit "DEBIT 100 usd FROM ACCOUNT a FOR CREDIT TO ACCOUNT b")
     = inr (Draft.mk DEBIT (lit "100") (lit "USD") (lit "a") (lit "b") None).
Proof.
  repeat split; try (vm_compute; reflexivity). vm_compute. discriminate.
Qed.

(** C4 (amended).  For every instruction of ASCII text whose words are
    those of one of the two grammars, with keywords in any letter case, an
    amount and a currency free of white space, account identifiers of the AC04 character
    set and an optional date free of white space, and in which no
    constituent contains a keyword that the scan looks for across it
    ([keyword_free]), the parser succeeds and returns the amount, the two
    account identifiers and the date as written, and the currency in upper
    case. *)
Theorem grammar_parses form k a c d e ending instruction :
  ascii_text instruction = true ->
  well_spelled k ->
  clean a = true -> clean c = true ->
  isValidAccountId d = true -> isValidAccountId e = true ->
  ending_ok ending = true ->
  keyword_free form a c d e = true ->
  words instruction = form_words form k a c d e ending ->
  parseInstruction instruction =
  inr (Draft.mk form a (toUpperCase c) d e (ending_date ending)).
Proof.
  intros. apply (parseInstruction_grammar form k); auto using valid_id_clean.
Qed.

Lemma grammar_parses_witness :
  parseInstruction
    (lit "  credit  300 ngn To Account acc-002 for DEBIT from ACCOUNT acc-001 on 2026-12-31 ")
  = inr (Draft.mk CREDIT (lit "300") (lit "NGN") (lit "acc-001") (lit "acc-002")
                  (Some (lit "2026-12-31"))).
Proof.
  apply (grammar_parses CREDIT
           (mkKeywords (lit "DEBIT") (lit "from") (lit "credit") (lit "To")
                       (lit "Account") (lit "ACCOUNT") (lit "for") (lit "on"))
           (lit "300") (lit "ngn") (lit "acc-001") (lit "acc-002")
           (OnDate (lit "2026-12-31")));
    try reflexivity.
  repeat split; reflexivity.
Defined.







(** C7, as stated, fails beyond the range of doubles: 10^21 in canonical
    decimal notation reads as a number that prints as [1e+21], so it is
    rejected with AM01. *)
Lemma amount_rule_counterexample :
  canonicalb (lit "1000000000000000000000") = true
  /\ parseInstruction
       (lit "DEBIT 1000000000000000000000 USD FROM ACCOUNT a FOR CREDIT TO ACCOUNT b")
     = inr (Draft.mk DEBIT (lit "1000000000000000000000") (lit "USD") (lit "a") (lit "b") None)
  /\ to_string (parseInt (lit "1000000000000000000000")) = lit "1e+21"
  /\ outcome_code
       (validateInstruction reference_host
          (Draft.mk DEBIT (lit "1000000000000000000000") (lit "USD") (lit "a") (lit "b") None)
          [acct "a" 2000000000000000000000 "USD"; acct "b" 200 "USD"])
     = Some AM01.
Proof. repeat split; vm_compute; reflexivity. Qed.

(** The same happens just above 2^53, where reading the digits rounds. *)
Example amount_beyond_safe_range_rejected :
  canonicalb (lit "9007199254740993") = true
  /\ parseInt (lit "9007199254740993") = Num 9007199254740992
  /\ amount_well_formed (lit "9007199254740993") = false.
Proof. repeat split; vm_compute; reflexivity. Qed.

(** C7 (amended).  For every raw amount string, the amount rule fails with
    AM01 whenever the string is not the canonical base-10 notation of a
    strictly positive integer (so a [.], a [-], a leading zero or a trailing
    non-digit character yields AM01), and every canonical string whose
    value is at most 2^53 - 1 passes the rule. *)
Theorem amount_rule_canonical host parsed accounts :
  (canonicalb (Draft.amount parsed) = false ->
   outcome_code (validateInstruction host parsed accounts) = Some AM01)
  /\ (canonicalb (Draft.amount parsed) = true ->
      digits_value (Draft.amount parsed) <= MAX_SAFE_INTEGER ->
      outcome_code (validateInstruction host parsed accounts) <> Some AM01).
Proof.
  rewrite validate_first_failing. split.
  - intro H. apply first_failing_AM01.
    destruct (amount_well_formed (Draft.amount parsed)) eqn:E; [|reflexivity].
    apply amount_passes_canonical in E. congruence.
  - intros Hc Hv F. apply first_failing_AM01 in F.
    rewrite amount_canonical_passes in F by assumption. discriminate.
Qed.

Lemma amount_rule_canonical_witness :
  outcome_code
    (validateInstruction reference_host
       (Draft.mk DEBIT (lit "500") (lit "USD") (lit "N90394") (lit "N9122") None)
       [acct "N90394" 1000 "USD"; acct "N9122" 500 "USD"])
  <> Some AM01.
Proof.
  apply (proj2 (amount_rule_canonical reference_host
           (Draft.mk DEBIT (lit "500") (lit "USD") (lit "N90394") (lit "N9122") None)
           [acct "N90394" 1000 "USD"; acct "N9122" 500 "USD"])).
  - reflexivity.
  - vm_compute. discriminate.
Defined.

(** The examples of the claim: each of them yields AM01. *)
Example noncanonical_amounts_rejected :
  map (fun raw => (canonicalb (lit raw), amount_well_formed (lit raw)))
      ["0100"; "100.0"; "-5"; "12x"; "0"]%string
  = [(false, false); (false, false); (false, false); (false, false);
     (false, false)].
Proof. vm_compute. reflexivity. Qed.

(** C8.  For every request that reaches the scheduling decision (its
    instruction parsed and its draft validated), the branch of
    [shouldExecuteImmediately] that defers because the date is invalid is
    not taken: the date is absent, empty, or has passed [validateDate]; a
    deferred answer comes from a valid date after the current day. *)
Theorem invalid_date_branch_unreachable host accounts instruction parsed :
  parseInstruction instruction = inr parsed ->
  validateInstruction host parsed accounts = inr tt ->
  invalid_date_branch host (Draft.executeBy parsed) = false
  /\ (shouldExecuteImmediately host (Draft.executeBy parsed) = false ->
      exists dateStr targetDate,
        Draft.executeBy parsed = Some dateStr
        /\ validateDate host dateStr = inr targetDate
        /\ utc_midnight host (now host) < utc_midnight host targetDate).
Proof.
  intros _ V. destruct (validated _ _ _ V) as (_ & _ & D).
  unfold date_well_formed in D.
  unfold invalid_date_branch, shouldExecuteImmediately, truthy.
  destruct (Draft.executeBy parsed) as [dateStr|]; [|split; [reflexivity|discriminate]].
  destruct (nonempty dateStr); [|split; [reflexivity|discriminate]].
  destruct (validateDate host dateStr) as [f|targetDate] eqn:E; [discriminate|].
  split; [reflexivity|]. cbn [negb]. intro H. apply Z.leb_gt in H.
  exists dateStr, targetDate. auto.
Qed.

Lemma invalid_date_branch_unreachable_witness :
  invalid_date_branch reference_host (Some (lit "2026-12-31")) = false.
Proof.
  apply (invalid_date_branch_unreachable reference_host
           [acct "acc-001" 1000 "NGN"; acct "acc-002" 500 "NGN"]
           (lit "CREDIT 300 NGN TO ACCOUNT acc-002 FOR DEBIT FROM ACCOUNT acc-001 ON 2026-12-31")
           (Draft.mk CREDIT (lit "300") (lit "NGN") (lit "acc-001") (lit "acc-002")
                     (Some (lit "2026-12-31"))));
    vm_compute; reflexivity.
Defined.



(** C10.  In every validation-failure response the amount field is the
    number that [parseInt] reads from the raw amount string when that
    number is neither NaN nor 0, and null when it is NaN or 0. *)
Theorem validation_failure_amount host accounts instruction parsed validation r accounts' :
  parseInstruction instruction = inr parsed ->
  validateInstruction host parsed accounts = inl validation ->
  paymentInstructionsService host accounts instruction = Some (r, accounts') ->
  Response.status r = failed
  /\ (parseInt (Draft.amount parsed) = NaN -> Response.amount r = None)
  /\ (parseInt (Draft.amount parsed) = Num 0 -> Response.amount r = None)
  /\ (forall n, parseInt (Draft.amount parsed) = n -> n <> NaN -> n <> Num 0 ->
      Response.amount r = Some n).
Proof.
  intros P V S. unfold paymentInstructionsService in S. rewrite P, V in S.
  inversion S; subst; clear S.
  cbn [Response.status Response.amount].
  split; [reflexivity|]. split; [|split].
  - intro E. now rewrite E.
  - intro E. now rewrite E.
  - intros n E Hnan Hzero. rewrite E.
    destruct n as [|z|s]; cbn [or_null]; try reflexivity; [congruence|].
    destruct (Z.eqb_spec z 0); [subst; congruence|reflexivity].
Qed.

Lemma validation_failure_amount_witness :
  exists r accounts',
    paymentInstructionsService reference_host
      [acct "a" 500 "USD"; acct "b" 200 "USD"]
      (lit "DEBIT -100 USD FROM ACCOUNT a FOR CREDIT TO ACCOUNT b")
    = Some (r, accounts')
    /\ Response.status r = failed
    /\ Response.status_code r = AM01
    /\ Response.amount r = Some (Num (-100)).
Proof.
  eexists _, _. split; [vm_compute; reflexivity|].
  edestruct (validation_failure_amount reference_host
               [acct "a" 500 "USD"; acct "b" 200 "USD"]
               (lit "DEBIT -100 USD FROM ACCOUNT a FOR CREDIT TO ACCOUNT b"))
    as (H1 & _ & _ & H4);
    [vm_compute; reflexivity | vm_compute; reflexivity | vm_compute; reflexivity |].
  split; [exact H1|]. split; [reflexivity|].
  apply H4; [vm_compute; reflexivity | discriminate | discriminate].
Defined.

(** The other examples of the claim: raw amounts [0] and [abc] are
    reported as null. *)
Example amount_zero_reported_null :
  reported_amount
    (paymentInstructionsService reference_host
       [acct "a" 500 "USD"; acct "b" 200 "USD"]
       (lit "DEBIT 0 USD FROM ACCOUNT a FOR CREDIT TO ACCOUNT b"))
  = Some None.
Proof. vm_compute. reflexivity. Qed.

Example amount_word_reported_null :
  reported_amount
    (paymentInstructionsService reference_host
       [acct "a" 500 "USD"; acct "b" 200 "USD"]
       (lit "DEBIT abc USD FROM ACCOUNT a FOR CREDIT TO ACCOUNT b"))
  = Some None.
Proof. vm_compute. reflexivity. Qed.

(** ** Further properties of the parser *)

(** X1.  Letter case matters to the parser only in what it returns: an
    instruction of ASCII text, put in upper case, fails with the same
    error, or parses to the same draft with its texts in upper case. *)
Theorem parser_ignores_letter_case instruction :
  ascii_text instruction = true ->
  parseInstruction (toUpperCase instruction) = upper_result (parseInstruction instruction).
Proof. intros _. apply parseInstruction_toUpperCase. Qed.

Lemma parser_ignores_letter_case_witness :
  parseInstruction
    (toUpperCase (lit "debit 100 usd from account acc-001 for credit to account acc-002"))
  = upper_result
      (parseInstruction (lit "debit 100 usd from account acc-001 for credit to account acc-002")).
Proof. apply parser_ignores_letter_case. reflexivity. Defined.

(** X2.  Normalizing is idempotent, and the service answers an instruction
    that has at least one word as it answers the normalized instruction:
    white space around the instruction and runs of spaces between its words
    are of no effect. *)
Theorem spacing_is_immaterial host accounts instruction :
  words instruction <> [] ->
  normalize (normalize instruction) = normalize instruction
  /\ paymentInstructionsService host accounts (normalize instruction)
     = paymentInstructionsService host accounts instruction.
Proof.
  intro H. split; [apply normalize_idem|].
  unfold paymentInstructionsService. now rewrite parseInstruction_normalize.
Qed.

Lemma spacing_is_immaterial_witness :
  paymentInstructionsService reference_host [acct "a" 500 "GBP"; acct "b" 200 "GBP"]
    (normalize (lit "  debit   100 gbp from  account a for credit to account b "))
  = paymentInstructionsService reference_host [acct "a" 500 "GBP"; acct "b" 200 "GBP"]
      (lit "  debit   100 gbp from  account a for credit to account b ").
Proof.
  apply (spacing_is_immaterial reference_host [acct "a" 500 "GBP"; acct "b" 200 "GBP"]
           (lit "  debit   100 gbp from  account a for credit to account b ")).
  vm_compute. discriminate.
Defined.

(** X3.  An instruction of white space only is answered with SY01 (the type
    keyword is missing), the empty instruction with SY03. *)
Theorem blank_instruction instruction :
  forallb is_white instruction = true ->
  parseInstruction instruction
  = inl (if nonempty instruction
         then mkFailure SY01 (lit "Missing required keyword: DEBIT or CREDIT")
         else mkFailure SY03 (STATUS_CODES SY03)).
Proof.
  intro H. unfold parseInstruction, normalize.
  destruct (nonempty instruction); [|reflexivity].
  now rewrite words_white.
Qed.

Lemma blank_instruction_witness :
  parseInstruction (lit "   ")
  = inl (mkFailure SY01 (lit "Missing required keyword: DEBIT or CREDIT")).
Proof. apply (blank_instruction (lit "   ")). reflexivity. Defined.

(** X4.  The fields of a draft: the amount and the currency are words (not
    empty, no space inside), the currency is in upper case, and the account
    identifiers and the date carry no white space at either end. *)
Theorem draft_fields_trimmed instruction parsed :
  parseInstruction instruction = inr parsed ->
  (nonempty (Draft.amount parsed) = true /\ spaceless (Draft.amount parsed) = true)
  /\ (nonempty (Draft.currency parsed) = true /\ spaceless (Draft.currency parsed) = true)
  /\ toUpperCase (Draft.currency parsed) = Draft.currency parsed
  /\ trim (Draft.debitAccount parsed) = Draft.debitAccount parsed
  /\ trim (Draft.creditAccount parsed) = Draft.creditAccount parsed
  /\ (forall date, Draft.executeBy parsed = Some date -> trim date = date).
Proof.
  unfold parseInstruction. cbv zeta.
  destruct (negb (nonempty instruction)); [discriminate|].
  set (n := normalize instruction).
  assert (T : forall x p, tokens_of x = p ->
                forall w, In w p -> nonempty w = true /\ spaceless w = true).
  { intros x p <- w Hw. split.
    - pose proof (tokens_of_nonempty x) as F. rewrite Forall_forall in F. now apply F.
    - pose proof (tokens_of_spaceless x) as F. rewrite Forall_forall in F. now apply F. }
  assert (D : forall p date, date_part n p = Some date -> trim date = date).
  { intros p date. unfold date_part. destruct (onPos p >? accountPos2 p); [|discriminate].
    intro E. inversion E. apply trim_idem. }
  assert (S : forall p, trim (second_account n p) = second_account n p).
  { intro p. unfold second_account. destruct (onPos p >? accountPos2 p); apply trim_idem. }
  destruct (indexOf _ (lit "DEBIT") 0 =? 0).
  - unfold parseDebitInstruction. cbv zeta.
    repeat match goal with
           | |- catch_SY03 (if ?b then _ else _) = _ -> _ => destruct b; [discriminate|]
           end.
    destruct (tokens_of _) as [|a [|c [|x l]]] eqn:Tk; try discriminate.
    cbn [catch_SY03]. intro H. inversion H; subst parsed; clear H.
    cbn [Draft.amount Draft.currency Draft.debitAccount Draft.creditAccount Draft.executeBy].
    destruct (T _ _ Tk a (or_introl eq_refl)) as [Na Sa].
    destruct (T _ _ Tk c (or_intror (or_introl eq_refl))) as [Nc Sc].
    rewrite nonempty_toUpperCase, spaceless_toUpperCase, toUpperCase_idem, trim_idem.
    repeat split; try assumption; [apply S|apply D].
  - destruct (indexOf _ (lit "CREDIT") 0 =? 0); [|discriminate].
    unfold parseCreditInstruction. cbv zeta.
    repeat match goal with
           | |- catch_SY03 (if ?b then _ else _) = _ -> _ => destruct b; [discriminate|]
           end.
    destruct (tokens_of _) as [|a [|c [|x l]]] eqn:Tk; try discriminate.
    cbn [catch_SY03]. intro H. inversion H; subst parsed; clear H.
    cbn [Draft.amount Draft.currency Draft.debitAccount Draft.creditAccount Draft.executeBy].
    destruct (T _ _ Tk a (or_introl eq_refl)) as [Na Sa].
    destruct (T _ _ Tk c (or_intror (or_introl eq_refl))) as [Nc Sc].
    rewrite nonempty_toUpperCase, spaceless_toUpperCase, toUpperCase_idem, trim_idem.
    repeat split; try assumption; [apply S|apply D].
Qed.

Lemma draft_fields_trimmed_witness :
  toUpperCase (lit "NGN") = lit "NGN"
  /\ trim (lit "acc-001") = lit "acc-001"
  /\ trim (lit "acc-002") = lit "acc-002"
  /\ (forall date, Some (lit "2026-12-31") = Some date -> trim date = date).
Proof.
  destruct (draft_fields_trimmed
              (lit "CREDIT 300 ngn TO  ACCOUNT acc-002 FOR DEBIT FROM ACCOUNT acc-001 ON 2026-12-31 ")
              (Draft.mk CREDIT (lit "300") (lit "NGN") (lit "acc-001") (lit "acc-002")
                        (Some (lit "2026-12-31"))))
    as (_ & _ & U & D & C & E); [vm_compute; reflexivity|].
  split; [exact U|]. split; [exact D|]. split; [exact C|exact E].
Defined.

(** X5.  No draft of an instruction of ASCII text holds a constituent
    across which the scan looked for a keyword and that contains it: in a
    DEBIT draft the amount and the
    currency contain neither FROM nor FOR, the debit account does not
    contain FOR and the credit account does not contain ON, in any letter
    case; and alike, with TO for FROM and the accounts exchanged, in a
    CREDIT draft. *)
Theorem drafts_are_keyword_free instruction parsed :
  ascii_text instruction = true ->
  parseInstruction instruction = inr parsed ->
  keyword_free (Draft.type parsed) (Draft.amount parsed) (Draft.currency parsed)
               (Draft.debitAccount parsed) (Draft.creditAccount parsed) = true.
Proof.
  destruct parsed as [form a c d e date]. intros _ H.
  now apply (parseInstruction_keyword_free instruction form a c d e date).
Qed.

Lemma drafts_are_keyword_free_witness :
  keyword_free DEBIT (lit "100") (lit "USD") (lit "a") (lit "j") = true.
Proof.
  apply (drafts_are_keyword_free
           (lit "DEBIT 100 USD FROM ACCOUNT a FOR CREDIT TO ACCOUNT jon")
           (Draft.mk DEBIT (lit "100") (lit "USD") (lit "a") (lit "j") (Some [])));
    vm_compute; reflexivity.
Defined.

(** ** Further properties of the service *)

(** X6.  The endpoint always answers: with status 400 and one of the codes
    SY01, SY03, AM01, CU02, AC04, AC02, AC03, CU01, AC01, DT01 (never SY02)
    when the transfer failed, with status 200 and code AP02 when it is
    pending, with status 200 and code AP00 when it was executed. The
    framework's default status is never used. *)
Theorem endpoint_status host HTTP_200_OK body :
  exists reply accounts',
    handler host HTTP_200_OK body = Some (reply, accounts')
    /\ match Response.status (Reply.data reply) with
       | failed =>
           Reply.status reply = 400
           /\ In (Response.status_code (Reply.data reply)) failure_codes
       | pending =>
           Reply.status reply = 200 /\ Response.status_code (Reply.data reply) = AP02
       | successful =>
           Reply.status reply = 200 /\ Response.status_code (Reply.data reply) = AP00
       end.
Proof.
  unfold handler.
  destruct (served host (Payload.accounts body) (Payload.instruction body))
    as (r & accounts' & E & S).
  rewrite E. eexists _, _. split; [reflexivity|]. cbn [Reply.data Reply.status].
  pose proof (failure_code_listed _ _ _ _ _ S) as F.
  destruct S; cbn [echo Response.status Response.httpStatus Response.status_code] in *;
    (split; [reflexivity|]); try reflexivity; now apply F.
Qed.

(** X7.  A call never adds, removes, reorders or renames an account and
    never changes a currency; and an account whose id is neither the debit
    nor the credit account of the response is left as it was. *)
Theorem accounts_frame host accounts instruction :
  exists r accounts',
    paymentInstructionsService host accounts instruction = Some (r, accounts')
    /\ map Account.id accounts' = map Account.id accounts
    /\ map Account.currency accounts' = map Account.currency accounts
    /\ forall k acc,
         nth_error accounts k = Some acc ->
         Response.debit_account r <> Some (Account.id acc) ->
         Response.credit_account r <> Some (Account.id acc) ->
         nth_error accounts' k = Some acc.
Proof.
  destruct (served host accounts instruction) as (r & accounts' & E & S).
  exists r, accounts'. split; [exact E|].
  destruct S; try (repeat split; auto; fail).
  unfold transferred. cbn [echo Response.debit_account Response.credit_account].
  split; [now rewrite !map_id_set_balance|].
  split; [now rewrite !map_currency_set_balance|].
  intros k acc Hk Hd Hc.
  apply nth_error_set_balance; [apply nth_error_set_balance|]; congruence.
Qed.

(** X8.  The entries of a response, for an instruction that parses: they are
    the accounts of the request whose id is the debit or the credit account,
    in the order of the request; unless the transfer was executed, every
    entry shows a balance equal to its balance before; and when no two
    accounts of the request share an id, each entry holds the account's id,
    its currency in upper case, its balance before the call and its balance
    after it. *)
Theorem response_entries host accounts instruction parsed :
  parseInstruction instruction = inr parsed ->
  exists r accounts',
    paymentInstructionsService host accounts instruction = Some (r, accounts')
    /\ map Snapshot.id (Response.accounts r)
       = map Account.id (filter (involved parsed) accounts)
    /\ (Response.status r <> successful ->
        Forall (fun e => Snapshot.balance e = Snapshot.balance_before e)
               (Response.accounts r))
    /\ (NoDup (map Account.id accounts) ->
        Response.accounts r = map (report accounts') (filter (involved parsed) accounts)).
Proof.
  intro P.
  destruct (served host accounts instruction) as (r & accounts' & E & S).
  exists r, accounts'. split; [exact E|].
  assert (U : map Snapshot.id (untouched_accounts parsed accounts)
              = map Account.id (filter (involved parsed) accounts)).
  { unfold untouched_accounts. rewrite map_map. reflexivity. }
  assert (B : Forall (fun e => Snapshot.balance e = Snapshot.balance_before e)
                     (untouched_accounts parsed accounts)).
  { unfold untouched_accounts. apply Forall_forall. intros e He.
    apply in_map_iff in He. now destruct He as (a & <- & _). }
  assert (V : NoDup (map Account.id accounts) ->
              untouched_accounts parsed accounts
              = map (report accounts) (filter (involved parsed) accounts)).
  { intro N. unfold untouched_accounts. apply map_ext_in. intros a Ha.
    apply filter_In in Ha. destruct Ha as [Ha _].
    unfold report, balance_of. now rewrite (find_account_NoDup _ _ N Ha). }
  destruct S as [f P'|p f P' _|p P' _ _|p z dA cA P' _ _ Hz Hpos Hd Hc Hle Hne];
    rewrite P in P'; try discriminate P'; inversion P'; subst p; clear P';
    cbn [echo Response.accounts Response.status];
    try (split; [assumption|]; split; [intros _; assumption|assumption]).
  split; [|split; [intro N; now contradiction N|]].
  - rewrite executed_accounts_ids.
    + apply filter_involved_ids, map_id_transferred.
    + cbn. now apply find_account_id in Hd.
    + cbn. now apply find_account_id in Hc.
  - intro N. unfold executed_accounts. cbn [debitAcc creditAcc].
    set (g := fun i : jsstring =>
                if str_eqb i (Draft.debitAccount parsed)
                then entry dA (fround (Account.balance dA - z))
                else entry cA (fround (Account.balance cA + z))).
    change (map (fun acc : Account.t => g (Account.id acc))
                (filter (involved parsed) (transferred parsed accounts z dA cA))
            = map (report (transferred parsed accounts z dA cA))
                  (filter (involved parsed) accounts)).
    rewrite involved_ids, map_id_transferred, <- involved_ids.
    apply map_ext_in. intros a Ha. apply filter_In in Ha. destruct Ha as [Ia Ha].
    pose proof (find_account_NoDup _ _ N Ia) as Fa.
    unfold g, report, involved in *.
    destruct (str_eqb (Account.id a) (Draft.debitAccount parsed)) eqn:Ed.
    + apply str_eqb_eq in Ed. rewrite Ed in Fa |- *.
      assert (a = dA) by congruence. subst a.
      now rewrite balance_of_transferred_debit.
    + cbn [orb] in Ha. apply str_eqb_eq in Ha. rewrite Ha in Fa |- *.
      assert (a = cA) by congruence. subst a.
      now rewrite balance_of_transferred_credit.
Qed.

Lemma response_entries_witness :
  exists r accounts',
    paymentInstructionsService reference_host
      [acct "x" 7 "usd"; acct "N9122" 500 "USD"; acct "N90394" 1000 "usd"]
      (lit "DEBIT 500 USD FROM ACCOUNT N90394 FOR CREDIT TO ACCOUNT N9122")
    = Some (r, accounts')
    /\ Response.accounts r
       = [Snapshot.mk (lit "N9122") 1000 500 (lit "USD");
          Snapshot.mk (lit "N90394") 500 1000 (lit "USD")].
Proof.
  destruct (response_entries reference_host
              [acct "x" 7 "usd"; acct "N9122" 500 "USD"; acct "N90394" 1000 "usd"]
              (lit "DEBIT 500 USD FROM ACCOUNT N90394 FOR CREDIT TO ACCOUNT N9122")
              (Draft.mk DEBIT (lit "500") (lit "USD") (lit "N90394") (lit "N9122") None)
              ltac:(vm_compute; reflexivity))
    as (r & accounts' & E & _ & _ & H).
  exists r, accounts'. split; [exact E|].
  rewrite H.
  - vm_compute in E. inversion E; subst. vm_compute. reflexivity.
  - vm_compute. repeat constructor; cbn; intuition discriminate.
Defined.

(** X9.  A transfer is deferred only for a date that validates and whose UTC
    day lies after the UTC day of the clock; it is executed only when no
    date or an empty date was given, or for a date that validates and whose
    UTC day is not after that of the clock. *)
Theorem scheduling host accounts instruction :
  exists r accounts',
    paymentInstructionsService host accounts instruction = Some (r, accounts')
    /\ match Response.status r with
       | pending =>
           exists date t,
             Response.execute_by r = Some date /\ validateDate host date = inr t
             /\ utc_midnight host (now host) < utc_midnight host t
       | successful =>
           forall date,
             Response.execute_by r = Some date ->
             date = [] \/ exists t, validateDate host date = inr t
                                    /\ utc_midnight host t <= utc_midnight host (now host)
       | failed => True
       end.
Proof.
  destruct (served host accounts instruction) as (r & accounts' & E & S).
  exists r, accounts'. split; [exact E|].
  destruct S as [f P|p f P V|p P V D|p z dA cA P V D _ _ _ _ _ _];
    cbn [echo Response.status Response.execute_by]; try exact I.
  - unfold shouldExecuteImmediately, truthy in D.
    destruct (validated _ _ _ V) as (_ & _ & W). unfold date_well_formed in W.
    destruct (Draft.executeBy p) as [date|]; [|discriminate].
    destruct (nonempty date); [|discriminate]. cbn [negb] in D.
    destruct (validateDate host date) as [f|t] eqn:Vd; [discriminate|].
    exists date, t. split; [reflexivity|]. split; [exact Vd|].
    apply Z.leb_gt in D. lia.
  - intros date Hdate. unfold shouldExecuteImmediately, truthy in D.
    rewrite Hdate in D. destruct date as [|c date]; [now left|right].
    cbn [nonempty negb] in D.
    destruct (validateDate host (c :: date)) as [f|t] eqn:Vd; [discriminate|].
    exists t. split; [reflexivity|]. now apply Z.leb_le.
Qed.

(** X10.  In a response that is pending or successful the amount is a
    positive number, and the amount written in the instruction is that
    number in canonical decimal notation: it is what [String] prints for it. *)
Theorem amount_echoed host accounts instruction :
  exists r accounts',
    paymentInstructionsService host accounts instruction = Some (r, accounts')
    /\ (Response.status r <> failed ->
        exists parsed n,
          parseInstruction instruction = inr parsed
          /\ Response.amount r = Some (Num n) /\ 0 < n
          /\ Draft.amount parsed = to_string (Num n)
          /\ canonicalb (Draft.amount parsed) = true).
Proof.
  destruct (served host accounts instruction) as (r & accounts' & E & S).
  exists r, accounts'. split; [exact E|].
  destruct S as [f P|p f P V|p P V D|p z dA cA P V D Hz Hpos _ _ _ _];
    cbn [echo Response.status Response.amount]; intro N; try congruence.
  - pose proof (validated_amount _ _ _ V) as W.
    destruct (amount_well_formed_number _ W) as (z & Hz & Hpos).
    exists p, z. rewrite Hz. repeat split; try assumption.
    + symmetry. now apply amount_well_formed_string.
    + now apply amount_passes_canonical.
  - pose proof (validated_amount _ _ _ V) as W.
    exists p, z. repeat split; try assumption.
    + symmetry. now apply amount_well_formed_string.
    + now apply amount_passes_canonical.
Qed.

(** X11.  An executed transfer was covered and is in one supported currency:
    the debit account held at least the amount, it is left with a balance
    that is not negative, the currency of the response is one of NGN, USD,
    GBP and GHS, and every entry of the response carries it. *)
Theorem executed_transfer_covered host accounts instruction :
  exists r accounts',
    paymentInstructionsService host accounts instruction = Some (r, accounts')
    /\ (Response.status r = successful ->
        exists amt d cur before after,
          Response.amount r = Some (Num amt) /\ Response.debit_account r = Some d
          /\ Response.currency r = Some cur
          /\ balance_of accounts d = Some before /\ amt <= before
          /\ balance_of accounts' d = Some after /\ 0 <= after
          /\ includes SUPPORTED_CURRENCIES cur = true
          /\ Forall (fun e => Snapshot.currency e = cur) (Response.accounts r)).
Proof.
  destruct (served host accounts instruction) as (r & accounts' & E & S).
  exists r, accounts'. split; [exact E|].
  destruct S as [f P|p f P V|p P V D|p z dA cA P V D Hz Hpos Hd Hc Hle Hne];
    cbn [echo Response.status Response.amount Response.debit_account Response.currency
         Response.accounts]; intro N; try discriminate N.
  destruct (validated_currency _ _ _ _ _ V Hd Hc) as (Hs & Cd & Cc).
  exists z, (Draft.debitAccount p), (Draft.currency p), (Account.balance dA),
    (fround (Account.balance dA - z)).
  repeat (split; [reflexivity|]).
  split; [unfold balance_of; now rewrite Hd|].
  split; [exact Hle|].
  split; [now apply balance_of_transferred_debit|].
  split; [apply fround_nonneg; lia|].
  split; [exact Hs|].
  unfold executed_accounts. apply Forall_forall. intros e He.
  apply in_map_iff in He. destruct He as (a & <- & _).
  cbn [debitAcc creditAcc].
  destruct (str_eqb (Account.id a) (Draft.debitAccount p)); assumption.
Qed.

(** X12.  The letter case of the accounts' currency codes is of no effect:
    with the codes in upper case the service gives the same response, and
    leaves the same accounts with their codes in upper case. *)
Theorem account_currency_case host accounts instruction :
  paymentInstructionsService host (map upper_currency accounts) instruction
  = leaving (map upper_currency) (paymentInstructionsService host accounts instruction).
Proof.
  unfold paymentInstructionsService, leaving.
  destruct (parseInstruction instruction) as [f|parsed]; [reflexivity|].
  rewrite validateInstruction_upper, untouched_accounts_upper.
  destruct (validateInstruction host parsed accounts) as [v|[]]; [reflexivity|].
  destruct (negb _); [reflexivity|].
  rewrite executeTransaction_upper.
  destruct (executeTransaction parsed accounts) as [[result accounts']|]; [|reflexivity].
  cbn [option_map fst snd]. now rewrite executed_accounts_upper.
Qed.

(** X13.  Only the accounts that the instruction names matter: served with
    these accounts alone, an instruction that parses gets the same response,
    and leaves them as the full call leaves them. *)
Theorem only_named_accounts_matter host accounts instruction parsed :
  parseInstruction instruction = inr parsed ->
  paymentInstructionsService host (filter (involved parsed) accounts) instruction
  = leaving (filter (involved parsed))
            (paymentInstructionsService host accounts instruction).
Proof.
  intro P. unfold paymentInstructionsService, leaving. rewrite P.
  rewrite (validateInstruction_lookups host parsed (filter (involved parsed) accounts)
             accounts) by (apply find_account_filter; tauto).
  unfold untouched_accounts. rewrite filter_involved_idem.
  destruct (validateInstruction host parsed accounts) as [v|[]]; [reflexivity|].
  destruct (negb _); [reflexivity|].
  rewrite executeTransaction_filter.
  destruct (executeTransaction parsed accounts) as [[result accounts']|]; [|reflexivity].
  cbn [option_map fst snd]. unfold executed_accounts. now rewrite filter_involved_idem.
Qed.

Lemma only_named_accounts_matter_witness :
  paymentInstructionsService reference_host
    [acct "N9122" 500 "USD"; acct "N90394" 1000 "usd"]
    (lit "DEBIT 500 USD FROM ACCOUNT N90394 FOR CREDIT TO ACCOUNT N9122")
  = leaving (filter (involved (Draft.mk DEBIT (lit "500") (lit "USD") (lit "N90394")
                                        (lit "N9122") None)))
      (paymentInstructionsService reference_host
         [acct "x" 7 "GBP"; acct "N9122" 500 "USD"; acct "y" 0 "NGN";
          acct "N90394" 1000 "usd"]
         (lit "DEBIT 500 USD FROM ACCOUNT N90394 FOR CREDIT TO ACCOUNT N9122")).
Proof.
  apply (only_named_accounts_matter reference_host
           [acct "x" 7 "GBP"; acct "N9122" 500 "USD"; acct "y" 0 "NGN";
            acct "N90394" 1000 "usd"]
           (lit "DEBIT 500 USD FROM ACCOUNT N90394 FOR CREDIT TO ACCOUNT N9122")
           (Draft.mk DEBIT (lit "500") (lit "USD") (lit "N90394") (lit "N9122") None)).
  vm_compute. reflexivity.
Defined.

(** X14.  A transfer and the transfer back: after an executed transfer
    between balances that doubles hold exactly, with a credit balance that
    was not negative, the instruction of the same amount, currency and date
    with the two accounts exchanged, served at the same clock reading, is
    executed too and leaves every account as it was at first. *)
Theorem reverse_transfer_restores host accounts i1 i2 parsed form r1 accounts1 amt bd bc :
  parseInstruction i1 = inr parsed ->
  parseInstruction i2 = inr (reversed form parsed) ->
  paymentInstructionsService host accounts i1 = Some (r1, accounts1) ->
  Response.status r1 = successful ->
  Response.amount r1 = Some (Num amt) ->
  balance_of accounts (Draft.debitAccount parsed) = Some bd ->
  balance_of accounts (Draft.creditAccount parsed) = Some bc ->
  safe bd -> 0 <= bc -> safe (bc + amt) ->
  exists r2,
    paymentInstructionsService host accounts1 i2 = Some (r2, accounts)
    /\ Response.status r2 = successful.
Proof.
  intros P1 P2 S1 St Am Bd Bc Sd Pc Sc.
  apply served_inv in S1.
  destruct S1 as [f P|p f P V|p P V D|p z dA cA P V D Hz Hpos Hd Hc Hle Hne];
    try discriminate St.
  rewrite P1 in P. inversion P; subst p; clear P.
  cbn [echo Response.amount] in Am. inversion Am; subst z; clear Am.
  unfold balance_of in Bd, Bc. rewrite Hd in Bd. rewrite Hc in Bc.
  cbn [option_map] in Bd, Bc. inversion Bd. inversion Bc. clear Bd Bc.
  subst bd bc.
  assert (Sd' : safe (Account.balance dA - amt)) by (unfold safe in *; lia).
  assert (Sc' : safe (Account.balance cA)) by (unfold safe in *; lia).
  set (q := reversed form parsed).
  set (A1 := transferred parsed accounts amt dA cA).
  assert (Fd : find_account A1 (Draft.debitAccount parsed)
               = Some (Account.mk (Account.id dA) (Account.balance dA - amt)
                                  (Account.currency dA))).
  { unfold A1, transferred. rewrite find_set_balance_other by congruence.
    rewrite (find_set_balance_same _ _ _ _ Hd). now rewrite (fround_safe _ Sd'). }
  assert (Fc : find_account A1 (Draft.creditAccount parsed)
               = Some (Account.mk (Account.id cA) (Account.balance cA + amt)
                                  (Account.currency cA))).
  { unfold A1, transferred. erewrite find_set_balance_same.
    - now rewrite (fround_safe _ Sc).
    - rewrite find_set_balance_other by assumption. exact Hc. }
  assert (V2 : validateInstruction host q A1 = inr tt).
  { pose proof (validated_rules _ _ _ V) as R.
    apply validate_passes. unfold rule_chain in *.
    unfold debit_lookup, credit_lookup, sufficient_funds, debit_lookup,
      date_well_formed in *.
    cbn [q reversed Draft.amount Draft.currency Draft.debitAccount Draft.creditAccount
         Draft.executeBy].
    rewrite Hd, Hc in R. rewrite Fd, Fc.
    repeat match goal with
           | Hf : Forall _ (_ :: _) |- _ => inversion Hf; subst; clear Hf
           end.
    cbn [snd is_some currency_matches Account.currency Account.balance] in *.
    repeat (apply Forall_cons; [cbn [snd]|]); try apply Forall_nil;
      try assumption; try reflexivity.
    - apply negb_true_iff, str_eqb_neq. congruence.
    - rewrite Hz. cbn [lt_num]. apply negb_true_iff, Z.ltb_ge. lia. }
  assert (E2 : executeTransaction q A1
               = Some (mkExecuted
                         (entry (Account.mk (Account.id cA) (Account.balance cA + amt)
                                            (Account.currency cA))
                                (fround (Account.balance cA + amt - amt)))
                         (entry (Account.mk (Account.id dA) (Account.balance dA - amt)
                                            (Account.currency dA))
                                (fround (Account.balance dA - amt + amt))),
                       accounts)).
  { rewrite (executeTransaction_result q A1 amt _ _ Hz Fc Fd) by (cbn; congruence).
    f_equal. f_equal. unfold transferred.
    cbn [q reversed Draft.debitAccount Draft.creditAccount Account.balance].
    replace (Account.balance cA + amt - amt) with (Account.balance cA) by lia.
    replace (Account.balance dA - amt + amt) with (Account.balance dA) by lia.
    rewrite (fround_safe _ Sc'), (fround_safe _ Sd).
    unfold A1, transferred. rewrite (set_balance_twice _ (Draft.creditAccount parsed)).
    rewrite (set_balance_comm _ (Draft.creditAccount parsed)) by congruence.
    rewrite set_balance_twice.
    rewrite (set_balance_same _ _ _ Hd).
    now rewrite (set_balance_same _ _ _ Hc). }
  unfold paymentInstructionsService. rewrite P2. fold q. rewrite V2.
  cbn [q reversed Draft.executeBy]. rewrite D. cbn [negb].
  change (Draft.mk form (Draft.amount parsed) (Draft.currency parsed)
            (Draft.creditAccount parsed) (Draft.debitAccount parsed)
            (Draft.executeBy parsed)) with q.
  rewrite E2. eexists. split; reflexivity.
Qed.

Lemma reverse_transfer_restores_witness :
  exists r2,
    paymentInstructionsService reference_host
      [acct "a" 400 "GBP"; acct "b" 300 "GBP"]
      (lit "CREDIT 100 GBP TO ACCOUNT a FOR DEBIT FROM ACCOUNT b")
    = Some (r2, [acct "a" 500 "GBP"; acct "b" 200 "GBP"])
    /\ Response.status r2 = successful.
Proof.
  apply (reverse_transfer_restores reference_host
           [acct "a" 500 "GBP"; acct "b" 200 "GBP"]
           (lit "DEBIT 100 GBP FROM ACCOUNT a FOR CREDIT TO ACCOUNT b")
           (lit "CREDIT 100 GBP TO ACCOUNT a FOR DEBIT FROM ACCOUNT b")
           (Draft.mk DEBIT (lit "100") (lit "GBP") (lit "a") (lit "b") None) CREDIT
           (echo 200 (Draft.mk DEBIT (lit "100") (lit "GBP") (lit "a") (lit "b") None)
                 (Some (Num 100)) successful (STATUS_CODES AP00) AP00
                 [Snapshot.mk (lit "a") 400 500 (lit "GBP");
                  Snapshot.mk (lit "b") 300 200 (lit "GBP")])
           [acct "a" 400 "GBP"; acct "b" 300 "GBP"] 100 500 200);
    try (vm_compute; reflexivity); unfold safe; simpl; lia.
Defined.

(** X15.  [validateDate] accepts exactly the texts of the shape [dddd-dd-dd]
    that the host reads as a date when [T00:00:00.000Z] is appended, and
    returns the instant the host reads; every rejection carries DT01. *)
Theorem validateDate_accepts host dateStr :
  (forall date,
      validateDate host dateStr = inr date
      <-> date_shaped dateStr = true
          /\ date_value host (dateStr ++ lit "T00:00:00.000Z") = Some date)
  /\ (forall f, validateDate host dateStr = inl f -> statusCode f = DT01).
Proof.
  split; [|intros f; apply validateDate_code].
  intro date.
  destruct (Nat.eqb_spec (length dateStr) 10) as [L|L].
  - destruct dateStr as [|y1 [|y2 [|y3 [|y4 [|h1 [|m1 [|m2 [|h2 [|d1 [|d2 [|x s]]]]]]]]]]];
      try discriminate L.
    unfold validateDate, date_shaped. cbv zeta.
    change (substring [y1; y2; y3; y4; h1; m1; m2; h2; d1; d2] 0 4) with [y1; y2; y3; y4].
    change (substring [y1; y2; y3; y4; h1; m1; m2; h2; d1; d2] 5 7) with [m1; m2].
    change (substring [y1; y2; y3; y4; h1; m1; m2; h2; d1; d2] 8 10) with [d1; d2].
    cbn [nonempty length Nat.eqb negb orb nth forallb].
    destruct (char_eqb h1 "-"%char); [|date_case].
    destruct (char_eqb h2 "-"%char); [|date_case].
    destruct (is_digit y1); [|date_case].
    destruct (is_digit y2); [|date_case].
    destruct (is_digit y3); [|date_case].
    destruct (is_digit y4); [|date_case].
    destruct (is_digit m1); [|date_case].
    destruct (is_digit m2); [|date_case].
    destruct (is_digit d1); [|date_case].
    destruct (is_digit d2); [|date_case].
    cbn [negb orb andb].
    destruct (date_value host _) as [t|]; split.
    + intro H. inversion H. now split.
    + intros [_ H]. now inversion H.
    + discriminate.
    + intros [_ H]. discriminate H.
  - unfold validateDate. cbv zeta.
    apply Nat.eqb_neq in L. rewrite L. cbn [negb]. rewrite orb_true_r.
    split; [discriminate|]. intros [H _]. exfalso.
    apply Nat.eqb_neq in L. apply L. unfold date_shaped in H.
    destruct dateStr as [|y1 [|y2 [|y3 [|y4 [|h1 [|m1 [|m2 [|h2 [|d1 [|d2 [|x s]]]]]]]]]]];
      try discriminate H. reflexivity.
Qed.

(** X16.  When several accounts of the request share an id, a call leaves
    all but the first of them as they were. *)
Theorem later_duplicates_untouched host accounts instruction :
  exists r accounts',
    paymentInstructionsService host accounts instruction = Some (r, accounts')
    /\ forall j k a b,
         (j < k)%nat -> nth_error accounts j = Some a -> nth_error accounts k = Some b ->
         Account.id a = Account.id b ->
         nth_error accounts' k = Some b.
Proof.
  destruct (served host accounts instruction) as (r & accounts' & E & S).
  exists r, accounts'. split; [exact E|].
  intros j k a b Hjk Hj Hk Hid.
  destruct S; try exact Hk.
  unfold transferred.
  destruct (nth_error_set_balance_id (Draft.debitAccount parsed)
              (fround (Account.balance debitAcc0 - amountNum)) _ _ _ Hj)
    as (a' & Hj' & Hid').
  apply (set_balance_shadowed _ _ _ j k a' b); [exact Hjk|exact Hj'| |congruence].
  now apply (set_balance_shadowed _ _ _ j k a b).
Qed.

(** X17.  The clock matters to the scheduling decision only: a failed
    response is the same at every clock reading, an executed transfer is
    executed alike at every clock reading of the same or a later UTC day,
    and a pending transfer is pending alike at every clock reading of the
    same or an earlier UTC day. *)
Theorem clock_dependence host instant accounts instruction :
  exists r accounts',
    paymentInstructionsService host accounts instruction = Some (r, accounts')
    /\ (match Response.status r with
        | failed => True
        | successful => utc_midnight host (now host) <= utc_midnight host instant
        | pending => utc_midnight host instant <= utc_midnight host (now host)
        end ->
        paymentInstructionsService (at_clock host instant) accounts instruction
        = Some (r, accounts')).
Proof.
  destruct (served host accounts instruction) as (r & accounts' & E & S).
  exists r, accounts'. split; [exact E|].
  unfold paymentInstructionsService.
  destruct S as [f P|p f P V|p P V D|p z dA cA P V D Hz Hpos Hd Hc Hle Hne];
    cbn [echo Response.status]; intro M; rewrite P; try reflexivity;
    rewrite validateInstruction_at_clock, V; try reflexivity.
  - assert (D' : shouldExecuteImmediately (at_clock host instant) (Draft.executeBy p)
                 = false).
    { revert D. unfold shouldExecuteImmediately.
      destruct (negb (truthy (Draft.executeBy p))); [discriminate|].
      destruct (Draft.executeBy p) as [date|]; [|discriminate].
      rewrite validateDate_at_clock.
      destruct (validateDate host date) as [?|t]; [reflexivity|].
      cbn [at_clock utc_midnight now]. intro D. apply Z.leb_gt in D.
      apply Z.leb_gt. lia. }
    rewrite D'. reflexivity.
  - assert (D' : shouldExecuteImmediately (at_clock host instant) (Draft.executeBy p)
                 = true).
    { revert D. unfold shouldExecuteImmediately.
      destruct (negb (truthy (Draft.executeBy p))); [reflexivity|].
      destruct (Draft.executeBy p) as [date|]; [|reflexivity].
      rewrite validateDate_at_clock.
      destruct (validateDate host date) as [?|t]; [discriminate|].
      cbn [at_clock utc_midnight now]. intro D. apply Z.leb_le in D.
      apply Z.leb_le. lia. }
    rewrite D'. cbn [negb].
    rewrite (executeTransaction_result _ _ _ _ _ Hz Hd Hc Hne), Hz. reflexivity.
Qed.

(** X18.  A transfer is accepted only when every check of the validator
    passed: a response that is pending or successful echoes the type,
    amount, currency, two account ids and date of the draft that the
    instruction parsed to, and for that draft the amount is a positive
    number in canonical notation, the currency is supported, both account
    ids are of the AC04 character set and differ, both accounts are found
    and hold the currency of the transfer, the debit account's balance is
    at least the amount, and a date, when one was given and is not empty,
    is one that [validateDate] accepts. *)
Theorem accepted_transfer_passes_every_rule host accounts instruction :
  exists r accounts',
    paymentInstructionsService host accounts instruction = Some (r, accounts')
    /\ (Response.status r <> failed ->
        exists parsed amountNum debitAcc creditAcc,
          parseInstruction instruction = inr parsed
          /\ (Response.type r = Some (Draft.type parsed)
              /\ Response.amount r = Some (Num amountNum)
              /\ Response.currency r = Some (Draft.currency parsed)
              /\ Response.debit_account r = Some (Draft.debitAccount parsed)
              /\ Response.credit_account r = Some (Draft.creditAccount parsed)
              /\ Response.execute_by r = Draft.executeBy parsed)
          /\ (amount_well_formed (Draft.amount parsed) = true
              /\ parseInt (Draft.amount parsed) = Num amountNum /\ 0 < amountNum)
          /\ includes SUPPORTED_CURRENCIES (Draft.currency parsed) = true
          /\ (isValidAccountId (Draft.debitAccount parsed) = true
              /\ isValidAccountId (Draft.creditAccount parsed) = true)
          /\ Draft.debitAccount parsed <> Draft.creditAccount parsed
          /\ (find_account accounts (Draft.debitAccount parsed) = Some debitAcc
              /\ find_account accounts (Draft.creditAccount parsed) = Some creditAcc)
          /\ (toUpperCase (Account.currency debitAcc) = Draft.currency parsed
              /\ toUpperCase (Account.currency creditAcc) = Draft.currency parsed)
          /\ amountNum <= Account.balance debitAcc
          /\ (forall date, Draft.executeBy parsed = Some date ->
                date = [] \/ exists t, validateDate host date = inr t)).
Proof.
  destruct (served host accounts instruction) as (r & accounts' & E & S).
  exists r, accounts'. split; [exact E|].
  assert (G : forall p, parseInstruction instruction = inr p ->
                validateInstruction host p accounts = inr tt ->
                exists amountNum debitAcc creditAcc,
                  (amount_well_formed (Draft.amount p) = true
                   /\ parseInt (Draft.amount p) = Num amountNum /\ 0 < amountNum)
                  /\ includes SUPPORTED_CURRENCIES (Draft.currency p) = true
                  /\ (isValidAccountId (Draft.debitAccount p) = true
                      /\ isValidAccountId (Draft.creditAccount p) = true)
                  /\ Draft.debitAccount p <> Draft.creditAccount p
                  /\ (find_account accounts (Draft.debitAccount p) = Some debitAcc
                      /\ find_account accounts (Draft.creditAccount p) = Some creditAcc)
                  /\ (toUpperCase (Account.currency debitAcc) = Draft.currency p
                      /\ toUpperCase (Account.currency creditAcc) = Draft.currency p)
                  /\ amountNum <= Account.balance debitAcc
                  /\ (forall date, Draft.executeBy p = Some date ->
                        date = [] \/ exists t, validateDate host date = inr t)).
  { intros p P V.
    destruct (validated _ _ _ V) as ((z & Hz & Hpos & dA & cA & Hd & Hc & Hle) & Hne & W).
    destruct (validated_currency _ _ _ _ _ V Hd Hc) as (Hcu & Hdc & Hcc).
    pose proof (validated_rules _ _ _ V) as R. unfold rule_chain in R.
    do 2 apply Forall_inv_tail in R.
    pose proof (Forall_inv R) as I1. apply Forall_inv_tail in R.
    pose proof (Forall_inv R) as I2. clear R. cbn [snd] in I1, I2.
    exists z, dA, cA.
    split; [split; [now apply (validated_amount host p accounts)|now split]|].
    split; [exact Hcu|]. split; [now split|]. split; [exact Hne|].
    split; [now split|]. split; [now split|]. split; [exact Hle|].
    intros date Hdate. unfold date_well_formed in W. rewrite Hdate in W.
    destruct date as [|c date]; [now left|right]. cbn [nonempty] in W.
    destruct (validateDate host (c :: date)) as [f|t]; [discriminate|].
    now exists t. }
  destruct S as [f P|p f P V|p P V D|p z dA cA P V D Hz _ _ _ _ _];
    cbn [echo Response.status Response.type Response.amount Response.currency
         Response.debit_account Response.credit_account Response.execute_by];
    intro N; try congruence.
  - destruct (G p P V) as (n & dA & cA & (Hw & Hn & Hp) & H).
    exists p, n, dA, cA. split; [exact P|]. rewrite Hn.
    split; [repeat split|]. split; [now split|exact H].
  - destruct (G p P V) as (n & dA' & cA' & (Hw & Hn & Hp) & H).
    assert (n = z) by congruence. subst n.
    exists p, z, dA', cA'. split; [exact P|].
    split; [repeat split|]. split; [now split|exact H].
Qed.
